(** * Creative Risk Auditor: the post-processing pipeline of [app.py]

    A shallow embedding of the deterministic core of [app.py] (text
    normaliser, policy filter, score classifier, aggregator, hotspot geometry
    engine, caption span matcher) and the properties its specification states
    about it.

    Layout: the Python values the code handles; the functions of [app.py]
    in source order; a runtime to evaluate them with; the vocabulary of the
    statements; the theorems, C1 to C10 among them.

    Floats are binary64 (the primitive floats), strings are sequences of
    code points, dicts keep insertion order, and a raised exception is a
    result of its own.  What the code takes from the interpreter and the
    standard library and that the values do not fix ([str.lower],
    [math.hypot], the order of a set, ...) is a parameter, [PyRuntime]. *)

From Stdlib Require Import String Ascii.
From Stdlib Require Import ZArith NArith List Bool Lia Floats.
From Stdlib Require Import Permutation Sorted.
Import ListNotations.

Set Warnings "-inexact-float,-register-all".

Local Open Scope Z_scope.

(* ================================================================== *)
(** * Part I. Python values *)
(* ================================================================== *)

(** ** Strings

    A Python [str] is a sequence of Unicode code points.  Literals are
    written as UTF-8 text and decoded by [u]. *)

Definition codepoint := N.
Definition pystr := list codepoint.

Fixpoint utf8_go (need : nat) (acc : N) (bs : list N) : pystr :=
  match bs with
  | [] => []
  | b :: r =>
    match need with
    | O =>
      if (b <? 128)%N then b :: utf8_go 0 0 r
      else if (b <? 224)%N then utf8_go 1 (N.land b 31) r
      else if (b <? 240)%N then utf8_go 2 (N.land b 15) r
      else utf8_go 3 (N.land b 7) r
    | S n =>
      let acc' := (acc * 64 + N.land b 63)%N in
      match n with
      | O => acc' :: utf8_go 0 0 r
      | S _ => utf8_go n acc' r
      end
    end
  end.

Definition u (s : string) : pystr :=
  utf8_go 0 0 (map N_of_ascii (list_ascii_of_string s)).

Fixpoint str_eqb (a b : pystr) : bool :=
  match a, b with
  | [], [] => true
  | x :: a', y :: b' => (x =? y)%N && str_eqb a' b'
  | _, _ => false
  end.

(** [a.startswith(p)] and [needle in hay]. *)
Fixpoint starts_with (p s : pystr) : bool :=
  match p, s with
  | [], _ => true
  | x :: p', y :: s' => (x =? y)%N && starts_with p' s'
  | _ :: _, [] => false
  end.

Fixpoint contains (needle hay : pystr) : bool :=
  starts_with needle hay ||
  match hay with
  | [] => false
  | _ :: hay' => contains needle hay'
  end.

(** ** Values

    The values [json.loads] produces: [None], booleans, integers of any
    size, binary64 floats, strings, lists, and dicts with string keys in
    insertion order. *)

Inductive pyval : Type :=
| PNone
| PBool (b : bool)
| PInt (z : Z)
| PFloat (f : float)
| PStr (s : pystr)
| PList (l : list pyval)
| PDict (d : list (pystr * pyval)).

Definition dict := list (pystr * pyval).

(** Truth value of an object, as [if v], [not v] and [v or w] test it. *)
Definition truthy (v : pyval) : bool :=
  match v with
  | PNone => false
  | PBool b => b
  | PInt z => negb (z =? 0)
  | PFloat f => negb (PrimFloat.eqb f 0%float)
  | PStr s => match s with [] => false | _ => true end
  | PList l => match l with [] => false | _ => true end
  | PDict d => match d with [] => false | _ => true end
  end.

(** [v or w] *)
Definition py_or (v w : pyval) : pyval := if truthy v then v else w.

Definition is_dict (v : pyval) : bool :=
  match v with PDict _ => true | _ => false end.

Definition is_str (v : pyval) : bool :=
  match v with PStr _ => true | _ => false end.

(** ** Exceptions *)

Inductive pyexn : Type :=
| TypeError | ValueError | AttributeError | OverflowError.

Inductive result (A : Type) : Type :=
| Ok (a : A)
| Raise (e : pyexn).

Arguments Ok {A} a.
Arguments Raise {A} e.

Definition is_ok {A} (r : result A) : bool :=
  match r with Ok _ => true | Raise _ => false end.

Definition bind {A B} (r : result A) (k : A -> result B) : result B :=
  match r with
  | Ok a => k a
  | Raise e => Raise e
  end.

Notation "x <- e ;; k" := (bind e (fun x => k))
  (at level 61, e at next level, right associativity).
Notation "' pat <- e ;; k" := (bind e (fun x => match x with pat => k end))
  (at level 61, pat pattern, e at next level, right associativity).

Fixpoint mapM {A B} (f : A -> result B) (l : list A) : result (list B) :=
  match l with
  | [] => Ok []
  | x :: r => y <- f x ;; ys <- mapM f r ;; Ok (y :: ys)
  end.

(** ** Dicts *)

Fixpoint dict_get (d : dict) (k : pystr) : option pyval :=
  match d with
  | [] => None
  | (k', v) :: r => if str_eqb k' k then Some v else dict_get r k
  end.

(** [d.get(k, dflt)]; [d.get(k)] is [get_or d k PNone]. *)
Definition get_or (d : dict) (k : pystr) (dflt : pyval) : pyval :=
  match dict_get d k with
  | Some v => v
  | None => dflt
  end.

(** [k in d] *)
Definition dict_mem (d : dict) (k : pystr) : bool :=
  match dict_get d k with Some _ => true | None => false end.

(** [d[k] = v]: the value is replaced in place, a new key goes last. *)
Fixpoint dict_set (d : dict) (k : pystr) (v : pyval) : dict :=
  match d with
  | [] => [(k, v)]
  | (k', v') :: r =>
    if str_eqb k' k then (k', v) :: r else (k', v') :: dict_set r k v
  end.

(** [v.get] exists on dicts only. *)
Definition as_dict (v : pyval) : result dict :=
  match v with
  | PDict d => Ok d
  | _ => Raise AttributeError
  end.

(** [for x in v]: the items a [for] loop or a [*v] unpacking visits. *)
Definition py_iter (v : pyval) : result (list pyval) :=
  match v with
  | PList l => Ok l
  | PStr s => Ok (map (fun c => PStr [c]) s)
  | PDict d => Ok (map (fun kv => PStr (fst kv)) d)
  | PNone | PBool _ | PInt _ | PFloat _ => Raise TypeError
  end.

(** A method of [str] is called on the value. *)
Definition as_str (v : pyval) : result pystr :=
  match v with
  | PStr s => Ok s
  | _ => Raise AttributeError
  end.

(** [re.findall] is given the value. *)
Definition as_re_subject (v : pyval) : result pystr :=
  match v with
  | PStr s => Ok s
  | _ => Raise TypeError
  end.

(** ** Numbers *)

(** [float(n)] for an integer: the nearest binary64, [OverflowError] beyond
    the finite range. *)
Definition float_of_int (z : Z) : result float :=
  match binary_normalize prec emax z 0 false with
  | S754_infinity _ => Raise OverflowError
  | sf => Ok (SF2Prim sf)
  end.

(** [int(f)] for a float: truncation towards zero. *)
Definition int_of_float (f : float) : result Z :=
  match Prim2SF f with
  | S754_nan => Raise ValueError
  | S754_infinity _ => Raise OverflowError
  | S754_zero _ => Ok 0
  | S754_finite s m e =>
    let mag := if 0 <=? e then Zpos m * 2 ^ e else Zpos m / 2 ^ (- e) in
    Ok (if s then - mag else mag)
  end.

(** Two-argument [min] and [max] on floats: the first argument is returned
    unless the second is strictly smaller (larger). *)
Definition fmin (a b : float) : float := if PrimFloat.ltb b a then b else a.
Definition fmax (a b : float) : float := if PrimFloat.ltb a b then b else a.

(** ** The library functions the code calls

    What [app.py] takes from the interpreter and its standard library and
    that is not fixed by the values above. *)

Class PyRuntime : Type := {
  (** [float(s)] and [int(s)] for a string *)
  float_of_str : pystr -> result float;
  int_of_str : pystr -> result Z;
  (** [str(v)] for a value that is not a string *)
  repr : pyval -> pystr;
  (** [s.lower()] *)
  lower : pystr -> pystr;
  (** whether two code points match under [re.IGNORECASE] *)
  ci_eq : codepoint -> codepoint -> bool;
  (** [math.hypot] *)
  hypot : float -> float -> float;
  (** the elements of the set built by inserting the given hashable values
      in order, in the set's iteration order *)
  set_list : list pyval -> list pyval;
  (** the order [sorted] leaves a list in when one of its keys, given here
      in list order, is a NaN, so that the keys are not totally ordered:
      each number picks one element out of what is left of the list *)
  nan_order : list float -> list nat
}.


(** What the theorems below assume of a set of strings: its iteration
    yields each distinct string once.  Nothing is assumed of the order. *)
Definition set_list_law (R : PyRuntime) : Prop :=
  forall l : list pyval,
    forallb is_str l = true ->
    NoDup (set_list l) /\ forall x, In x (set_list l) <-> In x l.

Section Conversions.
Context {R : PyRuntime}.

(** [float(v)] *)
Definition to_float (v : pyval) : result float :=
  match v with
  | PFloat f => Ok f
  | PInt z => float_of_int z
  | PBool b => Ok (if b then 1%float else 0%float)
  | PStr s => float_of_str s
  | PNone | PList _ | PDict _ => Raise TypeError
  end.

(** [int(v)] *)
Definition to_int (v : pyval) : result Z :=
  match v with
  | PInt z => Ok z
  | PBool b => Ok (if b then 1 else 0)
  | PFloat f => int_of_float f
  | PStr s => int_of_str s
  | PNone | PList _ | PDict _ => Raise TypeError
  end.

(** [str(v)] *)
Definition to_str (v : pyval) : pystr :=
  match v with
  | PStr s => s
  | _ => repr v
  end.
End Conversions.

(* ================================================================== *)
(** * Part II. The functions of [app.py] *)
(* ================================================================== *)

(** ** Text normaliser ([strip_circled]) *)

(** [CIRCLED_RANGE]: U+2460..U+2473, U+24F5..U+24FE, U+2776..U+277F. *)
Definition is_circled (c : codepoint) : bool :=
  ((9312 <=? c) && (c <=? 9331) ||
   (9461 <=? c) && (c <=? 9470) ||
   (10102 <=? c) && (c <=? 10111))%N.

(** The code points [\s] matches and [str.strip] removes. *)
Definition is_space (c : codepoint) : bool :=
  ((9 <=? c) && (c <=? 13) || (28 <=? c) && (c <=? 32) ||
   (c =? 133) || (c =? 160) || (c =? 5760) ||
   (8192 <=? c) && (c <=? 8202) || (c =? 8232) || (c =? 8233) ||
   (c =? 8239) || (c =? 8287) || (c =? 12288))%N.

Definition SPACE : codepoint := 32%N.

Arguments is_circled : simpl never.
Arguments is_space : simpl never.

(** [re.sub(CIRCLED_RANGE, "", t)] *)
Definition remove_circled (t : pystr) : pystr :=
  filter (fun c => negb (is_circled c)) t.

(** [re.sub(r"\s{2,}", " ", t)], read left to right: [pending] is the run
    of whitespace the scan is inside. *)
Inductive ws_run : Type :=
| NoRun
| OneWs (c : codepoint)
| ManyWs.

Definition flush_run (pending : ws_run) : pystr :=
  match pending with
  | NoRun => []
  | OneWs c => [c]
  | ManyWs => [SPACE]
  end.

Fixpoint collapse_go (pending : ws_run) (t : pystr) : pystr :=
  match t with
  | [] => flush_run pending
  | c :: r =>
    if is_space c then
      match pending with
      | NoRun => collapse_go (OneWs c) r
      | OneWs _ | ManyWs => collapse_go ManyWs r
      end
    else flush_run pending ++ c :: collapse_go NoRun r
  end.

Definition collapse_ws (t : pystr) : pystr := collapse_go NoRun t.

Fixpoint lstrip (t : pystr) : pystr :=
  match t with
  | [] => []
  | c :: r => if is_space c then lstrip r else t
  end.

(** [t.strip()] *)
Definition strip (t : pystr) : pystr := rev (lstrip (rev (lstrip t))).

Section Text.
Context {R : PyRuntime}.

Definition strip_circled (text : pyval) : pystr :=
  if negb (truthy text) then []
  else strip (collapse_ws (remove_circled (to_str text))).

(** ** Policy filter ([sanitize_lines]) *)

Definition PERF_KEYWORDS : list pystr :=
  Eval vm_compute in
  map u
    [ "전환"; "전환율"; "컨버전"; "conversion"; "CVR"; "구매율"; "매출";
      "Revenue"; "ROAS"; "CPA"; "CAC"; "클릭"; "클릭률"; "CTR"; "도달";
      "노출수"; "impression"; "reach"; "브랜딩"; "브랜드 리프트"; "성과";
      "퍼포먼스"; "효율"; "효과"; "전략적"; "성장률"; "KPI"; "트래픽";
      "세션"; "리텐션"; "재방문" ]%string.

Definition _looks_performance (line : pystr) : bool :=
  let low := lower line in
  existsb (fun kw => contains (lower kw) low) PERF_KEYWORDS.

Definition FALLBACK : pystr :=
  Eval vm_compute in
  u "해당 항목은 성과·효율과 무관하게, 현재 기준에서 뚜렷한 논란·문제 소지가 확인되지 않습니다.".

Fixpoint sanitize_loop (lines : list pyval) : list pystr :=
  match lines with
  | [] => []
  | x :: r =>
    let t := strip_circled x in
    match t with
    | [] => sanitize_loop r
    | _ :: _ =>
      if _looks_performance t then sanitize_loop r
      else t :: sanitize_loop r
    end
  end.

Definition sanitize_lines (lines : list pyval) : list pystr :=
  match sanitize_loop lines with
  | [] => [FALLBACK]
  | outs => outs
  end.
End Text.

(** ** Levels and colours *)

Definition L_VERY_SAFE : pystr := Eval vm_compute in u "매우 안전".
Definition L_SAFE : pystr := Eval vm_compute in u "안전".
Definition L_CAUTION : pystr := Eval vm_compute in u "주의".
Definition L_RISK : pystr := Eval vm_compute in u "위험".
Definition L_VERY_RISKY : pystr := Eval vm_compute in u "매우 위험".
Definition L_NONE : pystr := Eval vm_compute in u "—".

Definition PALETTE : list (pystr * pystr) :=
  [ (L_VERY_SAFE, u "#16A34A");
    (L_SAFE, u "#65A30D");
    (L_CAUTION, u "#D97706");
    (L_RISK, u "#F59E0B");
    (L_VERY_RISKY, u "#FF1F1F") ].

Definition LEVELS : list (Z * Z * pystr) :=
  [ (21, 25, L_VERY_SAFE);
    (16, 20, L_SAFE);
    (11, 15, L_CAUTION);
    (6, 10, L_RISK);
    (0, 5, L_VERY_RISKY) ].

Fixpoint level_scan (s : Z) (table : list (Z * Z * pystr)) : pystr :=
  match table with
  | [] => L_NONE
  | (lo, hi, name) :: r =>
    if (lo <=? s) && (s <=? hi) then name else level_scan s r
  end.

Definition level_of (score : Z) : pystr :=
  let s := Z.max 0 (Z.min 25 score) in
  level_scan s LEVELS.

Fixpoint palette_get (p : list (pystr * pystr)) (k dflt : pystr) : pystr :=
  match p with
  | [] => dflt
  | (k', c) :: r => if str_eqb k' k then c else palette_get r k dflt
  end.

Definition level_color (score : Z) : pystr :=
  palette_get PALETTE (level_of score) (u "#6B7280").

Definition severity_rank (level : pystr) : Z :=
  if str_eqb level L_VERY_SAFE then 0
  else if str_eqb level L_SAFE then 1
  else if str_eqb level L_CAUTION then 2
  else if str_eqb level L_RISK then 3
  else if str_eqb level L_VERY_RISKY then 4
  else 0.

(** ** Aggregator ([overall_from_text_image]) *)

Record verdict : Type := {
  level : pystr;
  worst_axis : pyval;
  worst_src : pystr;
  worst_score : Z;
  bg : pystr;
  emoji : pystr;
  summary : pystr
}.

Definition SRC_TEXT : pystr := Eval vm_compute in u "텍스트".
Definition SRC_IMAGE : pystr := Eval vm_compute in u "이미지".

Section Aggregator.
Context {R : PyRuntime}.

(** The sort key of [min_dim]: [int(d.get("score", 0))]. *)
Definition score_key (d : pyval) : result Z :=
  dd <- as_dict d ;; to_int (get_or dd (u "score") (PInt 0)).

(** [min(dims, key=...)] on a non-empty list: the first element whose key
    is least. *)
Fixpoint min_go (best : pyval) (best_key : Z) (rest : list pyval)
  : result pyval :=
  match rest with
  | [] => Ok best
  | d :: r =>
    k <- score_key d ;;
    if k <? best_key then min_go d k r else min_go best best_key r
  end.

Definition min_dim (dims : list pyval) : result (pyval * Z * pystr) :=
  match dims with
  | [] => Ok (PStr [], 25, L_NONE)
  | d :: r =>
    k <- score_key d ;;
    m <- min_go d k r ;;
    md <- as_dict m ;;
    s1 <- to_int (get_or md (u "score") (PInt 0)) ;;
    s2 <- to_int (get_or md (u "score") (PInt 0)) ;;
    Ok (get_or md (u "name") (PStr []), s1, level_of s2)
  end.

Definition overall_from_text_image (text_dims image_dims : list pyval)
  : result verdict :=
  '(t_axis, t_score, _) <- min_dim text_dims ;;
  '(i_axis, i_score, _) <- min_dim image_dims ;;
  let '(src, axis, score) :=
    if t_score <=? i_score then (SRC_TEXT, t_axis, t_score)
    else (SRC_IMAGE, i_axis, i_score) in
  let lvl := level_of score in
  let head := to_str axis ++ u " 측면에서 (" ++ src ++ u " 내) " in
  let '(colour, emo, summ) :=
    if str_eqb lvl L_VERY_RISKY then
      (palette_get PALETTE L_VERY_RISKY [], u "🛑",
       head ++ u "매우 큰 리스크가 있습니다.")
    else if str_eqb lvl L_RISK then
      (palette_get PALETTE L_RISK [], u "⚠️",
       head ++ u "유의미한 리스크가 있습니다.")
    else if str_eqb lvl L_CAUTION then
      (palette_get PALETTE L_CAUTION [], u "⚠️",
       head ++ u "주의 신호가 있습니다.")
    else if str_eqb lvl L_SAFE then
      (palette_get PALETTE L_SAFE [], u "✅",
       u "전반적으로 안전 수준입니다. 최소 안전 점수 16점 이상.")
    else
      (palette_get PALETTE L_VERY_SAFE [], u "✅",
       u "전반적으로 매우 안전합니다. 모든 축이 21점 이상.") in
  Ok {| level := lvl; worst_axis := axis; worst_src := src;
        worst_score := score; bg := colour; emoji := emo;
        summary := summ |}.
End Aggregator.

(** ** Sorting

    [sorted(xs, key=k, reverse=True)] is a stable sort into descending key
    order, and [xs.sort()] one into ascending order.  [lt a b] says that the
    key of [a] is below that of [b].  Where the keys are totally ordered
    (lengths, pairs of indices, floats none of which is a NaN) every stable
    sort returns the list computed here. *)

Section Sorting.
Variable A : Type.
Variable lt : A -> A -> bool.

Fixpoint insert_desc (x : A) (l : list A) : list A :=
  match l with
  | [] => [x]
  | y :: r => if lt x y then y :: insert_desc x r else x :: l
  end.

Fixpoint sorted_desc (l : list A) : list A :=
  match l with
  | [] => []
  | x :: r => insert_desc x (sorted_desc r)
  end.

Fixpoint insert_asc (x : A) (l : list A) : list A :=
  match l with
  | [] => [x]
  | y :: r => if lt y x then y :: insert_asc x r else x :: l
  end.

Fixpoint sorted_asc (l : list A) : list A :=
  match l with
  | [] => []
  | x :: r => insert_asc x (sorted_asc r)
  end.
End Sorting.

Arguments insert_desc {A} lt x l.
Arguments sorted_desc {A} lt l.
Arguments insert_asc {A} lt x l.
Arguments sorted_asc {A} lt l.

(** Where the keys are not totally ordered the language does not say which
    order a sort leaves: the list comes back as some permutation of itself,
    which depends on the keys alone.  [reorder picks l] is [l] in the order
    the picks give: each pick takes the element at that index out of what
    is left of [l]; a pick out of range is passed over, and what no pick
    has taken follows in its own order. *)
Fixpoint take_nth {A} (n : nat) (l : list A) {struct l}
  : option (A * list A) :=
  match l with
  | [] => None
  | x :: r =>
    match n with
    | O => Some (x, r)
    | S n' =>
      match take_nth n' r with
      | Some (y, r') => Some (y, x :: r')
      | None => None
      end
    end
  end.

Fixpoint reorder {A} (picks : list nat) (l : list A) : list A :=
  match picks with
  | [] => l
  | p :: ps =>
    match take_nth p l with
    | Some (x, rest) => x :: reorder ps rest
    | None => reorder ps l
    end
  end.

(** ** Hotspot helpers *)

(** A bounding box [(x1, y1, x2, y2)]. *)
Definition bbox : Type := (float * float * float * float)%type.

Definition _area (b : bbox) : float :=
  let '(x1, y1, x2, y2) := b in
  (fmax 0 (x2 - x1) * fmax 0 (y2 - y1))%float.

Definition _iou (b1 b2 : bbox) : float :=
  let '(a1, a2, a3, a4) := b1 in
  let '(c1, c2, c3, c4) := b2 in
  let ix1 := fmax a1 c1 in
  let iy1 := fmax a2 c2 in
  let ix2 := fmin a3 c3 in
  let iy2 := fmin a4 c4 in
  let iw := fmax 0 (ix2 - ix1)%float in
  let ih := fmax 0 (iy2 - iy1)%float in
  let inter := (iw * ih)%float in
  let union := (_area b1 + _area b2 - inter)%float in
  if PrimFloat.ltb 0 union then (inter / union)%float else 0%float.

Definition GEOMETRY_KEYS : list pystr :=
  Eval vm_compute in map u ["x"; "y"; "w"; "h"; "cx"; "cy"; "r"]%string.

(** Values a set can hold. *)
Definition hashable (v : pyval) : bool :=
  match v with
  | PList _ | PDict _ => false
  | _ => true
  end.

Section Hotspots.
Context {R : PyRuntime}.

Definition _bbox (h : dict) : result bbox :=
  shape <- as_str (py_or (get_or h (u "shape") PNone) (PStr (u "circle"))) ;;
  if str_eqb (lower shape) (u "rect") then
    x <- to_float (get_or h (u "x") (PInt 0)) ;;
    y <- to_float (get_or h (u "y") (PInt 0)) ;;
    w <- to_float (get_or h (u "w") (PInt 0)) ;;
    hgt <- to_float (get_or h (u "h") (PInt 0)) ;;
    Ok (x, y, (x + w)%float, (y + hgt)%float)
  else
    cx <- to_float (get_or h (u "cx") (PFloat 0.5)) ;;
    cy <- to_float (get_or h (u "cy") (PFloat 0.5)) ;;
    r <- to_float (get_or h (u "r") (PFloat 0.1)) ;;
    Ok ((cx - r)%float, (cy - r)%float, (cx + r)%float, (cy + r)%float).

Definition _centerdist (b1 b2 : bbox) : float :=
  let '(a1, a2, a3, a4) := b1 in
  let '(c1, c2, c3, c4) := b2 in
  hypot ((a1 + a3) / 2 - (c1 + c3) / 2)%float
        ((a2 + a4) / 2 - (c2 + c4) / 2)%float.

(** [{*items}]: the set of the items, as a list in its iteration order. *)
Definition py_set (items : list pyval) : result (list pyval) :=
  if forallb hashable items then Ok (set_list items) else Raise TypeError.

Definition _merge (a b : dict) : result dict :=
  let out := a in
  ra <- py_iter (py_or (get_or out (u "risks") PNone) (PList [])) ;;
  rb <- py_iter (py_or (get_or b (u "risks") PNone) (PList [])) ;;
  risks <- py_set (ra ++ rb) ;;
  let out := dict_set out (u "risks") (PList risks) in
  ea <- py_iter (py_or (get_or out (u "suggested_edits") PNone) (PList [])) ;;
  edits <- py_set ea ;;
  eb <- py_iter (py_or (get_or b (u "suggested_edits") PNone) (PList [])) ;;
  let out := dict_set out (u "suggested_edits") (PList (edits ++ eb)) in
  let out :=
    if negb (truthy (get_or out (u "label") PNone))
       && truthy (get_or b (u "label") PNone)
    then dict_set out (u "label") (get_or b (u "label") PNone)
    else out in
  let out :=
    if negb (truthy (get_or out (u "severity") PNone))
       && truthy (get_or b (u "severity") PNone)
    then dict_set out (u "severity") (get_or b (u "severity") PNone)
    else out in
  Ok out.

(** The test of the inner loop of [dedupe_hotspots]. *)
Definition hotspots_match (b bk : bbox) : bool :=
  PrimFloat.ltb 0.55 (_iou b bk) || PrimFloat.ltb (_centerdist b bk) 0.12.

(** The inner loop: [h] is merged into the first kept entry it matches.
    [None] when the loop ends without a merge. *)
Fixpoint absorb (b : bbox) (h : dict) (kept : list dict)
  : result (option (list dict)) :=
  match kept with
  | [] => Ok None
  | k :: r =>
    bk <- _bbox k ;;
    if hotspots_match b bk then
      m <- _merge k h ;; Ok (Some (m :: r))
    else
      r' <- absorb b h r ;;
      Ok (match r' with Some r'' => Some (k :: r'') | None => None end)
  end.

(** One key of the clamping loop: a value [float] rejects is left alone. *)
Definition clamp_field (hh : dict) (key : pystr) : dict :=
  match dict_get hh key with
  | None => hh
  | Some v =>
    match to_float v with
    | Ok f => dict_set hh key (PFloat (fmax 0 (fmin 1 f)))
    | Raise _ => hh
    end
  end.

Definition clamp_geometry (h : dict) : dict :=
  fold_left clamp_field GEOMETRY_KEYS h.

Fixpoint dedupe_loop (kept : list dict) (hs_sorted : list dict)
  : result (list dict) :=
  match hs_sorted with
  | [] => Ok kept
  | h :: r =>
    b <- _bbox h ;;
    a <- absorb b h kept ;;
    match a with
    | Some kept' => dedupe_loop kept' r
    | None => dedupe_loop (kept ++ [clamp_geometry h]) r
    end
  end.

(** [[h for h in hotspots if isinstance(h, dict)]] *)
Definition dicts_of (hotspots : list pyval) : list dict :=
  flat_map (fun v => match v with PDict d => [d] | _ => [] end) hotspots.

(** The sort key of a hotspot, paired with it. *)
Definition keyed (h : dict) : result (float * dict) :=
  b <- _bbox h ;; Ok (_area b, h).

Definition key_lt (p q : float * dict) : bool :=
  PrimFloat.ltb (fst p) (fst q).

(** The key is a NaN: it is not equal to itself. *)
Definition nan_key (p : float * dict) : bool :=
  negb (PrimFloat.eqb (fst p) (fst p)).

(** [sorted(hs, key=..., reverse=True)] on the hotspots paired with their
    keys: the stable descending order where no key is a NaN, and the order
    the interpreter leaves where one is. *)
Definition sorted_by_key (ks : list (float * dict)) : list (float * dict) :=
  if existsb nan_key ks then reorder (nan_order (map fst ks)) ks
  else sorted_desc key_lt ks.

Definition dedupe_hotspots (hotspots : list pyval) : result (list dict) :=
  let hs := dicts_of hotspots in
  ks <- mapM keyed hs ;;
  let hs_sorted := map snd (sorted_by_key ks) in
  kept <- dedupe_loop [] hs_sorted ;;
  Ok (firstn 12 kept).
End Hotspots.

(** ** Caption span matcher *)

(** The character class of the pattern in [_extract_spans_from_flags]: the
    curly double quotes U+201C and U+201D, the straight double quote U+0022
    and the apostrophe U+0027. *)
Definition is_quote (c : codepoint) : bool :=
  ((c =? 8220) || (c =? 8221) || (c =? 34) || (c =? 39))%N.

Arguments is_quote : simpl never.

(** [re.findall] with that pattern (a quote, a group of one or more
    characters that are not quotes, a quote), read left to right.
    [Outside]: no match is open.  [Opened]: the last character was a quote
    that may open a match.  [Inside acc]: a match is open and [acc] holds
    its group so far, last character first.  A quote met [Inside] closes
    the match and is consumed by it. *)
Inductive quote_scan : Type :=
| Outside
| Opened
| Inside (acc : pystr).

Fixpoint findall_go (st : quote_scan) (iss : pystr) : list pystr :=
  match iss with
  | [] => []
  | c :: r =>
    if is_quote c then
      match st with
      | Outside | Opened => findall_go Opened r
      | Inside acc => rev acc :: findall_go Outside r
      end
    else
      match st with
      | Outside => findall_go Outside r
      | Opened => findall_go (Inside [c]) r
      | Inside acc => findall_go (Inside (c :: acc)) r
      end
  end.

Definition findall_quoted (iss : pystr) : list pystr :=
  findall_go Outside iss.

Definition non_empty (l : list pystr) : list pystr :=
  filter (fun t => match t with [] => false | _ => true end) l.

Definition strs_of (l : list pyval) : list pystr :=
  flat_map (fun v => match v with PStr s => [s] | _ => [] end) l.

(** [html.escape(s)]: five [str.replace] calls, [&] first. *)
Definition replace_char (c : codepoint) (by_ : pystr) (s : pystr) : pystr :=
  flat_map (fun x => if (x =? c)%N then by_ else [x]) s.

Definition AMP : codepoint := 38%N.
Definition LT : codepoint := 60%N.
Definition GT : codepoint := 62%N.
Definition DQUOTE : codepoint := 34%N.
Definition SQUOTE : codepoint := 39%N.

Definition E_AMP : pystr := Eval vm_compute in u "&amp;".
Definition E_LT : pystr := Eval vm_compute in u "&lt;".
Definition E_GT : pystr := Eval vm_compute in u "&gt;".
Definition E_DQUOTE : pystr := Eval vm_compute in u "&quot;".
Definition E_SQUOTE : pystr := Eval vm_compute in u "&#x27;".

Definition html_escape (s : pystr) : pystr :=
  replace_char SQUOTE E_SQUOTE
    (replace_char DQUOTE E_DQUOTE
       (replace_char GT E_GT
          (replace_char LT E_LT
             (replace_char AMP E_AMP s)))).

(** [s[a:b]] for indices that are not negative. *)
Definition slice (s : pystr) (a b : nat) : pystr :=
  firstn (b - a) (skipn a s).

Definition range_lt (p q : nat * nat) : bool :=
  (fst p <? fst q)%nat || ((fst p =? fst q)%nat && (snd p <? snd q)%nat).

(** The loop of [_merge_ranges]; [cur] is [merged[-1]]. *)
Fixpoint merge_go (cur : nat * nat) (rest : list (nat * nat))
  : list (nat * nat) :=
  match rest with
  | [] => [cur]
  | (s, e) :: r =>
    let (ls, le) := cur in
    if (s <=? le)%nat then merge_go (ls, Nat.max le e) r
    else cur :: merge_go (s, e) r
  end.

Definition _merge_ranges (ranges : list (nat * nat)) : list (nat * nat) :=
  match sorted_asc range_lt ranges with
  | [] => []
  | first :: rest => merge_go first rest
  end.

Definition DIV_OPEN : pystr := Eval vm_compute in u "<div class='caption-strong'>".
Definition DIV_CLOSE : pystr := Eval vm_compute in u "</div>".
Definition SPAN_OPEN : pystr := Eval vm_compute in u "<span class='caption-flag'>".
Definition SPAN_CLOSE : pystr := Eval vm_compute in u "</span>".

(** The loop of [highlight_caption] over the merged ranges, with the part
    appended after it. *)
Fixpoint highlight_parts (original : pystr) (last : nat)
         (ranges : list (nat * nat)) : list pystr :=
  match ranges with
  | [] =>
    if (last <? length original)%nat
    then [html_escape (skipn last original)] else []
  | (s, e) :: r =>
    (if (last <? s)%nat then [html_escape (slice original last s)] else [])
    ++ (SPAN_OPEN ++ html_escape (slice original s e) ++ SPAN_CLOSE)
    :: highlight_parts original e r
  end.

Section Caption.
Context {R : PyRuntime}.

(** The spans one flag contributes, in the order they are appended. *)
Definition flag_spans (f : pyval) : result (list pystr) :=
  d <- as_dict f ;;
  sp <- as_str (py_or (get_or d (u "span") PNone) (PStr [])) ;;
  issues <- py_iter (py_or (get_or d (u "issues") PNone) (PList [])) ;;
  found <- mapM (fun iss =>
                   t <- as_re_subject iss ;;
                   Ok (non_empty (map strip (findall_quoted t))))
                issues ;;
  Ok (non_empty [strip sp] ++ concat found).

Definition _extract_spans_from_flags (flags : list pyval)
  : result (list pystr) :=
  per_flag <- mapM flag_spans flags ;;
  let spans := concat per_flag in
  let distinct := strs_of (set_list (map PStr spans)) in
  let spans := filter (fun s => (2 <=? length s)%nat) distinct in
  Ok (sorted_desc (fun a b => (length a <? length b)%nat) spans).

(** [needle] matches at the head of [text], case ignored. *)
Fixpoint ci_prefix (needle text : pystr) : bool :=
  match needle, text with
  | [], _ => true
  | n :: ns, c :: cs => ci_eq n c && ci_prefix ns cs
  | _ :: _, [] => false
  end.

(** [pattern.finditer(text)] for a literal pattern: matches do not overlap,
    the scan resumes where a match ended.  [pos] is the index of the head of
    [text], [skip] the number of characters still inside the last match. *)
Fixpoint finditer_go (needle : pystr) (pos skip : nat) (text : pystr)
  : list (nat * nat) :=
  match text with
  | [] => []
  | _ :: r =>
    match skip with
    | S k => finditer_go needle (S pos) k r
    | O =>
      if ci_prefix needle text
      then (pos, (pos + length needle)%nat)
           :: finditer_go needle (S pos) (length needle - 1) r
      else finditer_go needle (S pos) 0 r
    end
  end.

Definition _find_all_ranges (text needle : pystr) : list (nat * nat) :=
  match needle with
  | [] => []
  | _ :: _ => finditer_go needle 0 0 text
  end.

Definition highlight_caption (text : pystr) (flags : list pyval)
  : result pystr :=
  let original := text in
  spans <- _extract_spans_from_flags flags ;;
  let all_ranges := flat_map (_find_all_ranges original) spans in
  let all_ranges := _merge_ranges all_ranges in
  match all_ranges with
  | [] => Ok (DIV_OPEN ++ html_escape original ++ DIV_CLOSE)
  | _ :: _ =>
    Ok (DIV_OPEN ++ concat (highlight_parts original 0 all_ranges)
                 ++ DIV_CLOSE)
  end.
End Caption.

(** ** Further functions of [app.py] *)

(** [esc]: [str(s or "")] with [&], [<] and [>] replaced, in that order. *)
Definition esc_text (s : pystr) : pystr :=
  replace_char GT E_GT (replace_char LT E_LT (replace_char AMP E_AMP s)).

Definition E_APOS : pystr := Eval vm_compute in u "&#39;".

Section Escaping.
Context {R : PyRuntime}.

Definition esc (s : pyval) : pystr :=
  esc_text (to_str (py_or s (PStr []))).

Definition attr_esc (s : pyval) : pystr :=
  replace_char SQUOTE E_APOS (replace_char DQUOTE E_DQUOTE (esc s)).

(** [sanitize_lines(d.get(key) or [])]: the loop of [sanitize_lines] visits
    the items of the value, whatever it is. *)
Definition sanitize_field (d : dict) (key : pystr) : result pyval :=
  lines <- py_iter (py_or (get_or d key PNone) (PList [])) ;;
  Ok (PList (map PStr (sanitize_lines lines))).

(** One turn of the loop of [_sanitize_dim_items], on a dict as its
    signature has it. *)
Definition sanitize_dim (d : dict) : result dict :=
  let dd := d in
  why <- sanitize_field d (u "why") ;;
  let dd := dict_set dd (u "why") why in
  edits <- sanitize_field d (u "edits") ;;
  let dd := dict_set dd (u "edits") edits in
  checks <- sanitize_field d (u "checks") ;;
  let dd := dict_set dd (u "checks") checks in
  Ok dd.

Definition _sanitize_dim_items (dims : list dict) : result (list dict) :=
  mapM sanitize_dim dims.
End Escaping.


(** [_color_class_from_severity]: the class of the overlay shape. *)
Definition _color_class_from_severity (h : dict) : result pystr :=
  sev <- as_str (py_or (get_or h (u "severity") PNone) (PStr [])) ;;
  let sev := strip sev in
  if str_eqb sev (u "위험") || str_eqb sev (u "Risk") then Ok (u "warn")
  else if str_eqb sev (u "주의") || str_eqb sev (u "Caution")
       then Ok (u "caution")
  else Ok [].

(** [s.find(c)] and [s.rfind(c)] for a one-character [c]; [None] is the
    [-1] of Python. *)
Fixpoint find_from (c : codepoint) (i : nat) (s : pystr) : option nat :=
  match s with
  | [] => None
  | x :: r => if (x =? c)%N then Some i else find_from c (S i) r
  end.

Definition str_find (s : pystr) (c : codepoint) : option nat :=
  find_from c 0 s.

Fixpoint rfind_from (c : codepoint) (i : nat) (s : pystr) : option nat :=
  match s with
  | [] => None
  | x :: r =>
    match rfind_from c (S i) r with
    | Some j => Some j
    | None => if (x =? c)%N then Some i else None
    end
  end.

Definition str_rfind (s : pystr) (c : codepoint) : option nat :=
  rfind_from c 0 s.

Definition LBRACE : codepoint := 123%N.
Definition RBRACE : codepoint := 125%N.

Section Json.
(** [json.loads], which the code takes from the standard library. *)
Variable json_loads : pystr -> result pyval.

(** [parse_json_or_fail]: the parsed data, or [None] where the function
    reports the failure and stops the script.  [fail_title] goes into the
    message only. *)
Definition parse_json_or_fail (raw fail_title : pystr) : option pyval :=
  let data :=
    match str_find raw LBRACE, str_rfind raw RBRACE with
    | Some s, Some e =>
      if (s <? e)%nat then
        match json_loads (slice raw s (e + 1)) with
        | Ok d => d
        | Raise _ => PNone
        end
      else PNone
    | _, _ => PNone
    end in
  if truthy data then Some data else None.
End Json.

(** [s.lstrip(c)] and [s.strip(c)] for a one-character [c]. *)
Fixpoint lstrip_char (c : codepoint) (s : pystr) : pystr :=
  match s with
  | [] => []
  | x :: r => if (x =? c)%N then lstrip_char c r else s
  end.

Definition strip_char (c : codepoint) (s : pystr) : pystr :=
  rev (lstrip_char c (rev (lstrip_char c s))).

(** [s.split(c, 1)] where [c in s]; [None] where it is not. *)
Fixpoint split_first (c : codepoint) (s : pystr) : option (pystr * pystr) :=
  match s with
  | [] => None
  | x :: r =>
    if (x =? c)%N then Some ([], r)
    else match split_first c r with
         | Some (k, v) => Some (x :: k, v)
         | None => None
         end
  end.

Definition HASH : codepoint := 35%N.
Definition EQUALS : codepoint := 61%N.

(** The body of the loop of [_parse_env_file] for one line of the file. *)
Definition env_line (out : dict) (line : pystr) : dict :=
  let s := strip line in
  match s with
  | [] => out
  | c :: _ =>
    if (c =? HASH)%N then out
    else
      match split_first EQUALS s with
      | None => out
      | Some (k, v) =>
        dict_set out (strip k)
                 (PStr (strip_char SQUOTE (strip_char DQUOTE (strip v))))
      end
  end.

(** [_parse_env_file]: [file] holds the lines of the file at [path], line
    ends included, or [None] where there is no such file. *)
Definition _parse_env_file (file : option (list pystr)) : dict :=
  match file with
  | None => []
  | Some lines => fold_left env_line lines []
  end.

(* ================================================================== *)
(** * Part III. A runtime to evaluate with *)
(* ================================================================== *)

(** A [PyRuntime] for running the functions above on concrete inputs.  It
    agrees with CPython on the inputs the examples use: ASCII letters are
    the only cased characters, sets hold strings only and iterate in
    insertion order, no string is read as a numeral, and [str] is applied
    to [None], booleans and integers only. *)

Definition ascii_lower (c : codepoint) : codepoint :=
  if ((65 <=? c) && (c <=? 90))%N then (c + 32)%N else c.

Definition same_str (a b : pyval) : bool :=
  match a, b with
  | PStr s, PStr t => str_eqb s t
  | _, _ => false
  end.

Fixpoint first_occurrences (seen todo : list pyval) : list pyval :=
  match todo with
  | [] => []
  | x :: r =>
    if existsb (same_str x) seen then first_occurrences seen r
    else x :: first_occurrences (x :: seen) r
  end.

Fixpoint digits_go (fuel : nat) (n : N) (acc : pystr) : pystr :=
  match fuel with
  | O => acc
  | S fuel' =>
    let acc' := (48 + n mod 10)%N :: acc in
    if (n <? 10)%N then acc' else digits_go fuel' (n / 10)%N acc'
  end.

Definition decimal (z : Z) : pystr :=
  let n := Z.to_N (Z.abs z) in
  let ds := digits_go (S (N.to_nat (N.log2 n))) n [] in
  if z <? 0 then 45%N :: ds else ds.

#[export] Instance ascii_runtime : PyRuntime := {|
  float_of_str := fun _ => Raise ValueError;
  int_of_str := fun _ => Raise ValueError;
  repr := fun v =>
    match v with
    | PNone => u "None"
    | PBool true => u "True"
    | PBool false => u "False"
    | PInt z => decimal z
    | _ => u "<object>"
    end;
  lower := map ascii_lower;
  ci_eq := fun a b => (ascii_lower a =? ascii_lower b)%N;
  hypot := fun x y => PrimFloat.sqrt (x * x + y * y)%float;
  set_list := first_occurrences [];
  nan_order := fun _ => []
|}.

(* ================================================================== *)
(** * Part IV. Vocabulary of the statements *)
(* ================================================================== *)

(** ** Score classifier *)

Definition in_band (s : Z) (b : Z * Z * pystr) : Prop :=
  fst (fst b) <= s <= snd (fst b).

Definition FIVE_LEVELS : list pystr :=
  [L_VERY_SAFE; L_SAFE; L_CAUTION; L_RISK; L_VERY_RISKY].

(** ** Aggregator *)

Section AggregatorVocabulary.
Context {R : PyRuntime}.

(** An assessment the aggregator can read: a dict whose [score] is missing
    or is a value [int] accepts (an integer, a boolean, a finite float, a
    numeral).  Every other field may be missing. *)
Definition axis_ok (v : pyval) : bool := is_ok (score_key v).

(** An assessment of the data model with any of its fields missing: a dict
    whose [score] is absent, or is an integer, a boolean or a finite
    float. *)
Definition assessment (v : pyval) : bool :=
  match v with
  | PDict d =>
    match dict_get d (u "score") with
    | None | Some (PInt _) | Some (PBool _) => true
    | Some (PFloat f) =>
      match Prim2SF f with
      | S754_zero _ | S754_finite _ _ _ => true
      | S754_infinity _ | S754_nan => false
      end
    | Some _ => false
    end
  | _ => false
  end.

(** The score the aggregator reads from an assessment. *)
Definition score_of (v : pyval) : Z :=
  match score_key v with
  | Ok z => z
  | Raise _ => 0
  end.

(** The axis name it reads. *)
Definition name_of (v : pyval) : pyval :=
  match v with
  | PDict d => get_or d (u "name") (PStr [])
  | _ => PStr []
  end.

(** [m] is the least element of [l]. *)
Definition is_min (m : Z) (l : list Z) : Prop :=
  In m l /\ forall x, In x l -> m <= x.

(** The first assessment of [l] whose score is [m]. *)
Definition first_with_score (m : Z) (l : list pyval) : option pyval :=
  find (fun d => score_of d =? m) l.

End AggregatorVocabulary.

Definition sample_text_axes : list pyval :=
  [ PDict [(u "name", PStr (u "Political")); (u "score", PInt 12)];
    PDict [(u "name", PStr (u "Cultural")); (u "score", PInt 7)];
    PDict [(u "name", PStr (u "Social")); (u "score", PInt 7)] ].

Definition sample_image_axes : list pyval :=
  [ PDict [(u "name", PStr (u "Environmental")); (u "score", PInt 7)];
    PDict [(u "name", PStr (u "Political")); (u "score", PInt 20)] ].

(** ** Text normaliser *)

(** What [strip_circled] does to the text of a truthy value. *)
Definition normalize (t : pystr) : pystr :=
  strip (collapse_ws (remove_circled t)).

Definition no_circled (t : pystr) : bool :=
  forallb (fun c => negb (is_circled c)) t.

(** No two whitespace characters in a row. *)
Fixpoint no_ws_pair (t : pystr) : bool :=
  match t with
  | [] => true
  | c :: r =>
    match r with
    | [] => true
    | d :: _ => negb (is_space c && is_space d) && no_ws_pair r
    end
  end.

(** The text does not begin with whitespace. *)
Definition starts_ok (t : pystr) : bool :=
  match t with
  | [] => true
  | c :: _ => negb (is_space c)
  end.

Section TextVocabulary.
Context {R : PyRuntime}.

(** A line the filter has kept. *)
Definition kept_line (t : pystr) : Prop :=
  t <> [] /\ normalize t = t /\ _looks_performance t = false.

End TextVocabulary.

(** ** Caption span matcher *)

(** A stretch of the caption, as the markup presents it: as it is, or
    wrapped as a flagged span. *)
Inductive piece : Type :=
| Plain (raw : pystr)
| Flagged (raw : pystr).

Definition raw_of (p : piece) : pystr :=
  match p with
  | Plain raw | Flagged raw => raw
  end.

Definition render_piece (p : piece) : pystr :=
  match p with
  | Plain raw => html_escape raw
  | Flagged raw => SPAN_OPEN ++ html_escape raw ++ SPAN_CLOSE
  end.

Definition ENTITIES : list pystr := [E_AMP; E_LT; E_GT; E_DQUOTE; E_SQUOTE].

(** Escaped text: no [<], no [>], and [&] only as the head of one of the
    five character references. *)
Inductive escaped : pystr -> Prop :=
| escaped_nil : escaped []
| escaped_char (c : codepoint) (s : pystr) :
    c <> AMP -> c <> LT -> c <> GT -> escaped s -> escaped (c :: s)
| escaped_entity (e s : pystr) :
    In e ENTITIES -> escaped s -> escaped (e ++ s).

(** What [html.escape] writes for one character. *)
Definition esc_char (c : codepoint) : pystr :=
  if (c =? AMP)%N then E_AMP
  else if (c =? LT)%N then E_LT
  else if (c =? GT)%N then E_GT
  else if (c =? DQUOTE)%N then E_DQUOTE
  else if (c =? SQUOTE)%N then E_SQUOTE
  else [c].

(** Ranges that lie inside a text of [n] characters. *)
Definition range_ok (n : nat) (r : nat * nat) : Prop :=
  (fst r <= snd r <= n)%nat.

(** Ranges in increasing order, none starting before [last], apart from
    one another. *)
Fixpoint ranges_chain (n last : nat) (rs : list (nat * nat)) : Prop :=
  match rs with
  | [] => True
  | (s, e) :: r => (last <= s <= e)%nat /\ (e <= n)%nat /\ ranges_chain n e r
  end.

Definition sample_caption : pystr :=
  Eval vm_compute in u "Buy <b>Amazing</b> & amazing TV".

Definition sample_flags : list pyval :=
  [PDict [(u "span", PStr (u " amazing "))]].

Definition quote_free (m : pystr) : bool :=
  forallb (fun c => negb (is_quote c)) m.

(** A pair of quotes that match: two straight double quotes, two
    apostrophes, or a left and a right curly double quote. *)
Definition matching_pair (q1 q2 : codepoint) : bool :=
  ((q1 =? 34) && (q2 =? 34) || (q1 =? 39) && (q2 =? 39) ||
   (q1 =? 8220) && (q2 =? 8221))%N.

(** [m] stands in [text] between two quote characters. *)
Definition enclosed (m text : pystr) : Prop :=
  exists pre q1 q2 post,
    text = pre ++ q1 :: m ++ q2 :: post /\
    is_quote q1 = true /\ is_quote q2 = true /\
    m <> [] /\ quote_free m = true.

(** What the scan of [findall_go] has read when it is in a given state. *)
Definition scan_inv (st : quote_scan) (h : pystr) : Prop :=
  match st with
  | Outside => True
  | Opened => exists h' q, h = h' ++ [q] /\ is_quote q = true
  | Inside acc =>
    exists h' q, h = h' ++ q :: rev acc /\ is_quote q = true /\
                 acc <> [] /\ quote_free acc = true
  end.

(** A flag that has one issue and nothing else. *)
Definition issue_flag (iss : pystr) : pyval :=
  PDict [(u "issues", PList [PStr iss])].

Section CaptionVocabulary.
Context {R : PyRuntime}.

(** The strings the loop over [f.get("issues") or []] visits. *)
Definition issues_of (d : dict) (iss : pystr) : Prop :=
  exists items,
    py_iter (py_or (get_or d (u "issues") PNone) (PList [])) = Ok items /\
    In (PStr iss) items.

(** C9 as the specification words it: text between two quotes that do not
    match is never a candidate. *)
Definition mismatched_never_candidates : Prop :=
  forall (q1 q2 : codepoint) (m : pystr) (out : list pystr),
    is_quote q1 = true -> is_quote q2 = true ->
    matching_pair q1 q2 = false ->
    quote_free m = true ->
    _extract_spans_from_flags [issue_flag (q1 :: m ++ [q2])] = Ok out ->
    ~ In (strip m) out.

End CaptionVocabulary.

(** ** Floats *)

(** A position for each float that is not a NaN, ordered as the floats
    are: sign and class first, then exponent, then mantissa. *)
Definition sf_rank (f : spec_float) : option (Z * Z * Z) :=
  match f with
  | S754_nan => None
  | S754_zero _ => Some (0, 0, 0)
  | S754_infinity s => Some (if s then -2 else 2, 0, 0)
  | S754_finite s m e =>
    Some (if s then (-1, - e, Zneg m) else (1, e, Zpos m))
  end.

Definition rank_lt (a b : option (Z * Z * Z)) : Prop :=
  match a, b with
  | Some (a1, a2, a3), Some (b1, b2, b3) =>
    a1 < b1 \/ (a1 = b1 /\ (a2 < b2 \/ (a2 = b2 /\ a3 < b3)))
  | _, _ => False
  end.

(** [0 <= f <= 1] *)
Definition in_unit_interval (f : float) : Prop :=
  PrimFloat.leb 0 f = true /\ PrimFloat.leb f 1 = true.

(** ** Hotspots *)

(** A number: a float, a boolean or an integer. *)
Definition is_number (v : pyval) : bool :=
  match v with
  | PFloat _ | PInt _ | PBool _ => true
  | _ => false
  end.

(** Descending: every element is above all that follow it. *)
Definition descending {A} (lt : A -> A -> bool) : list A -> Prop :=
  StronglySorted (fun a b => lt b a = true).

(** A number of [0,1]. *)
Definition number_in_unit (v : pyval) : Prop :=
  match v with
  | PFloat f => in_unit_interval f
  | PInt z => 0 <= z <= 1
  | PBool _ => True
  | _ => False
  end.

Fixpoint pairwise {A} (p : A -> A -> bool) (l : list A) : bool :=
  match l with
  | [] => true
  | x :: r => forallb (p x) r && pairwise p r
  end.

(** A list of strings, or [None]. *)
Definition tags_ok (v : pyval) : bool :=
  match v with
  | PNone => true
  | PList l => forallb is_str l
  | _ => false
  end.

Section HotspotVocabulary.
Context {R : PyRuntime}.

(** The value of a geometry field after the clamping loop: a float of
    [0,1], or a value [float] rejects. *)
Definition field_ok (v : pyval) : Prop :=
  (exists f, v = PFloat f /\ in_unit_interval f) \/
  (exists e, to_float v = Raise e).

Definition key_ok (h : dict) (key : pystr) : Prop :=
  match dict_get h key with
  | None => True
  | Some v => field_ok v
  end.

Definition clamped (h : dict) : Prop :=
  forall key, In key GEOMETRY_KEYS -> key_ok h key.

(** A value [float] accepts. *)
Definition floatable (v : pyval) : bool := is_ok (to_float v).

(** What a hotspot of the data model may hold under a key: a string or
    [None] as its shape, a number [float] accepts (of any size or sign,
    infinite and NaN included) in a geometry field, a list of strings or
    [None] as [risks] and [suggested_edits], anything elsewhere. *)
Definition value_ok (key : pystr) (v : pyval) : bool :=
  if str_eqb key (u "shape") then
    match v with PNone | PStr _ => true | _ => false end
  else if existsb (str_eqb key) GEOMETRY_KEYS then
    is_number v && floatable v
  else if str_eqb key (u "risks") || str_eqb key (u "suggested_edits") then
    tags_ok v
  else true.

Definition hotspot_ok (h : dict) : bool :=
  forallb (fun kv => value_ok (fst kv) (snd kv)) h.

(** The box and the area of a hotspot whose box can be computed. *)
Definition bbox_of (h : dict) : bbox :=
  match _bbox h with
  | Ok b => b
  | Raise _ => (0, 0, 0, 0)%float
  end.

Definition area_of (h : dict) : float := _area (bbox_of h).

(** Neither hotspot would be merged into the other: the loop tests the
    box of the incoming hotspot against the box of the kept, clamped,
    copy of the other. *)
Definition apart (h k : dict) : bool :=
  negb (hotspots_match (bbox_of h) (bbox_of (clamp_geometry k))) &&
  negb (hotspots_match (bbox_of k) (bbox_of (clamp_geometry h))).

Definition areas_differ (h k : dict) : bool :=
  PrimFloat.ltb (area_of h) (area_of k) ||
  PrimFloat.ltb (area_of k) (area_of h).

(** [h] has the smaller area. *)
Definition smaller (h k : dict) : bool :=
  PrimFloat.ltb (area_of h) (area_of k).

(** A hotspot with its sort key. *)
Definition decorate (h : dict) : float * dict := (area_of h, h).

(** What the clamping loop makes of the value under a geometry key:
    nothing where there is none, the float of the value cut to [0,1] where
    [float] accepts it, the value as it came where [float] rejects it. *)
Definition clamp_value (v : option pyval) : option pyval :=
  match v with
  | None => None
  | Some x =>
    match to_float x with
    | Ok f => Some (PFloat (fmax 0 (fmin 1 f)))
    | Raise _ => Some x
    end
  end.

(** [o] has the geometry of [h] after the clamping loop. *)
Definition clamped_from (o h : dict) : Prop :=
  forall key, In key GEOMETRY_KEYS ->
              dict_get o key = clamp_value (dict_get h key).

(** C4 as the specification words it: every number in a geometry field of
    a returned hotspot lies in [0,1]. *)
Definition numbers_clamped : Prop :=
  forall (hotspots : list pyval) (out : list dict) (h : dict)
         (key : pystr) (v : pyval),
    dedupe_hotspots hotspots = Ok out ->
    In h out -> In key GEOMETRY_KEYS ->
    dict_get h key = Some v -> is_number v = true ->
    number_in_unit v.

End HotspotVocabulary.

Definition circle (cx cy r : float) (extra : dict) : dict :=
  [ (u "shape", PStr (u "circle"));
    (u "cx", PFloat cx); (u "cy", PFloat cy); (u "r", PFloat r) ] ++ extra.

Definition rect (x y w h : float) (extra : dict) : dict :=
  [ (u "shape", PStr (u "rect"));
    (u "x", PFloat x); (u "y", PFloat y);
    (u "w", PFloat w); (u "h", PFloat h) ] ++ extra.

(** Two hotspots on the same spot, both suggesting the same edit. *)
Definition twin_a : dict :=
  circle 0.5 0.5 0.125
    [ (u "risks", PList [PStr (u "flag")]);
      (u "suggested_edits", PList [PStr (u "blur")]) ].

Definition twin_b : dict :=
  circle 0.5 0.5 0.0625
    [ (u "risks", PList [PStr (u "flag")]);
      (u "suggested_edits", PList [PStr (u "blur")]) ].

(** A circle that carries a stray [x] too large for a float. *)
Definition huge_x : dict :=
  circle 0.5 0.5 0.125 [(u "x", PInt (10 ^ 400))].


(** Hotspots with a zero-area box, coordinates out of range, an infinite
    and a NaN coordinate, integer coordinates, and a box of infinite width
    and no height, whose area is a NaN; the last one is merged into the
    first. *)
Definition odd_hotspots : list pyval :=
  [ PDict (rect 0.25 0.25 0 0.5 []);
    PDict (rect (-3) 7 2.5 (-1) [(u "risks", PList [PStr (u "flag")])]);
    PStr (u "not a hotspot");
    PDict (circle infinity nan 1e300 []);
    PDict [(u "shape", PStr (u "rect")); (u "x", PInt 2); (u "w", PInt (-5))];
    PDict (circle 0.75 0.75 (-0.5) [(u "label", PNone)]);
    PDict (rect 0.5 0.5 infinity 0 []);
    PDict (rect 0.25 0.25 0 0.5 [(u "label", PStr (u "edge"))]) ].

(** Fourteen circles of radius 1/256 to 14/256 on a grid of the unit
    square: apart from one another, of fourteen different areas. *)
Definition grid_circle (col row : float) (n : float) : dict :=
  circle (0.125 + col * 0.25)%float (0.125 + row * 0.25)%float
         (n / 256)%float [].

Definition fourteen : list dict :=
  Eval vm_compute in
  [ grid_circle 0 0 5;  grid_circle 1 0 12; grid_circle 2 0 3;
    grid_circle 3 0 9;  grid_circle 0 1 14; grid_circle 1 1 1;
    grid_circle 2 1 7;  grid_circle 3 1 11; grid_circle 0 2 2;
    grid_circle 1 2 13; grid_circle 2 2 6;  grid_circle 3 2 10;
    grid_circle 0 3 4;  grid_circle 1 3 8 ].

(** ** Vocabulary of the further properties *)

Definition GRAY : pystr := Eval vm_compute in u "#6B7280".

(** A score brought into [0,25]. *)
Definition clamp_score (s : Z) : Z := Z.max 0 (Z.min 25 s).

(** Assessments without a score, with scores above 25, and an empty list. *)
Definition unscored_axes : list pyval :=
  [ PDict [(u "name", PStr (u "Political")); (u "score", PInt 22)];
    PDict [(u "name", PStr (u "Cultural"))] ].

Definition high_axes : list pyval :=
  [ PDict [(u "name", PStr (u "Social")); (u "score", PInt 30)] ].


(** What [esc] and [attr_esc] write for one character. *)
Definition esc_char3 (c : codepoint) : pystr :=
  if (c =? AMP)%N then E_AMP
  else if (c =? LT)%N then E_LT
  else if (c =? GT)%N then E_GT
  else [c].

Definition attr_char (c : codepoint) : pystr :=
  if (c =? AMP)%N then E_AMP
  else if (c =? LT)%N then E_LT
  else if (c =? GT)%N then E_GT
  else if (c =? DQUOTE)%N then E_DQUOTE
  else if (c =? SQUOTE)%N then E_APOS
  else [c].

(** The character references [attr_esc] writes. *)
Definition ATTR_ENTITIES : list pystr :=
  [E_AMP; E_LT; E_GT; E_DQUOTE; E_APOS].

Definition SEMICOLON : codepoint := 59%N.

(** A character reference: [&], a body with none of the characters
    [attr_esc] replaces and no [;], then [;]. *)
Definition char_ref (e : pystr) : bool :=
  match e with
  | [] => false
  | c :: r =>
    (c =? AMP)%N &&
    match rev r with
    | [] => false
    | z :: body =>
      (z =? SEMICOLON)%N &&
      negb (length body =? 0)%nat &&
      forallb (fun x => negb ((x =? AMP) || (x =? LT) || (x =? GT) ||
                              (x =? DQUOTE) || (x =? SQUOTE) ||
                              (x =? SEMICOLON))%N) body
    end
  end.

(** Text escaped for a quoted attribute: none of [<], [>], the double quote
    and the apostrophe, and [&] only as the head of one of the five
    character references. *)
Inductive attr_escaped : pystr -> Prop :=
| attr_escaped_nil : attr_escaped []
| attr_escaped_char (c : codepoint) (s : pystr) :
    c <> AMP -> c <> LT -> c <> GT -> c <> DQUOTE -> c <> SQUOTE ->
    attr_escaped s -> attr_escaped (c :: s)
| attr_escaped_entity (e s : pystr) :
    In e ATTR_ENTITIES -> attr_escaped s -> attr_escaped (e ++ s).

Section TextVocabularyMore.
Context {R : PyRuntime}.

(** The test a line passes to be kept by [sanitize_lines]. *)
Definition keeps (t : pystr) : bool :=
  match t with
  | [] => false
  | _ :: _ => negb (_looks_performance t)
  end.

End TextVocabularyMore.

(** An assessment whose rationale holds an enumeration glyph, a banned
    line and blanks. *)
Definition noisy_dim : dict :=
  [ (u "name", PStr (u "Cultural")); (u "score", PInt 9);
    (u "why", PList [PStr (u "  ① offends   a custom ");
                     PStr (u "hurts conversion"); PStr (u "   ")]);
    (u "edits", PList [PStr (u "CTR")]) ].

(** Two assessments the aggregator cannot tell apart: dicts with the same
    [score] and the same [name]. *)
Definition same_axis (x y : pyval) : Prop :=
  exists d dd,
    x = PDict d /\ y = PDict dd /\
    dict_get dd (u "score") = dict_get d (u "score") /\
    dict_get dd (u "name") = dict_get d (u "name").

Definition SANITIZED_KEYS : list pystr :=
  Eval vm_compute in map u ["why"; "edits"; "checks"]%string.

(** ** Ranges *)

(** Index [p] lies in one of the ranges. *)
Definition covered (p : nat) (rs : list (nat * nat)) : Prop :=
  exists r, In r rs /\ (fst r <= p < snd r)%nat.

(** Each range ends before the next begins, with a gap between them. *)
Fixpoint gapped (rs : list (nat * nat)) : Prop :=
  match rs with
  | [] => True
  | r1 :: rest =>
    match rest with
    | [] => True
    | r2 :: _ => (snd r1 < fst r2)%nat /\ gapped rest
    end
  end.

Definition sample_ranges : list (nat * nat) :=
  [(8, 15); (2, 4); (12, 20); (4, 6); (30, 31)]%nat.


(** The raw texts of the flagged pieces, in order. *)
Definition flagged_of (ps : list piece) : list pystr :=
  flat_map (fun p => match p with Flagged raw => [raw] | Plain _ => [] end) ps.

(** No whitespace at either end. *)
Definition trimmed (s : pystr) : Prop :=
  starts_ok s = true /\ starts_ok (rev s) = true.

Definition sample_span_flags : list pyval :=
  [ PDict [(u "span", PStr (u "  free gift "));
           (u "issues", PList [PStr (u "avoid 'best ever' and 'free gift'")])];
    PDict [(u "span", PStr (u "x"))] ].


(** ** Merged hotspots *)

(** The items of a tag list of a hotspot: what [*(h.get(key) or [])]
    unpacks. *)
Definition tags_of (h : dict) (key : pystr) : list pyval :=
  match py_iter (py_or (get_or h key PNone) (PList [])) with
  | Ok l => l
  | Raise _ => []
  end.

(** [a.get(key)] where it is true, else [b.get(key)] where that is true,
    else [a.get(key)]. *)
Definition first_true (a b : dict) (key : pystr) : pyval :=
  if truthy (get_or a key PNone) then get_or a key PNone
  else if truthy (get_or b key PNone) then get_or b key PNone
  else get_or a key PNone.

Definition MERGED_KEYS : list pystr :=
  Eval vm_compute in
    map u ["risks"; "suggested_edits"; "label"; "severity"]%string.

Definition kept_spot : dict :=
  circle 0.5 0.5 0.125
    [ (u "risks", PList [PStr (u "logo")]);
      (u "label", PStr []) ].

Definition incoming_spot : dict :=
  circle 0.5 0.5 0.0625
    [ (u "risks", PList [PStr (u "logo"); PStr (u "flag")]);
      (u "suggested_edits", PList [PStr (u "blur")]);
      (u "label", PStr (u "brand mark")) ].



Definition stray_spot : dict :=
  rect (-0.25) 0.5 2 0.25 [(u "label", PStr (u "logo")); (u "r", PStr (u "n/a"))].


(** ** Boxes *)

(** Width and height of the intersection as [_iou] computes them, before
    they are cut at zero. *)
Definition overlap_width (b1 b2 : bbox) : float :=
  let '(a1, _, a3, _) := b1 in
  let '(c1, _, c3, _) := b2 in
  (fmin a3 c3 - fmax a1 c1)%float.

Definition overlap_height (b1 b2 : bbox) : float :=
  let '(_, a2, _, a4) := b1 in
  let '(_, c2, _, c4) := b2 in
  (fmin a4 c4 - fmax a2 c2)%float.

(** The sign of a float, read off its specification: not negative (and
    not the negative zero); the same or NaN; the positive zero or NaN. *)
Definition sf_pos (s : spec_float) : bool :=
  match s with
  | S754_zero b | S754_infinity b | S754_finite b _ _ => negb b
  | S754_nan => false
  end.

Definition sf_pos_nan (s : spec_float) : bool :=
  match s with
  | S754_nan => true
  | _ => sf_pos s
  end.

Definition sf_zero_nan (s : spec_float) : bool :=
  match s with
  | S754_nan => true
  | S754_zero b => negb b
  | _ => false
  end.

Definition box_left : bbox := (0, 0, 0.25, 0.25)%float.
Definition box_right : bbox := (0.5, 0, 0.75, 0.25)%float.


(** ** Overlay class, model reply and env file *)

Definition SEVERITY : pystr := Eval vm_compute in u "severity".
Definition C_WARN : pystr := Eval vm_compute in u "warn".
Definition C_CAUTION : pystr := Eval vm_compute in u "caution".

(** A text from an opening brace to a closing brace. *)
Definition braced (mid : pystr) : pystr := [LBRACE] ++ mid ++ [RBRACE].

(** A loader for the examples: it accepts every text and returns it. *)
Definition sample_loads (s : pystr) : result pyval := Ok (PStr s).

Definition sample_reply : pystr :=
  Eval vm_compute in u "Here you go: {1: {2}} and } more".

(** [s] neither begins nor ends with [c]. *)
Definition ends_free (c : codepoint) (s : pystr) : Prop :=
  hd_error s <> Some c /\ hd_error (rev s) <> Some c.

(** A line [KEY = VALUE] of an env file, with whitespace around its parts,
    the value between the quotes [q]. *)
Definition env_text (w1 k w2 w3 q v w4 : pystr) : pystr :=
  w1 ++ k ++ w2 ++ [EQUALS] ++ w3 ++ (q ++ v ++ q) ++ w4.

(** The key a line of the file defines, where it defines one: the line
    is not blank, is not a comment and holds a [=]. *)
Definition line_key (line : pystr) : option pystr :=
  match strip line with
  | [] => None
  | c :: s =>
    if (c =? HASH)%N then None
    else match split_first EQUALS (c :: s) with
         | Some (k, _) => Some (strip k)
         | None => None
         end
  end.

(** What [_parse_env_file] may hold: a trimmed key with no [=] that does
    not begin with [#], and a string that neither begins nor ends with an
    apostrophe. *)
Definition env_entry_ok (kv : pystr * pyval) : Prop :=
  trimmed (fst kv) /\ ~ In EQUALS (fst kv) /\
  hd_error (fst kv) <> Some HASH /\
  exists s, snd kv = PStr s /\ ends_free SQUOTE s.

(* ================================================================== *)
(** * Part V. Theorems *)
(* ================================================================== *)

(** ** Strings and dicts *)

Lemma str_eqb_eq (a b : pystr) : str_eqb a b = true <-> a = b.
Proof.
  revert b; induction a as [|x a IH]; intros [|y b]; simpl;
    try (split; [discriminate | congruence]); try tauto.
  rewrite andb_true_iff, N.eqb_eq, IH. split.
  - intros [-> ->]; reflexivity.
  - intros E; inversion E; auto.
Qed.

Lemma str_eqb_refl (a : pystr) : str_eqb a a = true.
Proof. apply str_eqb_eq; reflexivity. Qed.

(** ** Score classifier *)


Lemma score_cases (s : Z) :
  0 <= s <= 25 ->
  0 <= s <= 5 \/ 6 <= s <= 10 \/ 11 <= s <= 15 \/ 16 <= s <= 20 \/ 21 <= s <= 25.
Proof. lia. Qed.

Ltac band_tests :=
  repeat match goal with
  | |- context [?a <=? ?b] =>
    destruct (Z.leb_spec a b); try lia; simpl
  end.

Lemma level_of_band (s : Z) :
  0 <= s <= 25 ->
  exists b, In b LEVELS /\ in_band s b /\ level_of s = snd b.
Proof.
  intros H. unfold level_of.
  rewrite Z.min_r, Z.max_r by lia.
  unfold in_band.
  destruct (score_cases s H) as [C|[C|[C|[C|C]]]].
  - exists (0, 5, L_VERY_RISKY). simpl. band_tests. intuition.
  - exists (6, 10, L_RISK). simpl. band_tests. intuition.
  - exists (11, 15, L_CAUTION). simpl. band_tests. intuition.
  - exists (16, 20, L_SAFE). simpl. band_tests. intuition.
  - exists (21, 25, L_VERY_SAFE). simpl. band_tests. intuition.
Qed.

Lemma bands_disjoint (s : Z) (b b' : Z * Z * pystr) :
  In b LEVELS -> In b' LEVELS -> in_band s b -> in_band s b' -> b' = b.
Proof.
  unfold in_band. simpl.
  intros Hb Hb'.
  repeat (destruct Hb as [<-|Hb]; [|]); try contradiction;
    repeat (destruct Hb' as [<-|Hb']; [|]); try contradiction;
    simpl; intros; try reflexivity; lia.
Qed.

(** C1.  For every integer score [s] in [0,25], [level_of s] is the name of
    exactly one band of [LEVELS]: some band contains [s] and names the
    result, no other band contains [s] (the bands are mutually exclusive and
    jointly exhaustive over [0,25]), the result is one of the five level
    names and never the sentinel; the bands are 21-25, 16-20, 11-15, 6-10
    and 0-5, with five distinct names. *)
Theorem level_of_partition (s : Z) (Hs : 0 <= s <= 25) :
  (exists b, In b LEVELS /\ in_band s b /\ level_of s = snd b /\
             forall b', In b' LEVELS -> in_band s b' -> b' = b) /\
  In (level_of s) FIVE_LEVELS /\
  level_of s <> L_NONE /\
  map fst LEVELS = [(21, 25); (16, 20); (11, 15); (6, 10); (0, 5)] /\
  map snd LEVELS = FIVE_LEVELS /\
  NoDup FIVE_LEVELS.
Proof.
  destruct (level_of_band s Hs) as (b & Hin & Hband & Hlvl).
  assert (Hfive : In (level_of s) FIVE_LEVELS).
  { rewrite Hlvl. change FIVE_LEVELS with (map snd LEVELS).
    apply in_map, Hin. }
  split; [|split; [|split; [|split; [|split]]]].
  - exists b. repeat split; try assumption; try apply Hband.
    intros b' Hin' Hband'. eapply bands_disjoint; eauto.
  - exact Hfive.
  - intros E. rewrite E in Hfive. simpl in Hfive.
    repeat (destruct Hfive as [D|Hfive]; [discriminate D|]). exact Hfive.
  - reflexivity.
  - reflexivity.
  - unfold FIVE_LEVELS.
    repeat (constructor; [simpl; intros D;
      repeat (destruct D as [D|D]; [discriminate D|]); exact D|]).
    constructor.
Qed.

Lemma level_of_partition_witness :
  0 <= 13 <= 25 /\ level_of 13 = L_CAUTION /\ level_of 13 <> L_NONE.
Proof.
  assert (H : 0 <= 13 <= 25) by lia.
  split; [exact H|].
  split; [reflexivity|].
  exact (proj1 (proj2 (proj2 (level_of_partition 13 H)))).
Defined.

(** ** Aggregator *)

Section AggregatorFacts.
Context {R : PyRuntime}.


Lemma score_key_ok (d : pyval) :
  axis_ok d = true -> score_key d = Ok (score_of d).
Proof.
  unfold axis_ok, score_of. destruct (score_key d); [reflexivity|discriminate].
Qed.

Lemma find_app_l {A} (f : A -> bool) (l l' : list A) (x : A) :
  find f l = Some x -> find f (l ++ l') = Some x.
Proof.
  induction l as [|a l IH]; simpl; [discriminate|].
  destruct (f a); auto.
Qed.

Lemma find_app_r {A} (f : A -> bool) (l l' : list A) :
  (forall x, In x l -> f x = false) -> find f (l ++ l') = find f l'.
Proof.
  induction l as [|a l IH]; simpl; intros H; [reflexivity|].
  rewrite (H a) by auto. apply IH. intros x Hx. apply H; auto.
Qed.

(** [min_go] keeps the first assessment of least score among those seen. *)
Lemma min_go_first (rest pre : list pyval) (best : pyval) :
  forallb axis_ok rest = true ->
  first_with_score (score_of best) pre = Some best ->
  (forall x, In x pre -> score_of best <= score_of x) ->
  exists m,
    min_go best (score_of best) rest = Ok m /\
    first_with_score (score_of m) (pre ++ rest) = Some m /\
    forall x, In x (pre ++ rest) -> score_of m <= score_of x.
Proof.
  revert pre best.
  induction rest as [|d r IH]; intros pre best Hwf Hfirst Hle.
  - exists best. rewrite app_nil_r. auto.
  - simpl in Hwf. apply andb_true_iff in Hwf as [Hd Hr].
    simpl. rewrite (score_key_ok _ Hd). simpl.
    replace (pre ++ d :: r) with ((pre ++ [d]) ++ r)
      by (rewrite <- app_assoc; reflexivity).
    destruct (Z.ltb_spec (score_of d) (score_of best)) as [Hlt|Hge].
    + apply IH; [assumption| |].
      * unfold first_with_score. rewrite find_app_r.
        -- simpl. rewrite Z.eqb_refl. reflexivity.
        -- intros x Hx. apply Z.eqb_neq. specialize (Hle x Hx). lia.
      * intros x Hx. apply in_app_or in Hx as [Hx|[<-|[]]]; [|lia].
        specialize (Hle x Hx). lia.
    + apply IH; [assumption| |].
      * apply find_app_l. exact Hfirst.
      * intros x Hx. apply in_app_or in Hx as [Hx|[<-|[]]]; auto.
Qed.

(** On assessments of the data model, [min_dim] returns the name and the
    score of the first assessment of least score. *)
Lemma min_dim_first (dims : list pyval) (m : Z) :
  forallb axis_ok dims = true ->
  is_min m (map score_of dims) ->
  exists d,
    first_with_score m dims = Some d /\
    min_dim dims = Ok (name_of d, m, level_of m).
Proof.
  intros Hwf [Hin Hle].
  destruct dims as [|d r]; [destruct Hin|].
  simpl in Hwf. apply andb_true_iff in Hwf as [Hd Hr].
  destruct (min_go_first r [d] d Hr) as (w & Hgo & Hfirst & Hmin).
  { unfold first_with_score. simpl. rewrite Z.eqb_refl. reflexivity. }
  { intros x [<-|[]]. lia. }
  simpl app in *.
  assert (Hw : In w (d :: r)).
  { apply find_some in Hfirst. apply Hfirst. }
  assert (Hm : score_of w = m).
  { apply Z.le_antisymm.
    - apply in_map_iff in Hin as (x & <- & Hx). apply Hmin, Hx.
    - apply Hle. apply in_map. exact Hw. }
  assert (Hwok : axis_ok w = true).
  { destruct Hw as [<-|Hw]; [assumption|].
    rewrite forallb_forall in Hr. apply Hr, Hw. }
  exists w. rewrite <- Hm. split; [exact Hfirst|].
  unfold min_dim. rewrite (score_key_ok _ Hd). simpl. rewrite Hgo. simpl.
  pose proof (score_key_ok _ Hwok) as Hk.
  destruct w as [| | | | | |wd]; try discriminate Hwok.
  unfold score_key in Hk. cbn [as_dict bind] in Hk.
  cbn [as_dict bind name_of]. rewrite Hk. reflexivity.
Qed.

(** An empty list has no least score; [min_dim] answers the sentinel. *)
Lemma min_dim_empty : min_dim [] = Ok (PStr [], 25, L_NONE).
Proof. reflexivity. Qed.

Lemma list_has_min (l : list Z) : l <> [] -> exists m, is_min m l.
Proof.
  induction l as [|a l IH]; [congruence|]. intros _.
  destruct l as [|b l].
  - exists a. split; [left; reflexivity|]. intros x [<-|[]]. lia.
  - destruct IH as (m & Hin & Hle); [discriminate|].
    destruct (Z.le_gt_cases a m).
    + exists a. split; [left; reflexivity|].
      intros x [<-|Hx]; [lia|]. specialize (Hle x Hx). lia.
    + exists m. split; [right; exact Hin|].
      intros x [<-|Hx]; [lia|]. apply Hle, Hx.
Qed.

(** On assessments of the data model [min_dim] always answers. *)
Lemma min_dim_total (dims : list pyval) :
  forallb axis_ok dims = true ->
  exists a s l, min_dim dims = Ok (a, s, l).
Proof.
  intros Hwf. destruct dims as [|d r].
  - do 3 eexists. reflexivity.
  - destruct (list_has_min (map score_of (d :: r))) as (m & Hm);
      [discriminate|].
    destruct (min_dim_first _ _ Hwf Hm) as (w & _ & E).
    do 3 eexists. exact E.
Qed.

Lemma overall_shape (t i : list pyval) (ta ia : pyval) (ts is_ : Z)
      (tl il : pystr) :
  min_dim t = Ok (ta, ts, tl) ->
  min_dim i = Ok (ia, is_, il) ->
  exists v,
    overall_from_text_image t i = Ok v /\
    worst_src v = (if ts <=? is_ then SRC_TEXT else SRC_IMAGE) /\
    worst_axis v = (if ts <=? is_ then ta else ia) /\
    worst_score v = (if ts <=? is_ then ts else is_) /\
    level v = level_of (worst_score v).
Proof.
  intros Et Ei. unfold overall_from_text_image. rewrite Et, Ei. simpl.
  destruct (ts <=? is_);
    repeat match goal with
    | |- context [if str_eqb ?a ?b then _ else _] => destruct (str_eqb a b)
    end;
    eexists; (split; [reflexivity|]); simpl; auto.
Qed.

(** C6.  For two non-empty lists of assessments with least scores [mt]
    (text) and [mi] (image): the verdict names "text" as the worst source
    whenever [mt <= mi], so in particular when they are equal, and "image"
    otherwise; the worst score is that source's least score and the worst
    axis is the name of the first assessment, in input order, that has it. *)
Theorem overall_worst_source (t i : list pyval) (mt mi : Z)
        (Ht : forallb axis_ok t = true) (Hi : forallb axis_ok i = true)
        (Hmt : is_min mt (map score_of t)) (Hmi : is_min mi (map score_of i)) :
  exists v dt di,
    overall_from_text_image t i = Ok v /\
    first_with_score mt t = Some dt /\
    first_with_score mi i = Some di /\
    (mt <= mi ->
       worst_src v = SRC_TEXT /\ worst_score v = mt /\
       worst_axis v = name_of dt) /\
    (mt = mi -> worst_src v = SRC_TEXT) /\
    (mi < mt ->
       worst_src v = SRC_IMAGE /\ worst_score v = mi /\
       worst_axis v = name_of di).
Proof.
  destruct (min_dim_first _ _ Ht Hmt) as (dt & Hdt & Et).
  destruct (min_dim_first _ _ Hi Hmi) as (di & Hdi & Ei).
  destruct (overall_shape _ _ _ _ _ _ _ _ Et Ei) as (v & Ev & Hsrc & Hax & Hsc & _).
  exists v, dt, di. repeat (split; [assumption|]).
  destruct (Z.leb_spec mt mi) as [Hle|Hgt].
  - repeat split; auto; intros; lia.
  - repeat split; auto; intros; lia.
Qed.


Lemma is_min_sample_text : is_min 7 (map score_of sample_text_axes).
Proof.
  split; [right; left; reflexivity|].
  intros x Hx. simpl in Hx.
  repeat (destruct Hx as [<-|Hx]; [vm_compute; discriminate|]).
  destruct Hx.
Qed.

Lemma is_min_sample_image : is_min 7 (map score_of sample_image_axes).
Proof.
  split; [left; reflexivity|].
  intros x Hx. simpl in Hx.
  repeat (destruct Hx as [<-|Hx]; [vm_compute; discriminate|]).
  destruct Hx.
Qed.

(** The score of an assessment of the data model can be read: absent it
    is 0, and [int] accepts an integer, a boolean and a finite float. *)
Lemma assessment_axis_ok (v : pyval) :
  assessment v = true -> axis_ok v = true.
Proof.
  unfold assessment, axis_ok, score_key, get_or.
  destruct v as [| | | | | |d]; try discriminate. cbn [as_dict bind].
  destruct (dict_get d (u "score")) as [[| | |f| | |]|];
    try discriminate; try reflexivity.
  cbn [to_int]. unfold int_of_float.
  destruct (Prim2SF f); try discriminate; reflexivity.
Qed.

Lemma assessments_axis_ok (l : list pyval) :
  forallb assessment l = true -> forallb axis_ok l = true.
Proof.
  intros H. apply forallb_forall. intros v Hv.
  rewrite forallb_forall in H. apply assessment_axis_ok, H, Hv.
Qed.

(** C7.  The derivation is total on assessments, whatever fields they
    lack: for every pair of lists, empty or not, of dicts whose [score] is
    absent or is a number of the data model (an integer; a boolean or a
    finite float as well), whatever else they hold or lack,
    [overall_from_text_image] returns a verdict, whose level is the level
    of its worst score; and an empty list contributes the sentinel (empty
    axis name, score 25, level "—"). *)
Theorem overall_total (t i : list pyval)
        (Ht : forallb assessment t = true)
        (Hi : forallb assessment i = true) :
  (exists v,
     overall_from_text_image t i = Ok v /\
     level v = level_of (worst_score v)) /\
  min_dim [] = Ok (PStr [], 25, L_NONE).
Proof.
  split; [|reflexivity].
  destruct (min_dim_total _ (assessments_axis_ok _ Ht)) as (ta & ts & tl & Et).
  destruct (min_dim_total _ (assessments_axis_ok _ Hi))
    as (ia & is_ & il & Ei).
  destruct (overall_shape _ _ _ _ _ _ _ _ Et Ei) as (v & Ev & _ & _ & _ & Hl).
  exists v. auto.
Qed.

(** Outside the data model the derivation can fail: a [score] that is
    [None] makes [int] raise. *)
Remark overall_null_score :
  overall_from_text_image [PDict [(u "score", PNone)]] [] = Raise TypeError.
Proof. reflexivity. Qed.

End AggregatorFacts.

Lemma overall_worst_source_witness :
  exists v,
    overall_from_text_image (R := ascii_runtime)
      sample_text_axes sample_image_axes = Ok v /\
    worst_src v = SRC_TEXT /\ worst_score v = 7 /\
    worst_axis v = PStr (u "Cultural").
Proof.
  destruct (overall_worst_source (R := ascii_runtime)
              sample_text_axes sample_image_axes 7 7
              eq_refl eq_refl is_min_sample_text is_min_sample_image)
    as (v & dt & di & Ev & Hdt & _ & Hle & _).
  exists v. split; [exact Ev|].
  destruct (Hle (Z.le_refl 7)) as (Hs & Hsc & Hax).
  split; [exact Hs|]. split; [exact Hsc|].
  rewrite Hax. vm_compute in Hdt. injection Hdt as <-. reflexivity.
Defined.

Lemma overall_total_witness :
  exists v,
    overall_from_text_image (R := ascii_runtime)
      [PDict [(u "name", PStr (u "Social"))]] [] = Ok v.
Proof.
  destruct (overall_total (R := ascii_runtime)
              [PDict [(u "name", PStr (u "Social"))]] [] eq_refl eq_refl)
    as ((v & Ev & _) & _).
  exists v. exact Ev.
Defined.

(** ** Text normaliser and policy filter *)

Lemma lstrip_split (t : pystr) :
  exists w, t = w ++ lstrip t /\ forallb is_space w = true.
Proof.
  induction t as [|c r (w & E & Hw)]; [exists []; auto|].
  simpl. destruct (is_space c) eqn:Hc.
  - exists (c :: w). simpl. rewrite Hc, Hw, <- E. split; reflexivity.
  - exists []. auto.
Qed.

Lemma lstrip_starts_ok (t : pystr) : starts_ok (lstrip t) = true.
Proof.
  induction t as [|c r IH]; [reflexivity|].
  simpl. destruct (is_space c) eqn:Hc; [exact IH|].
  simpl. rewrite Hc. reflexivity.
Qed.

Lemma lstrip_id (t : pystr) : starts_ok t = true -> lstrip t = t.
Proof.
  destruct t as [|c r]; [reflexivity|]. simpl.
  destruct (is_space c); [discriminate|reflexivity].
Qed.

Lemma starts_ok_prefix (a b : pystr) :
  starts_ok (a ++ b) = true -> starts_ok a = true.
Proof. destruct a; [reflexivity|exact (fun H => H)]. Qed.

(** [strip] keeps a contiguous piece of the text. *)
Lemma strip_split (t : pystr) :
  exists w1 w2, t = w1 ++ strip t ++ w2.
Proof.
  unfold strip.
  destruct (lstrip_split t) as (w1 & E1 & _).
  destruct (lstrip_split (rev (lstrip t))) as (w2 & E2 & _).
  exists w1, (rev w2).
  rewrite <- rev_app_distr, <- E2, rev_involutive. exact E1.
Qed.

Lemma strip_idempotent (t : pystr) : strip (strip t) = strip t.
Proof.
  unfold strip.
  set (a := lstrip t). set (b := lstrip (rev a)).
  assert (Ha : starts_ok a = true) by apply lstrip_starts_ok.
  assert (Hb : starts_ok b = true) by apply lstrip_starts_ok.
  assert (Hrb : starts_ok (rev b) = true).
  { destruct (lstrip_split (rev a)) as (w & E & _). fold b in E.
    apply (f_equal (@rev _)) in E.
    rewrite rev_involutive, rev_app_distr in E.
    rewrite E in Ha. eapply starts_ok_prefix, Ha. }
  rewrite (lstrip_id _ Hrb), rev_involutive, (lstrip_id _ Hb).
  reflexivity.
Qed.

Lemma no_circled_app (a b : pystr) :
  no_circled (a ++ b) = no_circled a && no_circled b.
Proof. apply forallb_app. Qed.

Lemma remove_circled_no_circled (t : pystr) :
  no_circled (remove_circled t) = true.
Proof.
  unfold no_circled, remove_circled. apply forallb_forall.
  intros c Hc. apply filter_In in Hc. apply Hc.
Qed.

Lemma remove_circled_id (t : pystr) :
  no_circled t = true -> remove_circled t = t.
Proof.
  unfold no_circled, remove_circled.
  induction t as [|c r IH]; [reflexivity|]. simpl.
  intros H. apply andb_true_iff in H as [Hc Hr].
  rewrite Hc, IH by assumption. reflexivity.
Qed.

Lemma flush_run_no_circled (p : ws_run) :
  match p with OneWs c => is_circled c = false | _ => True end ->
  no_circled (flush_run p) = true.
Proof.
  destruct p; simpl; intros H; [reflexivity| |reflexivity].
  unfold no_circled. simpl. rewrite H. reflexivity.
Qed.

Lemma collapse_go_no_circled (t : pystr) (p : ws_run) :
  match p with OneWs c => is_circled c = false | _ => True end ->
  no_circled t = true -> no_circled (collapse_go p t) = true.
Proof.
  revert p. induction t as [|c r IH]; intros p Hp Ht; simpl.
  - apply flush_run_no_circled, Hp.
  - unfold no_circled in Ht. simpl in Ht.
    apply andb_true_iff in Ht as [Hc Hr].
    apply negb_true_iff in Hc.
    destruct (is_space c).
    + destruct p; apply IH; simpl; auto.
    + rewrite no_circled_app, (flush_run_no_circled _ Hp). simpl.
      unfold no_circled at 1. simpl. rewrite Hc. simpl.
      apply IH; simpl; auto.
Qed.

Lemma no_ws_pair_cons (c : codepoint) (t : pystr) :
  no_ws_pair t = true ->
  (is_space c = false \/ starts_ok t = true) ->
  no_ws_pair (c :: t) = true.
Proof.
  destruct t as [|d r]; [reflexivity|].
  intros Ht H. change (negb (is_space c && is_space d) && no_ws_pair (d :: r) = true).
  rewrite Ht, andb_true_r. simpl in H.
  destruct H as [->|H]; [reflexivity|].
  apply negb_true_iff in H. rewrite H, andb_false_r. reflexivity.
Qed.

Lemma no_ws_pair_tail (c : codepoint) (t : pystr) :
  no_ws_pair (c :: t) = true -> no_ws_pair t = true.
Proof.
  destruct t as [|d r]; [reflexivity|].
  intros H. change (negb (is_space c && is_space d) && no_ws_pair (d :: r) = true) in H.
  apply andb_true_iff in H. apply H.
Qed.

Lemma no_ws_pair_head (c : codepoint) (t : pystr) :
  no_ws_pair (c :: t) = true -> is_space c = true -> starts_ok t = true.
Proof.
  destruct t as [|d r]; [reflexivity|].
  intros H Hc. change (negb (is_space c && is_space d) && no_ws_pair (d :: r) = true) in H.
  apply andb_true_iff in H as [H _]. rewrite Hc in H. exact H.
Qed.

(** After the collapse no two whitespace characters are adjacent. *)
Lemma collapse_go_no_ws_pair (t : pystr) (p : ws_run) :
  no_ws_pair (collapse_go p t) = true.
Proof.
  revert p. induction t as [|c r IH]; intros p; simpl.
  - destruct p; reflexivity.
  - destruct (is_space c) eqn:Hc.
    + destruct p; apply IH.
    + assert (H : no_ws_pair (c :: collapse_go NoRun r) = true).
      { apply no_ws_pair_cons; [apply IH|left; exact Hc]. }
      destruct p; simpl flush_run; simpl app; try exact H.
      * apply no_ws_pair_cons; [exact H|right; simpl; rewrite Hc; reflexivity].
      * apply no_ws_pair_cons; [exact H|right; simpl; rewrite Hc; reflexivity].
Qed.

(** A text without adjacent whitespace is left alone by the collapse. *)
Lemma collapse_go_id (t : pystr) :
  no_ws_pair t = true ->
  collapse_go NoRun t = t /\
  forall c0, starts_ok t = true -> collapse_go (OneWs c0) t = c0 :: t.
Proof.
  induction t as [|c r IH]; intros H; [split; reflexivity|].
  destruct (IH (no_ws_pair_tail _ _ H)) as [IH1 IH2].
  simpl. destruct (is_space c) eqn:Hc.
  - split.
    + apply IH2. eapply no_ws_pair_head; eauto.
    + intros c0 Hs. discriminate Hs.
  - split.
    + simpl. rewrite IH1. reflexivity.
    + intros c0 _. simpl. rewrite IH1. reflexivity.
Qed.

Lemma no_ws_pair_app (a b : pystr) :
  no_ws_pair (a ++ b) = true -> no_ws_pair a = true /\ no_ws_pair b = true.
Proof.
  induction a as [|c a IH]; intros H; [split; [reflexivity|exact H]|].
  destruct (IH (no_ws_pair_tail _ _ H)) as [Ha Hb].
  split; [|exact Hb].
  destruct a as [|d a]; [reflexivity|].
  change (negb (is_space c && is_space d) && no_ws_pair (d :: a) = true).
  rewrite Ha, andb_true_r.
  change (negb (is_space c && is_space d) && no_ws_pair ((d :: a) ++ b) = true) in H.
  apply andb_true_iff in H. apply H.
Qed.

Lemma strip_no_circled (t : pystr) :
  no_circled t = true -> no_circled (strip t) = true.
Proof.
  destruct (strip_split t) as (w1 & w2 & E). intros H.
  rewrite E, !no_circled_app in H.
  apply andb_true_iff in H as [_ H]. apply andb_true_iff in H. apply H.
Qed.

Lemma strip_no_ws_pair (t : pystr) :
  no_ws_pair t = true -> no_ws_pair (strip t) = true.
Proof.
  destruct (strip_split t) as (w1 & w2 & E). intros H.
  rewrite E in H. apply no_ws_pair_app in H as [_ H].
  apply no_ws_pair_app in H. apply H.
Qed.

(** The text normaliser is idempotent. *)
Lemma normalize_idempotent (t : pystr) :
  normalize (normalize t) = normalize t.
Proof.
  unfold normalize at 1.
  assert (Hc : no_circled (normalize t) = true).
  { apply strip_no_circled, collapse_go_no_circled; [exact I|].
    apply remove_circled_no_circled. }
  assert (Hw : no_ws_pair (normalize t) = true).
  { apply strip_no_ws_pair, collapse_go_no_ws_pair. }
  rewrite (remove_circled_id _ Hc).
  unfold collapse_ws. rewrite (proj1 (collapse_go_id _ Hw)).
  apply strip_idempotent.
Qed.

Section TextFacts.
Context {R : PyRuntime}.

Lemma strip_circled_str (t : pystr) :
  t <> [] -> strip_circled (PStr t) = normalize t.
Proof. destruct t; [congruence|reflexivity]. Qed.

Lemma strip_circled_normal (x : pyval) :
  strip_circled x = [] \/ strip_circled x = normalize (to_str x).
Proof.
  unfold strip_circled. destruct (truthy x); [right|left]; reflexivity.
Qed.

Lemma sanitize_loop_kept (lines : list pyval) :
  Forall kept_line (sanitize_loop lines).
Proof.
  induction lines as [|x r IH]; simpl; [constructor|].
  destruct (strip_circled x) as [|c t] eqn:E; [exact IH|].
  destruct (_looks_performance (c :: t)) eqn:P; [exact IH|].
  constructor; [|exact IH].
  split; [discriminate|]. split; [|exact P].
  destruct (strip_circled_normal x) as [E'|E']; rewrite E in E';
    [discriminate|].
  rewrite E'. apply normalize_idempotent.
Qed.

Lemma sanitize_loop_fixed (outs : list pystr) :
  Forall kept_line outs -> sanitize_loop (map PStr outs) = outs.
Proof.
  induction 1 as [|t r (Hne & Hn & Hp) _ IH]; [reflexivity|].
  simpl. rewrite (strip_circled_str t Hne), Hn, Hp, IH.
  destruct t; [congruence|reflexivity].
Qed.

Lemma strip_circled_fallback : strip_circled (PStr FALLBACK) = FALLBACK.
Proof. vm_compute. reflexivity. Qed.

Lemma sanitize_fallback : sanitize_lines [PStr FALLBACK] = [FALLBACK].
Proof.
  unfold sanitize_lines. simpl sanitize_loop.
  rewrite strip_circled_fallback.
  change FALLBACK with (hd 0%N FALLBACK :: tl FALLBACK) at 1 2.
  cbv iota beta.
  destruct (_looks_performance _); reflexivity.
Qed.

(** C5.  [sanitize_lines] is idempotent and never returns an empty list:
    sanitising its own output gives that output again, for every input list;
    and the fallback line it returns when nothing is left is itself returned
    unchanged by a second pass. *)
Theorem sanitize_idempotent (lines : list pyval) :
  sanitize_lines (map PStr (sanitize_lines lines)) = sanitize_lines lines /\
  sanitize_lines lines <> [] /\
  sanitize_lines [PStr FALLBACK] = [FALLBACK].
Proof.
  pose proof (sanitize_loop_kept lines) as Hk.
  unfold sanitize_lines at 2 3 4.
  destruct (sanitize_loop lines) as [|t r] eqn:E.
  - split; [apply sanitize_fallback|].
    split; [discriminate|apply sanitize_fallback].
  - split; [|split; [discriminate|apply sanitize_fallback]].
    unfold sanitize_lines. rewrite (sanitize_loop_fixed _ Hk). reflexivity.
Qed.

End TextFacts.

(** The fallback line holds two of the banned keywords, so a second pass
    filters it out and answers it again through the empty case. *)
Remark fallback_is_filtered :
  _looks_performance (R := ascii_runtime) FALLBACK = true /\
  sanitize_loop (R := ascii_runtime) [PStr FALLBACK] = [].
Proof. split; vm_compute; reflexivity. Qed.

(** ** Caption span matcher: escaping *)

Lemma replace_char_app (c : codepoint) (by_ a b : pystr) :
  replace_char c by_ (a ++ b) = replace_char c by_ a ++ replace_char c by_ b.
Proof. apply flat_map_app. Qed.

Lemma html_escape_app (a b : pystr) :
  html_escape (a ++ b) = html_escape a ++ html_escape b.
Proof. unfold html_escape. rewrite !replace_char_app. reflexivity. Qed.

Lemma html_escape_one (c : codepoint) : html_escape [c] = esc_char c.
Proof.
  unfold esc_char.
  destruct (N.eqb_spec c AMP) as [->|H1]; [reflexivity|].
  destruct (N.eqb_spec c LT) as [->|H2]; [reflexivity|].
  destruct (N.eqb_spec c GT) as [->|H3]; [reflexivity|].
  destruct (N.eqb_spec c DQUOTE) as [->|H4]; [reflexivity|].
  destruct (N.eqb_spec c SQUOTE) as [->|H5]; [reflexivity|].
  apply N.eqb_neq in H1, H2, H3, H4, H5.
  unfold html_escape, replace_char. simpl.
  rewrite H1. simpl. rewrite H2. simpl. rewrite H3. simpl.
  rewrite H4. simpl. rewrite H5. reflexivity.
Qed.

(** [html.escape] works character by character. *)
Lemma html_escape_cons (c : codepoint) (s : pystr) :
  html_escape (c :: s) = esc_char c ++ html_escape s.
Proof.
  change (c :: s) with ([c] ++ s).
  rewrite html_escape_app, html_escape_one. reflexivity.
Qed.

Lemma html_escape_escaped (s : pystr) : escaped (html_escape s).
Proof.
  induction s as [|c s IH]; [constructor|].
  rewrite html_escape_cons. unfold esc_char.
  destruct (N.eqb_spec c AMP) as [->|H1];
    [apply escaped_entity; [simpl; auto|exact IH]|].
  destruct (N.eqb_spec c LT) as [->|H2];
    [apply escaped_entity; [simpl; auto|exact IH]|].
  destruct (N.eqb_spec c GT) as [->|H3];
    [apply escaped_entity; [simpl; auto|exact IH]|].
  destruct (N.eqb_spec c DQUOTE) as [->|H4];
    [apply escaped_entity; [simpl; auto 6|exact IH]|].
  destruct (N.eqb_spec c SQUOTE) as [->|H5];
    [apply escaped_entity; [simpl; auto 6|exact IH]|].
  apply escaped_char; assumption.
Qed.

(** Escaped text holds no [<] and no [>]. *)
Lemma escaped_no_angle (s : pystr) :
  escaped s -> ~ In LT s /\ ~ In GT s.
Proof.
  induction 1 as [|c s H1 H2 H3 _ [IH1 IH2]|e s He _ [IH1 IH2]].
  - split; intros [].
  - split; intros [E|E]; auto.
  - split; intros E; apply in_app_or in E as [E|E]; auto;
      simpl in He;
      repeat (destruct He as [<-|He];
              [simpl in E;
               repeat (destruct E as [E|E]; [discriminate E|]); exact E|]);
      exact He.
Qed.

(** ** Caption span matcher: the pieces of the markup *)

Lemma slice_skipn (t : pystr) (a b : nat) :
  (a <= b)%nat -> slice t a b ++ skipn b t = skipn a t.
Proof.
  intros H. unfold slice.
  replace (skipn b t) with (skipn (b - a) (skipn a t)).
  - apply firstn_skipn.
  - rewrite skipn_skipn. f_equal. lia.
Qed.

Lemma skipn_past (t : pystr) (n : nat) :
  (length t <= n)%nat -> skipn n t = [].
Proof. apply skipn_all2. Qed.

(** The parts [highlight_caption] joins are the escaped pieces of the text
    from [last] on, when the ranges are in order. *)
Lemma highlight_parts_pieces (text : pystr) (rs : list (nat * nat)) :
  forall last,
    ranges_chain (length text) last rs ->
    exists ps,
      highlight_parts text last rs = map render_piece ps /\
      concat (map raw_of ps) = skipn last text.
Proof.
  induction rs as [|[s e] r IH]; intros last Hc.
  - simpl. destruct (Nat.ltb_spec last (length text)).
    + exists [Plain (skipn last text)]. simpl. rewrite app_nil_r. auto.
    + exists []. simpl. rewrite skipn_past by assumption. auto.
  - destruct Hc as ((Hls & Hse) & Hen & Hc).
    destruct (IH e Hc) as (ps & Eps & Ecat).
    simpl highlight_parts. rewrite Eps.
    destruct (Nat.ltb_spec last s).
    + exists (Plain (slice text last s) :: Flagged (slice text s e) :: ps).
      split; [reflexivity|]. simpl. rewrite Ecat.
      rewrite (slice_skipn _ _ _ Hse). apply slice_skipn. exact Hls.
    + exists (Flagged (slice text s e) :: ps).
      split; [reflexivity|]. simpl. rewrite Ecat.
      replace last with s by lia. apply slice_skipn. exact Hse.
Qed.

Lemma insert_asc_Forall {A} (lt : A -> A -> bool) (P : A -> Prop)
      (x : A) (l : list A) :
  P x -> Forall P l -> Forall P (insert_asc lt x l).
Proof.
  intros Hx. induction 1 as [|y r Hy Hr IH]; simpl.
  - constructor; auto.
  - destruct (lt y x); constructor; auto.
Qed.

Lemma sorted_asc_Forall {A} (lt : A -> A -> bool) (P : A -> Prop)
      (l : list A) :
  Forall P l -> Forall P (sorted_asc lt l).
Proof.
  induction 1 as [|x r Hx Hr IH]; simpl; [constructor|].
  apply insert_asc_Forall; assumption.
Qed.

(** Merging leaves ranges in order and apart. *)
Lemma merge_go_chain (n : nat) (rest : list (nat * nat)) :
  forall cur last,
    (last <= fst cur)%nat -> range_ok n cur -> Forall (range_ok n) rest ->
    ranges_chain n last (merge_go cur rest).
Proof.
  unfold range_ok.
  induction rest as [|[s e] r IH]; intros [ls le] last Hl Hc Hr; simpl in *.
  - intuition lia.
  - inversion Hr as [|? ? Hse Hr']; subst. simpl in Hse.
    destruct (Nat.leb_spec s le).
    + apply IH; simpl; auto; lia.
    + simpl. split; [lia|]. split; [lia|].
      apply IH; simpl; auto; lia.
Qed.

Lemma merge_ranges_chain (n : nat) (rs : list (nat * nat)) :
  Forall (range_ok n) rs -> ranges_chain n 0 (_merge_ranges rs).
Proof.
  intros H. unfold _merge_ranges.
  pose proof (sorted_asc_Forall range_lt _ _ H) as Hs.
  destruct (sorted_asc range_lt rs) as [|c r]; [exact I|].
  inversion Hs; subst.
  apply merge_go_chain; auto. lia.
Qed.

Section CaptionFacts.
Context {R : PyRuntime}.

Lemma ci_prefix_length (needle text : pystr) :
  ci_prefix needle text = true -> (length needle <= length text)%nat.
Proof.
  revert text. induction needle as [|a needle IH]; intros [|c text]; simpl;
    try lia; try discriminate.
  intros H. apply andb_true_iff in H as [_ H]. apply IH in H. lia.
Qed.

(** Every match lies inside the text. *)
Lemma finditer_go_ok (needle text : pystr) :
  forall pos skip n,
    (pos + length text)%nat = n ->
    Forall (range_ok n) (finditer_go needle pos skip text).
Proof.
  induction text as [|c text IH]; intros pos skip n Hn; simpl;
    [constructor|].
  simpl in Hn.
  destruct skip as [|k]; [|apply IH; lia].
  destruct (ci_prefix needle (c :: text)) eqn:Hp; [|apply IH; lia].
  constructor; [|apply IH; lia].
  apply ci_prefix_length in Hp. simpl in Hp. unfold range_ok. simpl. lia.
Qed.

Lemma find_all_ranges_ok (text needle : pystr) :
  Forall (range_ok (length text)) (_find_all_ranges text needle).
Proof.
  unfold _find_all_ranges. destruct needle; [constructor|].
  apply finditer_go_ok. reflexivity.
Qed.

Lemma flat_map_Forall {A B} (P : B -> Prop) (f : A -> list B) (l : list A) :
  (forall x, Forall P (f x)) -> Forall P (flat_map f l).
Proof.
  intros H. induction l as [|x l IH]; simpl; [constructor|].
  apply Forall_app. auto.
Qed.

(** C8.  Whatever the caption and the flags, the markup [highlight_caption]
    returns is the caption cut into consecutive pieces, each passed through
    [html.escape], the flagged ones wrapped in the matcher's own span, the
    whole wrapped in its own div; and escaped text holds no [<], no [>] and
    no [&] other than the head of a character reference.  So every
    character of the caption reaches the markup escaped. *)
Theorem highlight_escapes (text : pystr) (flags : list pyval) (out : pystr)
        (Hout : highlight_caption text flags = Ok out) :
  (exists ps,
     out = DIV_OPEN ++ concat (map render_piece ps) ++ DIV_CLOSE /\
     concat (map raw_of ps) = text) /\
  (forall raw,
     escaped (html_escape raw) /\
     ~ In LT (html_escape raw) /\ ~ In GT (html_escape raw)).
Proof.
  split.
  - unfold highlight_caption in Hout.
    destruct (_extract_spans_from_flags flags) as [spans|]; [|discriminate].
    simpl in Hout.
    pose proof (merge_ranges_chain (length text)
                  (flat_map (_find_all_ranges text) spans)
                  (flat_map_Forall _ _ _ (find_all_ranges_ok text))) as Hc.
    destruct (_merge_ranges _) as [|r rs] eqn:E.
    + injection Hout as <-. exists [Plain text]. simpl.
      rewrite !app_nil_r. auto.
    + destruct (highlight_parts_pieces text (r :: rs) 0 Hc)
        as (ps & Eps & Ecat).
      change (Ok (DIV_OPEN ++ concat (highlight_parts text 0 (r :: rs))
                           ++ DIV_CLOSE) = Ok out) in Hout.
      rewrite Eps in Hout. injection Hout as <-. exists ps. auto.
  - intros raw. pose proof (html_escape_escaped raw) as H.
    split; [exact H|]. apply escaped_no_angle, H.
Qed.

End CaptionFacts.

Lemma highlight_escapes_witness :
  exists out ps,
    highlight_caption (R := ascii_runtime) sample_caption sample_flags
      = Ok out /\
    out = DIV_OPEN ++ concat (map render_piece ps) ++ DIV_CLOSE /\
    concat (map raw_of ps) = sample_caption.
Proof.
  destruct (highlight_caption (R := ascii_runtime) sample_caption sample_flags)
    as [out|e] eqn:E; [|vm_compute in E; discriminate E].
  destruct (highlight_escapes (R := ascii_runtime) _ _ _ E)
    as ((ps & E1 & E2) & _).
  exists out, ps. auto.
Defined.

(** ** Caption span matcher: quoted candidates *)

Lemma quote_free_app (a b : pystr) :
  quote_free (a ++ b) = quote_free a && quote_free b.
Proof. apply forallb_app. Qed.

Lemma quote_free_rev (a : pystr) : quote_free (rev a) = quote_free a.
Proof.
  induction a as [|c a IH]; [reflexivity|].
  simpl rev. rewrite quote_free_app, IH. unfold quote_free. simpl.
  rewrite andb_true_r. apply andb_comm.
Qed.

(** Everything [re.findall] returns stood between two quote characters. *)
Lemma findall_go_sound (iss : pystr) :
  forall st h m,
    scan_inv st h -> In m (findall_go st iss) -> enclosed m (h ++ iss).
Proof.
  induction iss as [|c r IH]; intros st h m Hinv Hin; [destruct Hin|].
  replace (h ++ c :: r) with ((h ++ [c]) ++ r)
    by (rewrite <- app_assoc; reflexivity).
  simpl in Hin. destruct (is_quote c) eqn:Hc.
  - destruct st as [| |acc].
    + apply (IH Opened); [exists h, c; auto|exact Hin].
    + apply (IH Opened); [exists h, c; auto|exact Hin].
    + destruct Hin as [<-|Hin]; [|apply (IH Outside); [exact I|exact Hin]].
      destruct Hinv as (h' & q & -> & Hq & Hne & Hfree).
      exists h', q, c, r. repeat (rewrite <- app_assoc; simpl).
      repeat split; auto.
      * intros E. apply Hne. apply (f_equal (@rev _)) in E.
        rewrite rev_involutive in E. exact E.
      * rewrite quote_free_rev. exact Hfree.
  - destruct st as [| |acc].
    + apply (IH Outside); [exact I|exact Hin].
    + apply (IH (Inside [c])); [|exact Hin].
      destruct Hinv as (h' & q & -> & Hq).
      exists h', q. repeat (rewrite <- app_assoc; simpl).
      repeat split; auto; [discriminate|].
      unfold quote_free. simpl. rewrite Hc. reflexivity.
    + apply (IH (Inside (c :: acc))); [|exact Hin].
      destruct Hinv as (h' & q & -> & Hq & Hne & Hfree).
      exists h', q. repeat (rewrite <- app_assoc; simpl).
      repeat split; auto; [discriminate|].
      unfold quote_free in *. simpl. rewrite Hc, Hfree. reflexivity.
Qed.

Lemma findall_quoted_sound (iss m : pystr) :
  In m (findall_quoted iss) -> enclosed m iss.
Proof. apply (findall_go_sound iss Outside [] m I). Qed.

(** A group that is open is closed by the next quote, whichever it is. *)
Lemma findall_go_inside (m : pystr) :
  forall acc q2 rest,
    quote_free m = true -> is_quote q2 = true ->
    findall_go (Inside acc) (m ++ q2 :: rest)
    = (rev acc ++ m) :: findall_go Outside rest.
Proof.
  induction m as [|c m IH]; intros acc q2 rest Hm Hq; simpl.
  - rewrite Hq, app_nil_r. reflexivity.
  - unfold quote_free in Hm. simpl in Hm.
    apply andb_true_iff in Hm as [Hc Hm]. apply negb_true_iff in Hc.
    rewrite Hc, IH by assumption. simpl. rewrite <- app_assoc. reflexivity.
Qed.

Lemma findall_quoted_pair (q1 q2 : codepoint) (m rest : pystr) :
  is_quote q1 = true -> is_quote q2 = true ->
  m <> [] -> quote_free m = true ->
  findall_quoted (q1 :: m ++ q2 :: rest) = m :: findall_go Outside rest.
Proof.
  intros H1 H2 Hne Hm. unfold findall_quoted. simpl. rewrite H1.
  destruct m as [|c m]; [congruence|].
  unfold quote_free in Hm. simpl in Hm.
  apply andb_true_iff in Hm as [Hc Hm]. apply negb_true_iff in Hc.
  simpl. rewrite Hc, findall_go_inside by assumption. reflexivity.
Qed.

Lemma Ok_inj {A} (a b : A) : Ok a = Ok b -> a = b.
Proof. intros E. injection E as E. exact E. Qed.

Lemma mapM_In {A B} (f : A -> result B) (l : list A) (ys : list B) (y : B) :
  mapM f l = Ok ys -> In y ys -> exists x, In x l /\ f x = Ok y.
Proof.
  revert ys. induction l as [|x l IH]; simpl; intros ys E Hy.
  - injection E as <-. destruct Hy.
  - destruct (f x) as [y0|] eqn:Ex; [|discriminate]. simpl in E.
    destruct (mapM f l) as [ys0|]; [|discriminate]. simpl in E.
    injection E as <-. destruct Hy as [<-|Hy].
    + exists x. auto.
    + destruct (IH ys0 eq_refl Hy) as (x' & Hx' & E'). exists x'. auto.
Qed.

Lemma insert_desc_In {A} (lt : A -> A -> bool) (x y : A) (l : list A) :
  In y (insert_desc lt x l) <-> y = x \/ In y l.
Proof.
  induction l as [|z l IH]; simpl; [intuition|].
  destruct (lt x z); simpl; rewrite ?IH; intuition.
Qed.

Lemma sorted_desc_In {A} (lt : A -> A -> bool) (y : A) (l : list A) :
  In y (sorted_desc lt l) <-> In y l.
Proof.
  induction l as [|x l IH]; simpl; [tauto|].
  rewrite insert_desc_In, IH. intuition.
Qed.

Lemma non_empty_In (t : pystr) (l : list pystr) :
  In t (non_empty l) <-> In t l /\ t <> [].
Proof.
  unfold non_empty. rewrite filter_In. destruct t; intuition congruence.
Qed.

Lemma strs_of_In (s : pystr) (l : list pyval) :
  In s (strs_of l) <-> In (PStr s) l.
Proof.
  unfold strs_of. rewrite in_flat_map. split.
  - intros (v & Hv & Hs). destruct v; simpl in Hs; try contradiction.
    destruct Hs as [<-|[]]. exact Hv.
  - intros H. exists (PStr s). simpl. auto.
Qed.

Lemma all_str_map (l : list pystr) : forallb is_str (map PStr l) = true.
Proof. induction l; simpl; auto. Qed.

Lemma singleton_set (l : list pyval) (a : pyval) :
  NoDup l -> (forall x, In x l <-> In x [a]) -> l = [a].
Proof.
  intros Hnd H.
  destruct l as [|b l].
  - exfalso. apply (proj2 (H a)). left. reflexivity.
  - assert (b = a) as ->.
    { destruct (proj1 (H b)) as [E|[]]; [left; reflexivity|]. auto. }
    destruct l as [|c l]; [reflexivity|].
    exfalso. inversion Hnd as [|? ? Hn _]; subst. apply Hn.
    destruct (proj1 (H c)) as [E|[]]; [right; left; reflexivity|].
    subst. left. reflexivity.
Qed.

(** The runtime used for evaluation keeps the law of sets of strings. *)
Lemma same_str_eq (x y : pyval) :
  is_str y = true -> (same_str x y = true <-> x = y).
Proof.
  destruct y; try discriminate. intros _.
  destruct x; simpl; try (split; [discriminate|congruence]).
  rewrite str_eqb_eq. split; congruence.
Qed.

Lemma first_occurrences_In (todo : list pyval) :
  forall seen x,
    forallb is_str todo = true ->
    (In x (first_occurrences seen todo) <->
     In x todo /\ existsb (same_str x) seen = false).
Proof.
  induction todo as [|a r IH]; intros seen x Hs; simpl; [tauto|].
  simpl in Hs. apply andb_true_iff in Hs as [Ha Hr].
  destruct (existsb (same_str a) seen) eqn:Hseen.
  - rewrite (IH seen x Hr). split; [tauto|].
    intros [[<-|Hx] Hn]; [congruence|tauto].
  - simpl. rewrite (IH (a :: seen) x Hr). simpl.
    rewrite orb_false_iff.
    pose proof (same_str_eq x a Ha) as Heq.
    split.
    + intros [<-|(Hx & Hn & Hn')]; auto.
    + intros [[<-|Hx] Hn]; auto.
      destruct (same_str x a) eqn:E; auto.
      left. symmetry. apply Heq. reflexivity.
Qed.

Lemma first_occurrences_NoDup (todo : list pyval) :
  forall seen,
    forallb is_str todo = true -> NoDup (first_occurrences seen todo).
Proof.
  induction todo as [|a r IH]; intros seen Hs; simpl; [constructor|].
  simpl in Hs. apply andb_true_iff in Hs as [Ha Hr].
  destruct (existsb (same_str a) seen); [apply IH, Hr|].
  constructor; [|apply IH, Hr].
  rewrite (first_occurrences_In _ _ _ Hr). simpl.
  intros [_ H]. apply orb_false_iff in H as [H _].
  rewrite (proj2 (same_str_eq a a Ha) eq_refl) in H. discriminate.
Qed.

Lemma ascii_set_list_law : set_list_law ascii_runtime.
Proof.
  intros l Hl. split.
  - apply first_occurrences_NoDup, Hl.
  - intros x. simpl. rewrite (first_occurrences_In _ _ _ Hl). simpl. tauto.
Qed.

Section QuoteFacts.
Context {R : PyRuntime}.
Hypothesis set_law : set_list_law R.

Lemma flag_spans_issue (iss : pystr) :
  flag_spans (issue_flag iss)
  = Ok (non_empty (map strip (findall_quoted iss)) ++ []).
Proof. reflexivity. Qed.

Lemma extract_issue_flag (iss t : pystr) :
  non_empty (map strip (findall_quoted iss)) = [t] ->
  (2 <= length t)%nat ->
  _extract_spans_from_flags [issue_flag iss] = Ok [t].
Proof.
  intros E Hlen. unfold _extract_spans_from_flags.
  assert (Em : mapM flag_spans [issue_flag iss] = Ok [[t]]).
  { cbn [mapM]. rewrite flag_spans_issue, E. reflexivity. }
  rewrite Em. cbn [bind concat app map].
  destruct (set_law [PStr t] eq_refl) as [Hnd Hin].
  rewrite (singleton_set _ _ Hnd Hin). cbn [strs_of flat_map app filter].
  rewrite (proj2 (Nat.leb_le _ _) Hlen). reflexivity.
Qed.

(** Where the candidates of [_extract_spans_from_flags] come from. *)
Lemma extract_spans_origin (flags : list pyval) (out : list pystr)
      (s : pystr) :
  _extract_spans_from_flags flags = Ok out ->
  In s out ->
  (2 <= length s)%nat /\
  exists d,
    In (PDict d) flags /\
    (as_str (py_or (get_or d (u "span") PNone) (PStr [])) = Ok
       match py_or (get_or d (u "span") PNone) (PStr []) with
       | PStr sp => sp
       | _ => []
       end /\
     s = strip match py_or (get_or d (u "span") PNone) (PStr []) with
               | PStr sp => sp
               | _ => []
               end
     \/ exists iss m,
          issues_of d iss /\ In m (findall_quoted iss) /\ s = strip m).
Proof.
  unfold _extract_spans_from_flags. intros E Hs.
  destruct (mapM flag_spans flags) as [per_flag|] eqn:Em; [|discriminate].
  cbn [bind] in E. apply Ok_inj in E. subst out.
  apply sorted_desc_In, filter_In in Hs as [Hs Hlen].
  split; [destruct (length s) as [|[|n]]; try discriminate Hlen; lia|].
  apply strs_of_In in Hs.
  apply (proj2 (set_law _ (all_str_map _))) in Hs.
  apply in_map_iff in Hs as (s' & [= ->] & Hs).
  apply in_concat in Hs as (spans & Hspans & Hs).
  destruct (mapM_In _ _ _ _ Em Hspans) as (f & Hf & Ef).
  unfold flag_spans in Ef.
  destruct f as [| | | | | |d]; try discriminate Ef.
  cbn [bind as_dict as_str] in Ef.
  exists d. split; [exact Hf|].
  destruct (py_or (get_or d (u "span") PNone) (PStr [])) as [| | | |sp| |];
    try discriminate Ef.
  cbn [bind as_dict as_str] in Ef.
  destruct (py_iter (py_or (get_or d (u "issues") PNone) (PList [])))
    as [items|] eqn:Ei; [|discriminate Ef].
  cbn [bind as_dict as_str] in Ef.
  destruct (mapM _ items) as [found|] eqn:Efound; [|discriminate Ef].
  cbn [bind as_dict as_str] in Ef. apply Ok_inj in Ef. subst spans.
  apply in_app_or in Hs as [Hs|Hs].
  - left. apply non_empty_In in Hs as [[<-|[]] _]. auto.
  - right. apply in_concat in Hs as (fs & Hfs & Hs).
    destruct (mapM_In _ _ _ _ Efound Hfs) as (item & Hitem & Eitem).
    destruct item; try discriminate Eitem. cbn [bind as_re_subject] in Eitem.
    apply Ok_inj in Eitem. subst fs.
    apply non_empty_In in Hs as [Hs _].
    apply in_map_iff in Hs as (m & <- & Hm).
    exists s0, m. split; [|auto].
    exists items. auto.
Qed.

(** C9, as the code has it.  A candidate taken from an [issues] string is
    a non-empty run of characters that are not quotes, standing between two
    recognised quote characters (straight double quote, apostrophe, left or
    right curly double quote), trimmed, and at least two characters long.
    The two quotes need not match: any of the four opens a run and any of
    the four closes it. *)
Theorem quoted_candidates :
  (forall flags out s,
     _extract_spans_from_flags flags = Ok out -> In s out ->
     (2 <= length s)%nat /\
     exists d,
       In (PDict d) flags /\
       (s = strip match py_or (get_or d (u "span") PNone) (PStr []) with
                  | PStr sp => sp
                  | _ => []
                  end
        \/ exists iss m,
             issues_of d iss /\ enclosed m iss /\ s = strip m)) /\
  (forall q1 q2 m,
     is_quote q1 = true -> is_quote q2 = true ->
     quote_free m = true -> (2 <= length (strip m))%nat ->
     _extract_spans_from_flags [issue_flag (q1 :: m ++ [q2])]
     = Ok [strip m]).
Proof.
  split.
  - intros flags out s E Hs.
    destruct (extract_spans_origin _ _ _ E Hs) as (Hlen & d & Hd & H).
    split; [exact Hlen|]. exists d. split; [exact Hd|].
    destruct H as [[_ H]|(iss & m & Hi & Hm & ->)]; [left; exact H|].
    right. exists iss, m. split; [exact Hi|].
    split; [apply findall_quoted_sound, Hm|reflexivity].
  - intros q1 q2 m H1 H2 Hm Hlen.
    assert (Hne : m <> []) by (intros ->; simpl in Hlen; lia).
    apply extract_issue_flag; [|exact Hlen].
    rewrite (findall_quoted_pair q1 q2 m [] H1 H2 Hne Hm). simpl.
    destruct (strip m); [simpl in Hlen; lia|reflexivity].
Qed.

End QuoteFacts.

Lemma quoted_candidates_witness :
  _extract_spans_from_flags (R := ascii_runtime)
    [issue_flag (DQUOTE :: u "ab" ++ [SQUOTE])] = Ok [u "ab"].
Proof.
  exact (proj2 (quoted_candidates (R := ascii_runtime) ascii_set_list_law)
               DQUOTE SQUOTE (u "ab") eq_refl eq_refl eq_refl
               (le_n 2)).
Defined.

(** C9 as worded fails: text between a straight double quote and an
    apostrophe is a candidate. *)
Lemma mismatched_quotes_accepted :
  ~ mismatched_never_candidates (R := ascii_runtime).
Proof.
  intros H.
  apply (H DQUOTE SQUOTE (u "ab") [u "ab"]); try reflexivity.
  left. reflexivity.
Qed.

(** ** Floats *)

Lemma SFltb_rank (f g : spec_float) :
  SFltb f g = true <-> rank_lt (sf_rank f) (sf_rank g).
Proof.
  unfold SFltb, SFcompare.
  destruct f as [s|s| |s m e], g as [s'|s'| |s' m' e']; simpl;
    try (split; [discriminate|tauto]);
    try destruct s; try destruct s';
    try (split; intros H; first [reflexivity | discriminate H | lia]).
  - change (PosDef.Pos.compare_cont Eq m m') with (Pos.compare m m').
    destruct (Z.compare_spec e e') as [He|He|He];
      [destruct (Pos.compare_spec m m') as [Hm|Hm|Hm]| |];
      simpl; split; intros H; first [reflexivity | discriminate H | lia].
  - change (PosDef.Pos.compare_cont Eq m m') with (Pos.compare m m').
    destruct (Z.compare_spec e e') as [He|He|He];
      [destruct (Pos.compare_spec m m') as [Hm|Hm|Hm]| |];
      simpl; split; intros H; first [reflexivity | discriminate H | lia].
Qed.

Lemma rank_lt_trans (a b c : option (Z * Z * Z)) :
  rank_lt a b -> rank_lt b c -> rank_lt a c.
Proof.
  destruct a as [[[a1 a2] a3]|], b as [[[b1 b2] b3]|], c as [[[c1 c2] c3]|];
    simpl; try tauto. lia.
Qed.

Lemma rank_lt_irrefl (a : option (Z * Z * Z)) : ~ rank_lt a a.
Proof. destruct a as [[[a1 a2] a3]|]; simpl; [lia|tauto]. Qed.

(** [<] on floats is transitive and irreflexive. *)
Lemma ltb_trans (a b c : float) :
  PrimFloat.ltb a b = true -> PrimFloat.ltb b c = true ->
  PrimFloat.ltb a c = true.
Proof.
  rewrite !ltb_spec, !SFltb_rank. apply rank_lt_trans.
Qed.

Lemma ltb_irrefl (a : float) : PrimFloat.ltb a a = false.
Proof.
  destruct (PrimFloat.ltb a a) eqn:E; [|reflexivity].
  rewrite ltb_spec, SFltb_rank in E. destruct (rank_lt_irrefl _ E).
Qed.

Lemma ltb_leb (a b : float) :
  PrimFloat.ltb a b = true -> PrimFloat.leb a b = true.
Proof.
  rewrite ltb_spec, leb_spec. unfold SFltb, SFleb.
  destruct (SFcompare _ _) as [[]|]; auto.
Qed.

(** [max(0.0, min(1.0, v))] is a float of [0,1], whatever [v] is. *)
Lemma clamp_in_unit (v : float) : in_unit_interval (fmax 0 (fmin 1 v)).
Proof.
  unfold in_unit_interval, fmin.
  destruct (PrimFloat.ltb v 1) eqn:H1.
  - unfold fmax. destruct (PrimFloat.ltb 0 v) eqn:H0.
    + split; apply ltb_leb; assumption.
    + split; reflexivity.
  - split; reflexivity.
Qed.

(** ** Dicts *)

Lemma dict_get_set (d : dict) (k k' : pystr) (v : pyval) :
  dict_get (dict_set d k v) k'
  = if str_eqb k k' then Some v else dict_get d k'.
Proof.
  induction d as [|[k0 v0] r IH]; simpl; [reflexivity|].
  destruct (str_eqb k0 k) eqn:E0; simpl.
  - apply str_eqb_eq in E0. subst k0.
    destruct (str_eqb k k'); reflexivity.
  - rewrite IH. destruct (str_eqb k0 k') eqn:E1; [|reflexivity].
    destruct (str_eqb k k') eqn:E2; [|reflexivity].
    apply str_eqb_eq in E1, E2. subst. rewrite str_eqb_refl in E0.
    discriminate.
Qed.

Lemma dict_get_set_other (d : dict) (k k' : pystr) (v : pyval) :
  str_eqb k k' = false -> dict_get (dict_set d k v) k' = dict_get d k'.
Proof. intros E. rewrite dict_get_set, E. reflexivity. Qed.

(** ** Hotspots: entries that are not dicts *)

Lemma dicts_of_filter (l : list pyval) :
  dicts_of (filter is_dict l) = dicts_of l.
Proof.
  induction l as [|v l IH]; [reflexivity|].
  destruct v; simpl; try exact IH.
  unfold dicts_of in *. simpl. rewrite IH. reflexivity.
Qed.

Lemma filter_is_dict (l : list pyval) :
  filter is_dict l = map PDict (dicts_of l).
Proof.
  induction l as [|v l IH]; [reflexivity|].
  destruct v; simpl; try exact IH.
  unfold dicts_of in *. simpl. rewrite IH. reflexivity.
Qed.

(** ** Sorting: the order left where a key is a NaN *)

Lemma take_nth_perm {A} (n : nat) (l : list A) :
  forall x r, take_nth n l = Some (x, r) -> Permutation (x :: r) l.
Proof.
  revert n. induction l as [|a l IH]; intros n x r; [simpl; discriminate|].
  destruct n as [|n]; simpl.
  - intros [= <- <-]. reflexivity.
  - destruct (take_nth n l) as [[y r']|] eqn:E; [|discriminate].
    intros [= <- <-]. rewrite perm_swap. constructor. apply (IH n), E.
Qed.

Lemma reorder_perm {A} (picks : list nat) :
  forall l : list A, Permutation (reorder picks l) l.
Proof.
  induction picks as [|p ps IH]; intros l; simpl; [reflexivity|].
  destruct (take_nth p l) as [[x rest]|] eqn:E; [|apply IH].
  rewrite <- (take_nth_perm p l x rest E). constructor. apply IH.
Qed.

Section SortedByKey.
Context {R : PyRuntime}.

Lemma sorted_by_key_In (p : float * dict) (ks : list (float * dict)) :
  In p (sorted_by_key ks) <-> In p ks.
Proof.
  unfold sorted_by_key. destruct (existsb nan_key ks).
  - split; apply Permutation_in;
      [apply reorder_perm|symmetry; apply reorder_perm].
  - apply sorted_desc_In.
Qed.

Lemma sorted_by_key_plain (ks : list (float * dict)) :
  existsb nan_key ks = false -> sorted_by_key ks = sorted_desc key_lt ks.
Proof. unfold sorted_by_key. intros ->. reflexivity. Qed.

End SortedByKey.

Section DedupeFacts.
Context {R : PyRuntime}.

(** C10.  [dedupe_hotspots] reads nothing of its input but the entries that
    are dicts: the entries it works on are the dicts of the input in input
    order, its result (a list of dicts, or the exception) is the result on
    the sublist of dict entries, and two inputs with the same dict entries
    have the same result. *)
Theorem dedupe_ignores_non_dicts (hotspots : list pyval) :
  map PDict (dicts_of hotspots) = filter is_dict hotspots /\
  dedupe_hotspots hotspots = dedupe_hotspots (filter is_dict hotspots) /\
  (forall others,
     filter is_dict others = filter is_dict hotspots ->
     dedupe_hotspots others = dedupe_hotspots hotspots).
Proof.
  split; [symmetry; apply filter_is_dict|].
  split.
  - unfold dedupe_hotspots. rewrite dicts_of_filter. reflexivity.
  - intros others E. unfold dedupe_hotspots.
    rewrite <- (dicts_of_filter others), E, dicts_of_filter. reflexivity.
Qed.

(** ** Hotspots: clamping *)

Lemma clamp_field_ok (h : dict) (key k' : pystr) :
  k' = key \/ key_ok h k' -> key_ok (clamp_field h key) k'.
Proof.
  unfold clamp_field, key_ok. intros H.
  destruct (dict_get h key) as [v|] eqn:Ek.
  - destruct (to_float v) as [f|e] eqn:Ef.
    + rewrite dict_get_set.
      destruct (str_eqb key k') eqn:E.
      * left. exists (fmax 0 (fmin 1 f)). split; [reflexivity|].
        apply clamp_in_unit.
      * destruct H as [->|H]; [|exact H].
        rewrite str_eqb_refl in E. discriminate.
    + destruct H as [->|H]; [|exact H].
      rewrite Ek. right. exists e. exact Ef.
  - destruct H as [->|H]; [|exact H].
    rewrite Ek. exact I.
Qed.

Lemma clamp_fields_ok (keys : list pystr) :
  forall h k',
    In k' keys \/ key_ok h k' ->
    key_ok (fold_left clamp_field keys h) k'.
Proof.
  induction keys as [|key keys IH]; intros h k' H; simpl.
  - destruct H as [[]|H]. exact H.
  - apply IH. destruct H as [[<-|H]|H]; auto.
    + right. apply clamp_field_ok. left. reflexivity.
    + right. apply clamp_field_ok. right. exact H.
Qed.

(** The entry the loop appends has all its geometry fields clamped. *)
Lemma clamp_geometry_clamped (h : dict) : clamped (clamp_geometry h).
Proof.
  intros key Hk. apply clamp_fields_ok. left. exact Hk.
Qed.

Lemma geometry_key_not_tag (key : pystr) :
  In key GEOMETRY_KEYS ->
  str_eqb (u "risks") key = false /\
  str_eqb (u "suggested_edits") key = false /\
  str_eqb (u "label") key = false /\
  str_eqb (u "severity") key = false /\
  str_eqb (u "shape") key = false.
Proof.
  intros H. simpl in H.
  repeat (destruct H as [<-|H]; [repeat split; reflexivity|]).
  destruct H.
Qed.

(** A merge leaves the geometry of the kept entry as it is. *)
Lemma merge_geometry (a b m : dict) (key : pystr) :
  _merge a b = Ok m -> In key GEOMETRY_KEYS ->
  dict_get m key = dict_get a key.
Proof.
  intros E Hk.
  destruct (geometry_key_not_tag key Hk) as (N1 & N2 & N3 & N4 & _).
  unfold _merge in E.
  destruct (py_iter _) as [ra|]; [|discriminate E]. cbn [bind] in E.
  destruct (py_iter _) as [rb|]; [|discriminate E]. cbn [bind] in E.
  destruct (py_set _) as [risks|]; [|discriminate E]. cbn [bind] in E.
  destruct (py_iter _) as [ea|]; [|discriminate E]. cbn [bind] in E.
  destruct (py_set _) as [edits|]; [|discriminate E]. cbn [bind] in E.
  destruct (py_iter _) as [eb|]; [|discriminate E]. cbn [bind] in E.
  apply Ok_inj in E. subst m.
  repeat match goal with
  | |- context [if ?c then _ else _] => destruct c
  end;
    repeat (rewrite dict_get_set_other by assumption); reflexivity.
Qed.

Lemma merge_clamped (a b m : dict) :
  _merge a b = Ok m -> clamped a -> clamped m.
Proof.
  intros E Ha key Hk. unfold key_ok.
  rewrite (merge_geometry a b m key E Hk). apply Ha, Hk.
Qed.

Lemma absorb_clamped (b : bbox) (h : dict) (kept kept' : list dict) :
  absorb b h kept = Ok (Some kept') ->
  Forall clamped kept -> Forall clamped kept'.
Proof.
  revert kept'. induction kept as [|k r IH]; intros kept' E Hk; simpl in E.
  - discriminate E.
  - inversion Hk as [|? ? Hk1 Hk2]; subst.
    destruct (_bbox k) as [bk|]; [|discriminate E]. cbn [bind] in E.
    destruct (hotspots_match b bk).
    + destruct (_merge k h) as [m|] eqn:Em; [|discriminate E].
      cbn [bind] in E. apply Ok_inj in E. injection E as <-.
      constructor; [eapply merge_clamped; eauto|exact Hk2].
    + destruct (absorb b h r) as [[r'|]|]; try discriminate E.
      cbn [bind] in E. apply Ok_inj in E. injection E as <-.
      constructor; [exact Hk1|apply IH; auto].
Qed.

Lemma dedupe_loop_clamped (hs : list dict) :
  forall kept out,
    dedupe_loop kept hs = Ok out ->
    Forall clamped kept -> Forall clamped out.
Proof.
  induction hs as [|h r IH]; intros kept out E Hk; simpl in E.
  - apply Ok_inj in E. subst. exact Hk.
  - destruct (_bbox h) as [b|]; [|discriminate E]. cbn [bind] in E.
    destruct (absorb b h kept) as [[kept'|]|] eqn:Ea; try discriminate E;
      cbn [bind] in E.
    + eapply IH; [exact E|]. eapply absorb_clamped; eauto.
    + eapply IH; [exact E|]. apply Forall_app. split; [exact Hk|].
      constructor; [apply clamp_geometry_clamped|constructor].
Qed.

Lemma dedupe_clamped (hotspots : list pyval) (out : list dict) :
  dedupe_hotspots hotspots = Ok out -> Forall clamped out.
Proof.
  unfold dedupe_hotspots. intros E.
  destruct (mapM keyed _) as [ks|]; [|discriminate E]. cbn [bind] in E.
  destruct (dedupe_loop _ _) as [kept|] eqn:El; [|discriminate E].
  cbn [bind] in E. apply Ok_inj in E. subst out.
  apply Forall_forall. intros h Hh.
  pose proof (dedupe_loop_clamped _ _ _ El (Forall_nil _)) as Hall.
  rewrite Forall_forall in Hall. apply Hall.
  rewrite <- (firstn_skipn 12 kept). apply in_or_app. left. exact Hh.
Qed.

End DedupeFacts.

Lemma dedupe_ignores_non_dicts_witness :
  dedupe_hotspots (R := ascii_runtime)
    [PNone; PDict twin_a; PInt 3; PStr (u "x")]
  = dedupe_hotspots (R := ascii_runtime) [PDict twin_a].
Proof.
  exact (proj2 (proj2 (dedupe_ignores_non_dicts (R := ascii_runtime)
                         [PDict twin_a]))
               [PNone; PDict twin_a; PInt 3; PStr (u "x")] eq_refl).
Defined.

(** ** Hotspots: the function returns *)

Section DedupeTotal.
Context {R : PyRuntime}.
Hypothesis set_law : set_list_law R.

Lemma dict_get_In (h : dict) (k : pystr) (v : pyval) :
  dict_get h k = Some v -> In (k, v) h.
Proof.
  induction h as [|[k0 v0] r IH]; simpl; [discriminate|].
  destruct (str_eqb k0 k) eqn:E.
  - intros [= ->]. apply str_eqb_eq in E. subst. left. reflexivity.
  - intros H. right. apply IH, H.
Qed.

Lemma hotspot_get (h : dict) (k : pystr) (v : pyval) :
  hotspot_ok h = true -> dict_get h k = Some v -> value_ok k v = true.
Proof.
  unfold hotspot_ok. rewrite forallb_forall. intros H E.
  apply (H (k, v)), dict_get_In, E.
Qed.

Lemma hotspot_get_or (h : dict) (k : pystr) (dflt : pyval) :
  hotspot_ok h = true -> value_ok k dflt = true ->
  value_ok k (get_or h k dflt) = true.
Proof.
  intros H Hd. unfold get_or.
  destruct (dict_get h k) as [v|] eqn:E; [|exact Hd].
  eapply hotspot_get; eauto.
Qed.

Lemma hotspot_set (h : dict) (k : pystr) (v : pyval) :
  hotspot_ok h = true -> value_ok k v = true ->
  hotspot_ok (dict_set h k v) = true.
Proof.
  unfold hotspot_ok. intros H Hv.
  induction h as [|[k0 v0] r IH]; simpl.
  - rewrite Hv. reflexivity.
  - simpl in H. apply andb_true_iff in H as [H0 Hr].
    destruct (str_eqb k0 k) eqn:E; simpl.
    + apply str_eqb_eq in E. subst k0. rewrite Hv, Hr. reflexivity.
    + rewrite H0, (IH Hr). reflexivity.
Qed.

Lemma value_ok_geometry (key : pystr) (v : pyval) :
  In key GEOMETRY_KEYS -> value_ok key v = is_number v && floatable v.
Proof.
  intros H. simpl in H.
  repeat (destruct H as [<-|H]; [reflexivity|]). destruct H.
Qed.

Lemma floatable_total (v : pyval) :
  floatable v = true -> exists f, to_float v = Ok f.
Proof.
  unfold floatable. destruct (to_float v) as [f|]; [|discriminate].
  exists f. reflexivity.
Qed.

Lemma geometry_field_total (h : dict) (key : pystr) (dflt : pyval) :
  hotspot_ok h = true -> In key GEOMETRY_KEYS ->
  is_number dflt && floatable dflt = true ->
  exists f, to_float (get_or h key dflt) = Ok f.
Proof.
  intros H Hk Hd. apply floatable_total.
  pose proof (hotspot_get_or h key dflt H) as Hv.
  rewrite !(value_ok_geometry key _ Hk) in Hv.
  apply Hv in Hd. apply andb_true_iff in Hd. apply Hd.
Qed.

Ltac geometry_field h H key dflt f :=
  let E := fresh "E" in
  destruct (geometry_field_total h key dflt H) as (f & E);
  [simpl; tauto | reflexivity | rewrite E; cbn [bind]].

(** The box of a hotspot of the data model can be computed. *)
Lemma bbox_total (h : dict) :
  hotspot_ok h = true -> exists b, _bbox h = Ok b.
Proof.
  intros H. unfold _bbox.
  pose proof (hotspot_get_or h (u "shape") PNone H eq_refl) as Hs.
  assert (Es : exists s,
             as_str (py_or (get_or h (u "shape") PNone) (PStr (u "circle")))
             = Ok s).
  { destruct (get_or h (u "shape") PNone) as [| | | |s| |];
      try discriminate Hs.
    - eexists. reflexivity.
    - destruct s; eexists; reflexivity. }
  destruct Es as (s & ->). cbn [bind].
  destruct (str_eqb (lower s) (u "rect")).
  - geometry_field h H (u "x") (PInt 0) x.
    geometry_field h H (u "y") (PInt 0) y.
    geometry_field h H (u "w") (PInt 0) w.
    geometry_field h H (u "h") (PInt 0) hgt.
    eexists. reflexivity.
  - geometry_field h H (u "cx") (PFloat 0.5) cx.
    geometry_field h H (u "cy") (PFloat 0.5) cy.
    geometry_field h H (u "r") (PFloat 0.1) r.
    eexists. reflexivity.
Qed.

Lemma clamp_field_hotspot (h : dict) (key : pystr) :
  In key GEOMETRY_KEYS -> hotspot_ok h = true ->
  hotspot_ok (clamp_field h key) = true.
Proof.
  intros Hk H. unfold clamp_field.
  destruct (dict_get h key) as [v|]; [|exact H].
  destruct (to_float v) as [f|]; [|exact H].
  apply hotspot_set; [exact H|].
  rewrite (value_ok_geometry key _ Hk). reflexivity.
Qed.

Lemma clamp_fields_hotspot (keys : list pystr) :
  forall h,
    incl keys GEOMETRY_KEYS -> hotspot_ok h = true ->
    hotspot_ok (fold_left clamp_field keys h) = true.
Proof.
  induction keys as [|key keys IH]; intros h Hi H; simpl; [exact H|].
  apply IH.
  - intros k Hk. apply Hi. right. exact Hk.
  - apply clamp_field_hotspot; [apply Hi; left; reflexivity|exact H].
Qed.

Lemma clamp_geometry_hotspot (h : dict) :
  hotspot_ok h = true -> hotspot_ok (clamp_geometry h) = true.
Proof. apply clamp_fields_hotspot, incl_refl. Qed.

Lemma tags_iter (v : pyval) :
  tags_ok v = true ->
  exists l, py_iter (py_or v (PList [])) = Ok l /\ forallb is_str l = true.
Proof.
  destruct v as [| | | | |l|]; try discriminate; intros H.
  - exists []. split; reflexivity.
  - exists l. split; [destruct l; reflexivity|exact H].
Qed.

Lemma strs_hashable (l : list pyval) :
  forallb is_str l = true -> forallb hashable l = true.
Proof.
  induction l as [|v l IH]; [reflexivity|]. simpl.
  intros H. apply andb_true_iff in H as [Hv Hl].
  rewrite (IH Hl). destruct v; try discriminate Hv. reflexivity.
Qed.

Lemma py_set_strs (l : list pyval) :
  forallb is_str l = true ->
  exists s, py_set l = Ok s /\ forallb is_str s = true.
Proof.
  intros H. unfold py_set. rewrite (strs_hashable l H).
  exists (set_list l). split; [reflexivity|].
  apply forallb_forall. intros x Hx.
  apply (proj2 (set_law l H)) in Hx.
  rewrite forallb_forall in H. apply H, Hx.
Qed.

Lemma tags_of_hotspot (h : dict) (key : pystr) :
  hotspot_ok h = true ->
  value_ok key PNone = true ->
  (forall v, value_ok key v = tags_ok v) ->
  exists l,
    py_iter (py_or (get_or h key PNone) (PList [])) = Ok l /\
    forallb is_str l = true.
Proof.
  intros H Hd Hk. apply tags_iter. rewrite <- Hk.
  apply hotspot_get_or; assumption.
Qed.

(** A merge of two hotspots of the data model returns one. *)
Lemma merge_total (a b : dict) :
  hotspot_ok a = true -> hotspot_ok b = true ->
  exists m, _merge a b = Ok m /\ hotspot_ok m = true.
Proof.
  intros Ha Hb. unfold _merge.
  destruct (tags_of_hotspot a (u "risks") Ha eq_refl (fun v => eq_refl))
    as (ra & -> & Hra). cbn [bind].
  destruct (tags_of_hotspot b (u "risks") Hb eq_refl (fun v => eq_refl))
    as (rb & -> & Hrb). cbn [bind].
  destruct (py_set_strs (ra ++ rb)) as (risks & -> & Hrisks).
  { rewrite forallb_app, Hra, Hrb. reflexivity. }
  cbn [bind].
  set (out1 := dict_set a (u "risks") (PList risks)).
  assert (H1 : hotspot_ok out1 = true).
  { apply hotspot_set; [exact Ha|exact Hrisks]. }
  destruct (tags_of_hotspot out1 (u "suggested_edits") H1 eq_refl
              (fun v => eq_refl)) as (ea & -> & Hea). cbn [bind].
  destruct (py_set_strs ea Hea) as (edits & -> & Hedits). cbn [bind].
  destruct (tags_of_hotspot b (u "suggested_edits") Hb eq_refl
              (fun v => eq_refl)) as (eb & -> & Heb). cbn [bind].
  set (out2 := dict_set out1 (u "suggested_edits") (PList (edits ++ eb))).
  assert (H2 : hotspot_ok out2 = true).
  { apply hotspot_set; [exact H1|].
    change (forallb is_str (edits ++ eb) = true).
    rewrite forallb_app, Hedits, Heb. reflexivity. }
  eexists. split; [reflexivity|].
  destruct (negb (truthy (get_or out2 (u "label") PNone)) && _).
  - set (out3 := dict_set out2 (u "label") _).
    assert (H3 : hotspot_ok out3 = true)
      by (apply hotspot_set; [exact H2|reflexivity]).
    destruct (negb (truthy (get_or out3 (u "severity") PNone)) && _);
      [apply hotspot_set; [exact H3|reflexivity]|exact H3].
  - destruct (negb (truthy (get_or out2 (u "severity") PNone)) && _);
      [apply hotspot_set; [exact H2|reflexivity]|exact H2].
Qed.

Lemma absorb_total (b : bbox) (h : dict) (kept : list dict) :
  hotspot_ok h = true -> forallb hotspot_ok kept = true ->
  exists r,
    absorb b h kept = Ok r /\
    match r with
    | Some kept' => forallb hotspot_ok kept' = true
    | None => True
    end.
Proof.
  intros Hh. induction kept as [|k r IH]; intros Hk; simpl.
  - exists None. auto.
  - simpl in Hk. apply andb_true_iff in Hk as [Hk Hr].
    destruct (bbox_total k Hk) as (bk & ->). cbn [bind].
    destruct (hotspots_match b bk).
    + destruct (merge_total k h Hk Hh) as (m & -> & Hm). cbn [bind].
      exists (Some (m :: r)). split; [reflexivity|].
      simpl. rewrite Hm, Hr. reflexivity.
    + destruct (IH Hr) as (r' & -> & Hr'). cbn [bind].
      destruct r' as [r''|]; eexists; (split; [reflexivity|]); [|exact I].
      simpl. rewrite Hk, Hr'. reflexivity.
Qed.

Lemma dedupe_loop_total (hs : list dict) :
  forall kept,
    forallb hotspot_ok hs = true -> forallb hotspot_ok kept = true ->
    exists out, dedupe_loop kept hs = Ok out.
Proof.
  induction hs as [|h r IH]; intros kept Hhs Hk; simpl.
  - exists kept. reflexivity.
  - simpl in Hhs. apply andb_true_iff in Hhs as [Hh Hr].
    destruct (bbox_total h Hh) as (b & ->). cbn [bind].
    destruct (absorb_total b h kept Hh Hk) as (a & -> & Ha). cbn [bind].
    destruct a as [kept'|].
    + apply IH; assumption.
    + apply IH; [assumption|].
      rewrite forallb_app, Hk. simpl.
      rewrite (clamp_geometry_hotspot h Hh). reflexivity.
Qed.

Lemma keyed_total (hs : list dict) :
  forallb hotspot_ok hs = true ->
  exists ks, mapM keyed hs = Ok ks /\ map snd ks = hs.
Proof.
  induction hs as [|h r IH]; intros H; simpl.
  - exists []. auto.
  - simpl in H. apply andb_true_iff in H as [Hh Hr].
    unfold keyed at 1. destruct (bbox_total h Hh) as (b & ->). cbn [bind].
    destruct (IH Hr) as (ks & -> & E). cbn [bind].
    eexists. split; [reflexivity|]. simpl. rewrite E. reflexivity.
Qed.

Lemma dedupe_total (hotspots : list pyval) :
  forallb hotspot_ok (dicts_of hotspots) = true ->
  exists out, dedupe_hotspots hotspots = Ok out.
Proof.
  intros H. unfold dedupe_hotspots.
  destruct (keyed_total _ H) as (ks & -> & E). cbn [bind].
  destruct (dedupe_loop_total (map snd (sorted_by_key ks)) [])
    as (kept & ->); [|reflexivity|].
  - apply forallb_forall. intros h Hh.
    apply in_map_iff in Hh as (p & <- & Hp).
    apply (proj1 (sorted_by_key_In _ _)) in Hp.
    rewrite forallb_forall in H. apply H. rewrite <- E.
    apply in_map, Hp.
  - cbn [bind]. eexists. reflexivity.
Qed.

End DedupeTotal.

(** ** Sorting *)

Section SortingFacts.
Context {A : Type}.
Variable lt : A -> A -> bool.

Lemma insert_desc_perm (x : A) (l : list A) :
  Permutation (insert_desc lt x l) (x :: l).
Proof.
  induction l as [|y r IH]; simpl; [reflexivity|].
  destruct (lt x y); [|reflexivity].
  rewrite IH. apply perm_swap.
Qed.

Lemma sorted_desc_perm (l : list A) : Permutation (sorted_desc lt l) l.
Proof.
  induction l as [|x r IH]; simpl; [reflexivity|].
  rewrite insert_desc_perm, IH. reflexivity.
Qed.

Hypothesis lt_trans :
  forall a b c, lt a b = true -> lt b c = true -> lt a c = true.

Lemma insert_desc_descending (x : A) (l : list A) :
  descending lt l ->
  (forall y, In y l -> lt x y = true \/ lt y x = true) ->
  descending lt (insert_desc lt x l).
Proof.
  unfold descending.
  induction 1 as [|y r Hr IH Hy]; intros Hc; simpl.
  - constructor; constructor.
  - destruct (lt x y) eqn:E.
    + constructor.
      * apply IH. intros z Hz. apply Hc. right. exact Hz.
      * apply Forall_forall. intros z Hz.
        apply (Permutation_in _ (insert_desc_perm x r)) in Hz.
        destruct Hz as [<-|Hz]; [exact E|].
        rewrite Forall_forall in Hy. apply Hy, Hz.
    + assert (Hyx : lt y x = true).
      { destruct (Hc y (or_introl eq_refl)) as [H|H]; [congruence|exact H]. }
      constructor; [constructor; assumption|].
      constructor; [exact Hyx|].
      apply Forall_forall. intros z Hz.
      rewrite Forall_forall in Hy.
      apply lt_trans with y; [apply Hy, Hz|exact Hyx].
Qed.

Lemma sorted_desc_descending (l : list A) :
  NoDup l ->
  (forall x y, In x l -> In y l -> x <> y ->
               lt x y = true \/ lt y x = true) ->
  descending lt (sorted_desc lt l).
Proof.
  induction 1 as [|x r Hx Hr IH]; intros Hc; simpl; [constructor|].
  apply insert_desc_descending.
  - apply IH. intros a b Ha Hb. apply Hc; right; assumption.
  - intros y Hy. apply (Permutation_in _ (sorted_desc_perm r)) in Hy.
    apply Hc; [left; reflexivity|right; exact Hy|].
    intros ->. contradiction.
Qed.

Lemma descending_app (a b : list A) :
  descending lt (a ++ b) ->
  descending lt a /\ forall x y, In x a -> In y b -> lt y x = true.
Proof.
  unfold descending. induction a as [|x a IH]; simpl; intros H.
  - split; [constructor|]. intros x y [].
  - inversion H as [|? ? Hs Hx]; subst.
    destruct (IH Hs) as [Ha Hab]. split.
    + constructor; [exact Ha|].
      apply Forall_forall. intros z Hz. rewrite Forall_forall in Hx.
      apply Hx, in_or_app. left. exact Hz.
    + intros z y [<-|Hz] Hy; [|apply Hab; assumption].
      rewrite Forall_forall in Hx. apply Hx, in_or_app. right. exact Hy.
Qed.

End SortingFacts.

Lemma SFeqb_refl (f : spec_float) : sf_rank f <> None -> SFeqb f f = true.
Proof.
  unfold SFeqb, SFcompare.
  destruct f as [s|s| |s m e]; simpl; intros H;
    try destruct s; try reflexivity; try congruence;
    rewrite Z.compare_refl;
    change (PosDef.Pos.compare_cont Eq m m) with (Pos.compare m m);
    rewrite Pos.compare_refl; reflexivity.
Qed.

(** A float that is below or above another is not a NaN. *)
Lemma ltb_not_nan (a b : float) :
  PrimFloat.ltb a b = true ->
  PrimFloat.eqb a a = true /\ PrimFloat.eqb b b = true.
Proof.
  rewrite ltb_spec, SFltb_rank, !eqb_spec. intros H.
  split; apply SFeqb_refl; intros E; rewrite E in H;
    [|destruct (sf_rank (Prim2SF a)) as [[[? ?] ?]|]]; exact H.
Qed.

Section SortedByKeyFacts.
Context {R : PyRuntime}.

Lemma sorted_by_key_perm (ks : list (float * dict)) :
  Permutation (sorted_by_key ks) ks.
Proof.
  unfold sorted_by_key. destruct (existsb nan_key ks).
  - apply reorder_perm.
  - apply sorted_desc_perm.
Qed.

Lemma sorted_by_key_one (p : float * dict) : sorted_by_key [p] = [p].
Proof.
  apply Permutation_length_1_inv. symmetry. apply sorted_by_key_perm.
Qed.

End SortedByKeyFacts.

Lemma other_element {A} (l : list A) (x : A) :
  NoDup l -> (2 <= length l)%nat -> In x l ->
  exists y, In y l /\ x <> y.
Proof.
  destruct l as [|a [|b r]]; simpl; try lia. intros Hnd _ Hx.
  inversion Hnd as [|? ? Ha _]; subst.
  destruct Hx as [<-|Hx].
  - exists b. split; [auto|]. intros ->. apply Ha. left. reflexivity.
  - exists a. split; [auto|]. intros ->. apply Ha. exact Hx.
Qed.

Lemma pairwise_In {A} (p : A -> A -> bool) (l : list A) :
  (forall x y, p x y = p y x) ->
  pairwise p l = true ->
  forall x y, In x l -> In y l -> x <> y -> p x y = true.
Proof.
  intros Hsym. induction l as [|a r IH]; simpl; intros H x y Hx Hy Hne.
  - destruct Hx.
  - apply andb_true_iff in H as [Ha Hr]. rewrite forallb_forall in Ha.
    destruct Hx as [<-|Hx], Hy as [<-|Hy].
    + congruence.
    + apply Ha, Hy.
    + rewrite Hsym. apply Ha, Hx.
    + apply IH; assumption.
Qed.

Lemma pairwise_NoDup {A} (p : A -> A -> bool) (l : list A) :
  (forall x, p x x = false) -> pairwise p l = true -> NoDup l.
Proof.
  intros Hirr. induction l as [|a r IH]; simpl; intros H; [constructor|].
  apply andb_true_iff in H as [Ha Hr]. rewrite forallb_forall in Ha.
  constructor; [|apply IH, Hr].
  intros Hin. apply Ha in Hin. rewrite Hirr in Hin. discriminate.
Qed.

(** ** Hotspots: the twelve largest *)

Section LargestFacts.
Context {R : PyRuntime}.

Lemma bbox_of_ok (h : dict) :
  is_ok (_bbox h) = true -> _bbox h = Ok (bbox_of h).
Proof.
  unfold bbox_of. destruct (_bbox h); [reflexivity|discriminate].
Qed.

Lemma smaller_trans (a b c : dict) :
  smaller a b = true -> smaller b c = true -> smaller a c = true.
Proof. apply ltb_trans. Qed.

Lemma areas_differ_sym (h k : dict) : areas_differ h k = areas_differ k h.
Proof. apply orb_comm. Qed.

Lemma areas_differ_irrefl (h : dict) : areas_differ h h = false.
Proof. unfold areas_differ. rewrite ltb_irrefl. reflexivity. Qed.

Lemma apart_sym (h k : dict) : apart h k = apart k h.
Proof. apply andb_comm. Qed.

Lemma keyed_decorate (hs : list dict) :
  forallb (fun h => is_ok (_bbox h)) hs = true ->
  mapM keyed hs = Ok (map decorate hs).
Proof.
  induction hs as [|h r IH]; intros H; [reflexivity|].
  simpl in H. apply andb_true_iff in H as [Hh Hr].
  simpl. rewrite (IH Hr). unfold keyed, decorate, area_of.
  rewrite (bbox_of_ok h Hh). reflexivity.
Qed.

Lemma insert_decorated (x : dict) (l : list dict) :
  insert_desc key_lt (decorate x) (map decorate l)
  = map decorate (insert_desc smaller x l).
Proof.
  induction l as [|y r IH]; [reflexivity|]. simpl.
  change (key_lt (decorate x) (decorate y)) with (smaller x y).
  destruct (smaller x y); [|reflexivity].
  simpl. rewrite IH. reflexivity.
Qed.

(** Sorting the keyed hotspots is sorting the hotspots by area. *)
Lemma sorted_decorated (l : list dict) :
  map snd (sorted_desc key_lt (map decorate l)) = sorted_desc smaller l.
Proof.
  assert (H : sorted_desc key_lt (map decorate l)
              = map decorate (sorted_desc smaller l)).
  { induction l as [|x r IH]; [reflexivity|]. simpl.
    rewrite IH. apply insert_decorated. }
  rewrite H, map_map. simpl. apply map_id.
Qed.

Lemma clamp_field_get (h : dict) (key k' : pystr) :
  dict_get (clamp_field h key) k'
  = if str_eqb key k' then
      match dict_get h k' with
      | Some v =>
        match to_float v with
        | Ok f => Some (PFloat (fmax 0 (fmin 1 f)))
        | Raise _ => Some v
        end
      | None => None
      end
    else dict_get h k'.
Proof.
  unfold clamp_field.
  destruct (str_eqb key k') eqn:E.
  - apply str_eqb_eq in E. subst k'.
    destruct (dict_get h key) as [v|] eqn:Ek; [|exact Ek].
    destruct (to_float v); [|exact Ek].
    rewrite dict_get_set, str_eqb_refl. reflexivity.
  - destruct (dict_get h key) as [v|]; [|reflexivity].
    destruct (to_float v); [|reflexivity].
    rewrite dict_get_set, E. reflexivity.
Qed.

(** Clamping leaves alone the keys it does not visit. *)
Lemma clamp_fields_other (keys : list pystr) (k' : pystr) :
  forall h,
    forallb (fun key => negb (str_eqb key k')) keys = true ->
    dict_get (fold_left clamp_field keys h) k' = dict_get h k'.
Proof.
  induction keys as [|key keys IH]; intros h H; [reflexivity|].
  simpl in H. apply andb_true_iff in H as [Hk Hr].
  apply negb_true_iff in Hk.
  simpl. rewrite (IH _ Hr), clamp_field_get, Hk. reflexivity.
Qed.

(** A field that [float] accepts is still accepted after clamping. *)
Lemma clamp_field_floatable (h : dict) (key k' : pystr) (dflt : pyval) :
  floatable (get_or h k' dflt) = true ->
  floatable (get_or (clamp_field h key) k' dflt) = true.
Proof.
  unfold get_or. rewrite clamp_field_get.
  destruct (str_eqb key k'); [|exact (fun H => H)].
  destruct (dict_get h k') as [v|]; [|exact (fun H => H)].
  unfold floatable. destruct (to_float v); [reflexivity|discriminate].
Qed.

Lemma clamp_fields_floatable (keys : list pystr) (k' : pystr)
      (dflt : pyval) :
  forall h,
    floatable (get_or h k' dflt) = true ->
    floatable (get_or (fold_left clamp_field keys h) k' dflt) = true.
Proof.
  induction keys as [|key keys IH]; intros h H; [exact H|].
  simpl. apply IH, clamp_field_floatable, H.
Qed.

Ltac clamped_field h key dflt :=
  let E := fresh "E" in
  let f := fresh "f" in
  let F := fresh "F" in
  pose proof (clamp_fields_floatable GEOMETRY_KEYS key dflt h) as F;
  fold (clamp_geometry h) in F; unfold floatable in F;
  destruct (to_float (get_or h key dflt)) as [f|] eqn:E;
  [|discriminate];
  specialize (F eq_refl);
  destruct (to_float (get_or (clamp_geometry h) key dflt));
  [clear F E|discriminate F]; cbn [bind] in *.

(** The box of the clamped copy of a hotspot can be computed when that of
    the hotspot can. *)
Lemma bbox_clamped_ok (h : dict) :
  is_ok (_bbox h) = true -> is_ok (_bbox (clamp_geometry h)) = true.
Proof.
  unfold _bbox, get_or at 1 9.
  unfold clamp_geometry at 1.
  rewrite (clamp_fields_other GEOMETRY_KEYS (u "shape") h eq_refl).
  fold (get_or h (u "shape") PNone).
  destruct (as_str _) as [s|]; [|discriminate]. cbn [bind].
  destruct (str_eqb (lower s) (u "rect")).
  - clamped_field h (u "x") (PInt 0).
    clamped_field h (u "y") (PInt 0).
    clamped_field h (u "w") (PInt 0).
    clamped_field h (u "h") (PInt 0).
    reflexivity.
  - clamped_field h (u "cx") (PFloat 0.5).
    clamped_field h (u "cy") (PFloat 0.5).
    clamped_field h (u "r") (PFloat 0.1).
    reflexivity.
Qed.

Lemma absorb_none (h : dict) (kept : list dict) :
  (forall k, In k kept ->
             is_ok (_bbox k) = true /\
             hotspots_match (bbox_of h) (bbox_of k) = false) ->
  absorb (bbox_of h) h kept = Ok None.
Proof.
  induction kept as [|k r IH]; intros H; [reflexivity|]. simpl.
  destruct (H k (or_introl eq_refl)) as [Hk Hm].
  rewrite (bbox_of_ok k Hk). cbn [bind]. rewrite Hm, IH; [reflexivity|].
  intros k' Hk'. apply H. right. exact Hk'.
Qed.

(** Hotspots none of which matches the kept copy of another are all kept,
    clamped, in order. *)
Lemma dedupe_loop_apart (l : list dict) :
  forall pre,
    NoDup (pre ++ l) ->
    (forall x, In x (pre ++ l) -> is_ok (_bbox x) = true) ->
    (forall x y, In x (pre ++ l) -> In y (pre ++ l) -> x <> y ->
                 apart x y = true) ->
    dedupe_loop (map clamp_geometry pre) l
    = Ok (map clamp_geometry (pre ++ l)).
Proof.
  induction l as [|h r IH]; intros pre Hnd Hok Hap; simpl.
  - rewrite app_nil_r. reflexivity.
  - assert (Hh : In h (pre ++ h :: r))
      by (apply in_or_app; right; left; reflexivity).
    rewrite (bbox_of_ok h (Hok h Hh)). cbn [bind].
    rewrite absorb_none.
    + cbn [bind].
      replace (map clamp_geometry pre ++ [clamp_geometry h])
        with (map clamp_geometry (pre ++ [h]))
        by (rewrite map_app; reflexivity).
      replace (pre ++ h :: r) with ((pre ++ [h]) ++ r) in *
        by (rewrite <- app_assoc; reflexivity).
      apply IH; auto.
    + intros k' Hk'. apply in_map_iff in Hk' as (k & <- & Hk).
      assert (Hk' : In k (pre ++ h :: r))
        by (apply in_or_app; left; exact Hk).
      split; [apply bbox_clamped_ok, Hok, Hk'|].
      assert (Hne : h <> k).
      { intros <-. apply NoDup_remove_2 in Hnd. apply Hnd.
        apply in_or_app. left. exact Hk. }
      specialize (Hap h k Hh Hk' Hne). unfold apart in Hap.
      apply andb_true_iff in Hap as [Hap _].
      apply negb_true_iff in Hap. exact Hap.
Qed.

Lemma dedupe_length (hotspots : list pyval) (out : list dict) :
  dedupe_hotspots hotspots = Ok out -> (length out <= 12)%nat.
Proof.
  unfold dedupe_hotspots. intros E.
  destruct (mapM keyed _) as [ks|]; [|discriminate E]. cbn [bind] in E.
  destruct (dedupe_loop _ _) as [kept|]; [|discriminate E].
  cbn [bind] in E. apply Ok_inj in E. subst out.
  apply firstn_le_length.
Qed.

(** C3.  [dedupe_hotspots] never returns more than 12 entries.  And given
    at least 12 hotspots (14, say) whose boxes have pairwise different
    areas and of which no two match, it returns exactly 12 of them, each as
    its clamped copy: in descending order of area, every hotspot left out
    having a smaller area than every hotspot returned.  Where the hotspots
    lie in range, so that the clamp leaves them as they are, the entries
    returned are these 12 hotspots themselves. *)
Theorem dedupe_keeps_largest :
  (forall hotspots out,
     dedupe_hotspots hotspots = Ok out -> (length out <= 12)%nat) /\
  (forall hs : list dict,
     forallb (fun h => is_ok (_bbox h)) hs = true ->
     pairwise apart hs = true ->
     pairwise areas_differ hs = true ->
     (12 <= length hs)%nat ->
     exists top,
       dedupe_hotspots (map PDict hs) = Ok (map clamp_geometry top) /\
       length top = 12%nat /\
       incl top hs /\
       descending smaller top /\
       (forall h k, In h top -> In k hs -> ~ In k top ->
                    smaller k h = true) /\
       (Forall (fun h => clamp_geometry h = h) hs ->
        map clamp_geometry top = top)).
Proof.
  split; [apply dedupe_length|].
  intros hs Hok Hap Hdiff Hlen.
  pose proof (pairwise_NoDup _ _ areas_differ_irrefl Hdiff) as Hnd.
  pose proof (pairwise_In _ _ areas_differ_sym Hdiff) as Hd.
  pose proof (pairwise_In _ _ apart_sym Hap) as Ha.
  set (S := sorted_desc smaller hs).
  pose proof (sorted_desc_perm smaller hs) as Hperm. fold S in Hperm.
  assert (Hin : forall x, In x S <-> In x hs).
  { intros x. split; apply Permutation_in;
      [exact Hperm|symmetry; exact Hperm]. }
  assert (Hsorted : descending smaller S).
  { apply sorted_desc_descending; [exact smaller_trans|exact Hnd|].
    intros x y Hx Hy Hne. apply orb_true_iff. apply Hd; assumption. }
  assert (Hloop : dedupe_loop [] S = Ok (map clamp_geometry S)).
  { apply (dedupe_loop_apart S []); simpl.
    - eapply Permutation_NoDup; [symmetry; exact Hperm|exact Hnd].
    - intros x Hx. rewrite forallb_forall in Hok. apply Hok, Hin, Hx.
    - intros x y Hx Hy. apply Ha; apply Hin; assumption. }
  exists (firstn 12 S).
  assert (HS : S = firstn 12 S ++ skipn 12 S)
    by (symmetry; apply firstn_skipn).
  assert (Hincl : incl (firstn 12 S) hs).
  { intros x Hx. apply Hin. rewrite HS. apply in_or_app. left. exact Hx. }
  rewrite HS in Hsorted. apply descending_app in Hsorted as [Hfst Hcut].
  split; [|split; [|split; [|split; [|split]]]].
  - unfold dedupe_hotspots.
    replace (dicts_of (map PDict hs)) with hs.
    + rewrite (keyed_decorate hs Hok). cbn [bind].
      rewrite sorted_by_key_plain.
      2:{ destruct (existsb nan_key (map decorate hs)) eqn:En;
            [|reflexivity].
          apply existsb_exists in En as (p & Hp & Hnan).
          apply in_map_iff in Hp as (h & <- & Hh).
          destruct (other_element hs h Hnd) as (k & Hk & Hne);
            [lia|exact Hh|].
          specialize (Hd h k Hh Hk Hne). unfold areas_differ in Hd.
          unfold nan_key, decorate in Hnan. cbn [fst] in Hnan.
          apply orb_true_iff in Hd as [Hd|Hd];
            apply ltb_not_nan in Hd as [E1 E2];
            [rewrite E1 in Hnan|rewrite E2 in Hnan]; discriminate Hnan. }
      rewrite sorted_decorated. fold S. rewrite Hloop. cbn [bind].
      rewrite firstn_map. reflexivity.
    + clear. induction hs as [|h r IH]; [reflexivity|].
      unfold dicts_of in *. simpl. rewrite <- IH. reflexivity.
  - apply firstn_length_le.
    rewrite (Permutation_length Hperm). exact Hlen.
  - exact Hincl.
  - exact Hfst.
  - intros h k Hh Hk Hnot. apply Hcut; [exact Hh|].
    apply Hin in Hk. rewrite HS in Hk.
    apply in_app_or in Hk as [Hk|Hk]; [contradiction|exact Hk].
  - intros Hcl. rewrite Forall_forall in Hcl.
    rewrite <- (map_id (firstn 12 S)) at 2.
    apply map_ext_in. intros x Hx. apply Hcl, Hincl, Hx.
Qed.

End LargestFacts.

Lemma dedupe_keeps_largest_witness :
  exists top,
    dedupe_hotspots (R := ascii_runtime) (map PDict fourteen) = Ok top /\
    length top = 12%nat /\ incl top fourteen.
Proof.
  destruct (proj2 (dedupe_keeps_largest (R := ascii_runtime)) fourteen)
    as (top & E & Hlen & Hincl & _ & _ & Hsame).
  - vm_compute. reflexivity.
  - vm_compute. reflexivity.
  - vm_compute. reflexivity.
  - vm_compute. lia.
  - exists top. rewrite Hsame in E; [auto|].
    repeat (constructor; [vm_compute; reflexivity|]). constructor.
Defined.

(** ** Hotspots: what the clamping loop leaves *)

Lemma geometry_keys_NoDup : NoDup GEOMETRY_KEYS.
Proof.
  repeat (constructor;
          [simpl; intros H;
           repeat (destruct H as [H|H]; [discriminate H|]); exact H|]).
  constructor.
Qed.

Section ClampedFrom.
Context {R : PyRuntime}.
Hypothesis set_law : set_list_law R.

Lemma clamp_fields_get (keys : list pystr) :
  NoDup keys ->
  forall h key,
    In key keys ->
    dict_get (fold_left clamp_field keys h) key = clamp_value (dict_get h key).
Proof.
  induction 1 as [|k ks Hk Hnd IH]; intros h key Hin; [destruct Hin|].
  simpl. destruct Hin as [->|Hin].
  - rewrite clamp_fields_other.
    + rewrite clamp_field_get, str_eqb_refl. reflexivity.
    + apply forallb_forall. intros k' Hk'. apply negb_true_iff.
      destruct (str_eqb k' key) eqn:E; [|reflexivity].
      apply str_eqb_eq in E. subst k'. contradiction.
  - rewrite (IH _ _ Hin), clamp_field_get.
    destruct (str_eqb k key) eqn:E; [|reflexivity].
    apply str_eqb_eq in E. subst k. contradiction.
Qed.

(** The copy the loop keeps of a hotspot: under a geometry key, the float
    of the value cut to [0,1], or the value itself where [float] rejects
    it. *)
Lemma clamp_geometry_get (h : dict) (key : pystr) :
  In key GEOMETRY_KEYS ->
  dict_get (clamp_geometry h) key = clamp_value (dict_get h key).
Proof. apply clamp_fields_get, geometry_keys_NoDup. Qed.

Lemma absorb_geometry (S : dict -> Prop) (b : bbox) (h : dict)
      (kept kept' : list dict) :
  absorb b h kept = Ok (Some kept') ->
  Forall (fun o => exists x, S x /\ clamped_from o x) kept ->
  Forall (fun o => exists x, S x /\ clamped_from o x) kept'.
Proof.
  revert kept'. induction kept as [|k r IH]; intros kept' E Hk; simpl in E.
  - discriminate E.
  - inversion Hk as [|? ? Hk1 Hk2]; subst.
    destruct (_bbox k) as [bk|]; [|discriminate E]. cbn [bind] in E.
    destruct (hotspots_match b bk).
    + destruct (_merge k h) as [m|] eqn:Em; [|discriminate E].
      cbn [bind] in E. apply Ok_inj in E. injection E as <-.
      constructor; [|exact Hk2].
      destruct Hk1 as (x & Hx & Hfrom). exists x. split; [exact Hx|].
      intros key Hkey.
      rewrite (merge_geometry k h m key Em Hkey). apply Hfrom, Hkey.
    + destruct (absorb b h r) as [[r'|]|]; try discriminate E.
      cbn [bind] in E. apply Ok_inj in E. injection E as <-.
      constructor; [exact Hk1|apply IH; auto].
Qed.

Lemma dedupe_loop_geometry (S : dict -> Prop) (hs : list dict) :
  forall kept out,
    dedupe_loop kept hs = Ok out ->
    Forall (fun o => exists x, S x /\ clamped_from o x) kept ->
    (forall h, In h hs -> S h) ->
    Forall (fun o => exists x, S x /\ clamped_from o x) out.
Proof.
  induction hs as [|h r IH]; intros kept out E Hk HS; simpl in E.
  - apply Ok_inj in E. subst. exact Hk.
  - destruct (_bbox h) as [b|]; [|discriminate E]. cbn [bind] in E.
    destruct (absorb b h kept) as [[kept'|]|] eqn:Ea; try discriminate E;
      cbn [bind] in E.
    + apply (IH kept' out E).
      * eapply absorb_geometry; eauto.
      * intros x Hx. apply HS. right. exact Hx.
    + apply (IH (kept ++ [clamp_geometry h]) out E).
      * apply Forall_app. split; [exact Hk|].
        constructor; [|constructor].
        exists h. split; [apply HS; left; reflexivity|].
        intros key Hkey. apply clamp_geometry_get, Hkey.
      * intros x Hx. apply HS. right. exact Hx.
Qed.

(** Every entry returned is the clamped copy of a hotspot of the input, as
    far as its geometry goes. *)
Lemma dedupe_clamped_from (hotspots : list pyval) (out : list dict) :
  dedupe_hotspots hotspots = Ok out ->
  Forall (fun o => exists h, In (PDict h) hotspots /\ clamped_from o h) out.
Proof.
  unfold dedupe_hotspots. intros E.
  destruct (mapM keyed (dicts_of hotspots)) as [ks|] eqn:Ek;
    [|discriminate E].
  cbn [bind] in E.
  destruct (dedupe_loop _ _) as [kept|] eqn:El; [|discriminate E].
  cbn [bind] in E. apply Ok_inj in E. subst out.
  assert (H : Forall (fun o => exists h, In (PDict h) hotspots /\
                                         clamped_from o h) kept).
  { apply (dedupe_loop_geometry (fun h => In (PDict h) hotspots) _ _ _ El);
      [constructor|].
    intros h Hh. apply in_map_iff in Hh as ([a h'] & <- & Hin).
    apply (proj1 (sorted_by_key_In _ _)) in Hin.
    destruct (mapM_In _ _ _ _ Ek Hin) as (x & Hx & Ex).
    unfold keyed in Ex. destruct (_bbox x); [|discriminate Ex].
    cbn [bind] in Ex. apply Ok_inj in Ex. injection Ex as _ <-.
    unfold dicts_of in Hx. apply in_flat_map in Hx as (v & Hv & Hx).
    destruct v; simpl in Hx; try contradiction.
    destruct Hx as [<-|[]]. exact Hv. }
  apply Forall_forall. intros o Ho. rewrite Forall_forall in H.
  apply H. rewrite <- (firstn_skipn 12 kept). apply in_or_app.
  left. exact Ho.
Qed.

(** C4, as the code has it.  Every hotspot [dedupe_hotspots] returns,
    merged or not, has the geometry of a hotspot of the input after the
    clamping loop: under each geometry key, nothing where that hotspot has
    nothing, the float of its value cut to [0,1] where [float] accepts the
    value, and the value itself, left as it came, where [float] rejects
    it.  So every geometry field present is a float of [0,1] or a value
    [float] rejects.  And on hotspots of the data model, with numbers that
    [float] accepts in their geometry fields (zero-area boxes, coordinates
    of any size or sign, infinities and NaN included), [dedupe_hotspots]
    returns and raises nothing. *)
Theorem dedupe_clamps :
  (forall hotspots out,
     dedupe_hotspots hotspots = Ok out ->
     Forall (fun o =>
               clamped o /\
               exists h, In (PDict h) hotspots /\ clamped_from o h) out) /\
  (forall v,
     (exists e, to_float v = Raise e) /\ clamp_value (Some v) = Some v \/
     (exists f, clamp_value (Some v) = Some (PFloat f) /\
                in_unit_interval f)) /\
  (forall hotspots,
     forallb hotspot_ok (dicts_of hotspots) = true ->
     exists out,
       dedupe_hotspots hotspots = Ok out /\ Forall clamped out).
Proof.
  split; [|split].
  - intros hotspots out E.
    pose proof (dedupe_clamped hotspots out E) as H1.
    pose proof (dedupe_clamped_from hotspots out E) as H2.
    rewrite Forall_forall in *. intros o Ho. split; [apply H1|apply H2]; exact Ho.
  - intros v. unfold clamp_value. destruct (to_float v) as [f|e].
    + right. eexists. split; [reflexivity|apply clamp_in_unit].
    + left. split; [exists e|]; reflexivity.
  - intros hotspots H. destruct (dedupe_total set_law hotspots H) as (out & E).
    exists out. split; [exact E|]. eapply dedupe_clamped, E.
Qed.

End ClampedFrom.

Lemma dedupe_clamps_witness :
  exists out,
    dedupe_hotspots (R := ascii_runtime) odd_hotspots = Ok out /\
    Forall clamped out.
Proof.
  exact (proj2 (proj2 (dedupe_clamps (R := ascii_runtime) ascii_set_list_law))
               odd_hotspots eq_refl).
Defined.

(** C4 as worded fails: an integer too large for a float, in a geometry
    field that the box of the hotspot does not read, is returned as it
    came. *)
Lemma huge_integer_not_clamped : ~ numbers_clamped (R := ascii_runtime).
Proof.
  intros H.
  assert (E1 : dedupe_hotspots (R := ascii_runtime) [PDict huge_x]
               = Ok [huge_x]) by (vm_compute; reflexivity).
  assert (E2 : In (u "x") GEOMETRY_KEYS) by (left; reflexivity).
  assert (E3 : dict_get huge_x (u "x") = Some (PInt (10 ^ 400)))
    by (vm_compute; reflexivity).
  destruct (H [PDict huge_x] [huge_x] huge_x (u "x") (PInt (10 ^ 400))
              E1 (or_introl eq_refl) E2 E3 eq_refl) as [_ Hle].
  apply Z.leb_le in Hle. vm_compute in Hle. discriminate Hle.
Qed.

(** In a field the box reads, such an integer makes [dedupe_hotspots]
    raise. *)
Remark huge_integer_raises :
  dedupe_hotspots (R := ascii_runtime)
    [PDict [(u "shape", PStr (u "rect")); (u "x", PInt (10 ^ 400))]]
  = Raise OverflowError.
Proof. vm_compute. reflexivity. Qed.

(** ** Hotspots: what a merge does to [suggested_edits] *)

(** C2 at two hotspots on the same spot that suggest the same edit: the
    merged entry has the union of the risks, but the edit twice. *)
Theorem merged_edits_repeat :
  exists m,
    dedupe_hotspots (R := ascii_runtime) [PDict twin_a; PDict twin_b]
    = Ok [m] /\
    get_or m (u "risks") PNone = PList [PStr (u "flag")] /\
    get_or m (u "suggested_edits") PNone
    = PList [PStr (u "blur"); PStr (u "blur")] /\
    ~ NoDup [PStr (u "blur"); PStr (u "blur")].
Proof.
  eexists. split; [vm_compute; reflexivity|].
  split; [reflexivity|]. split; [reflexivity|].
  intros H. inversion H as [|? ? Hn _]; subst. apply Hn. left. reflexivity.
Qed.

(* ================================================================== *)
(** * Part VI. Further properties of the code *)
(* ================================================================== *)

(** ** Score classifier, on every integer *)

Lemma level_of_clamp (s : Z) : level_of s = level_of (clamp_score s).
Proof.
  unfold level_of, clamp_score. f_equal. lia.
Qed.

Lemma level_scan_bands (s : Z) :
  0 <= s <= 25 ->
  (s <= 5 -> level_scan s LEVELS = L_VERY_RISKY) /\
  (6 <= s <= 10 -> level_scan s LEVELS = L_RISK) /\
  (11 <= s <= 15 -> level_scan s LEVELS = L_CAUTION) /\
  (16 <= s <= 20 -> level_scan s LEVELS = L_SAFE) /\
  (21 <= s -> level_scan s LEVELS = L_VERY_SAFE).
Proof.
  intros H. simpl.
  repeat split; intros C; band_tests; reflexivity.
Qed.

Lemma level_of_bands (s : Z) :
  (s <= 5 -> level_of s = L_VERY_RISKY) /\
  (6 <= s <= 10 -> level_of s = L_RISK) /\
  (11 <= s <= 15 -> level_of s = L_CAUTION) /\
  (16 <= s <= 20 -> level_of s = L_SAFE) /\
  (21 <= s -> level_of s = L_VERY_SAFE).
Proof.
  assert (Hc : 0 <= Z.max 0 (Z.min 25 s) <= 25) by lia.
  destruct (level_scan_bands _ Hc) as (B1 & B2 & B3 & B4 & B5).
  change (level_of s) with (level_scan (Z.max 0 (Z.min 25 s)) LEVELS).
  repeat split; intros C;
    [apply B1|apply B2|apply B3|apply B4|apply B5]; lia.
Qed.

Lemma level_of_five (s : Z) : In (level_of s) FIVE_LEVELS.
Proof.
  destruct (level_of_bands s) as (A1 & A2 & A3 & A4 & A5).
  destruct (Z.le_gt_cases s 5) as [C|C]; [rewrite (A1 C); simpl; auto 10|].
  destruct (Z.le_gt_cases s 10) as [C1|C1];
    [rewrite A2 by lia; simpl; auto 10|].
  destruct (Z.le_gt_cases s 15) as [C2|C2];
    [rewrite A3 by lia; simpl; auto 10|].
  destruct (Z.le_gt_cases s 20) as [C3|C3];
    [rewrite A4 by lia; simpl; auto 10|].
  rewrite A5 by lia. simpl. auto 10.
Qed.

(** X1.  [level_of] answers for every integer, not only for those of
    [0,25]: the score is clamped first, so a score of 5 or less, negative
    ones included, is "very risky", a score of 21 or more, however large,
    is "very safe", and the three bands between are as in [LEVELS].  The
    sentinel is never returned. *)
Theorem level_of_every_integer (s : Z) :
  level_of s = level_of (clamp_score s) /\
  In (level_of s) FIVE_LEVELS /\
  (s <= 5 -> level_of s = L_VERY_RISKY) /\
  (6 <= s <= 10 -> level_of s = L_RISK) /\
  (11 <= s <= 15 -> level_of s = L_CAUTION) /\
  (16 <= s <= 20 -> level_of s = L_SAFE) /\
  (21 <= s -> level_of s = L_VERY_SAFE).
Proof.
  split; [apply level_of_clamp|].
  split; [apply level_of_five|apply level_of_bands].
Qed.

Lemma level_of_every_integer_witness :
  level_of (-40) = L_VERY_RISKY /\ level_of 1000 = L_VERY_SAFE /\
  level_of 8 = L_RISK.
Proof.
  destruct (level_of_every_integer (-40)) as (_ & _ & A & _).
  destruct (level_of_every_integer 1000) as (_ & _ & _ & _ & _ & _ & B).
  destruct (level_of_every_integer 8) as (_ & _ & _ & C & _).
  split; [apply A; lia|]. split; [apply B; lia|apply C; lia].
Defined.

Lemma severity_rank_bands (s : Z) :
  (s <= 5 -> severity_rank (level_of s) = 4) /\
  (6 <= s <= 10 -> severity_rank (level_of s) = 3) /\
  (11 <= s <= 15 -> severity_rank (level_of s) = 2) /\
  (16 <= s <= 20 -> severity_rank (level_of s) = 1) /\
  (21 <= s -> severity_rank (level_of s) = 0).
Proof.
  destruct (level_of_bands s) as (A1 & A2 & A3 & A4 & A5).
  repeat split; intros C;
    [rewrite (A1 C)|rewrite (A2 C)|rewrite (A3 C)|rewrite (A4 C)
    |rewrite (A5 C)]; reflexivity.
Qed.

(** X2.  The rank of the level falls as the score rises: a higher score
    never has a more severe level, and the rank of a level [level_of]
    returns lies between 0 (very safe) and 4 (very risky). *)
Theorem severity_rank_antitone (s s' : Z) (Hle : s <= s') :
  severity_rank (level_of s') <= severity_rank (level_of s) /\
  0 <= severity_rank (level_of s) <= 4.
Proof.
  destruct (severity_rank_bands s) as (A1 & A2 & A3 & A4 & A5).
  destruct (severity_rank_bands s') as (B1 & B2 & B3 & B4 & B5).
  assert (Cs : s <= 5 \/ 6 <= s <= 10 \/ 11 <= s <= 15 \/
               16 <= s <= 20 \/ 21 <= s) by lia.
  assert (Cs' : s' <= 5 \/ 6 <= s' <= 10 \/ 11 <= s' <= 15 \/
                16 <= s' <= 20 \/ 21 <= s') by lia.
  destruct Cs as [C|[C|[C|[C|C]]]];
    [rewrite (A1 C)|rewrite (A2 C)|rewrite (A3 C)|rewrite (A4 C)
    |rewrite (A5 C)];
    (split; [|lia]);
    destruct Cs' as [D|[D|[D|[D|D]]]];
    first [rewrite (B1 D)|rewrite (B2 D)|rewrite (B3 D)|rewrite (B4 D)
          |rewrite (B5 D)]; lia.
Qed.

Lemma severity_rank_antitone_witness :
  severity_rank (level_of 17) <= severity_rank (level_of 4).
Proof.
  assert (H : 4 <= 17) by lia.
  exact (proj1 (severity_rank_antitone 4 17 H)).
Defined.

(** X3.  [level_color] never answers the gray of an unknown level: for
    every integer score it is the palette colour listed for the level of
    the score, and the five levels have five different colours. *)
Theorem level_color_in_palette (s : Z) :
  In (level_of s, level_color s) PALETTE /\
  level_color s <> GRAY /\
  NoDup (map snd PALETTE).
Proof.
  pose proof (level_of_five s) as Hin.
  unfold level_color.
  split; [|split].
  - simpl in Hin.
    repeat (destruct Hin as [<-|Hin]; [simpl; auto 10|]). destruct Hin.
  - simpl in Hin.
    repeat (destruct Hin as [<-|Hin]; [vm_compute; discriminate|]).
    destruct Hin.
  - vm_compute.
    repeat (constructor; [simpl; intros D;
      repeat (destruct D as [D|D]; [discriminate D|]); exact D|]).
    constructor.
Qed.

(** ** Aggregator: what the worst score is *)

Section AggregatorMore.
Context {R : PyRuntime}.

Lemma min_dim_least (dims : list pyval) :
  forallb axis_ok dims = true ->
  exists a sc l,
    min_dim dims = Ok (a, sc, l) /\
    (forall d, In d dims -> sc <= score_of d) /\
    (dims = [] -> sc = 25 /\ a = PStr []) /\
    (dims <> [] -> exists d, In d dims /\ score_of d = sc /\ a = name_of d).
Proof.
  intros Hok. destruct dims as [|d0 r].
  - exists (PStr []), 25, L_NONE. repeat split; try reflexivity.
    + intros d [].
    + congruence.
  - destruct (list_has_min (map score_of (d0 :: r))) as (m & Hm);
      [discriminate|].
    destruct (min_dim_first _ _ Hok Hm) as (w & Hw & E).
    exists (name_of w), m, (level_of m).
    split; [exact E|]. split; [|split; [discriminate|]].
    + intros d Hd. apply (proj2 Hm). apply in_map, Hd.
    + intros _. exists w. apply find_some in Hw as [Hin Hs].
      apply Z.eqb_eq in Hs. auto.
Qed.

Lemma overall_least (t i : list pyval) :
  forallb axis_ok t = true -> forallb axis_ok i = true ->
  exists v,
    overall_from_text_image t i = Ok v /\
    (forall d, In d (t ++ i) -> worst_score v <= score_of d) /\
    (t <> [] -> i <> [] ->
     exists d, In d (t ++ i) /\ score_of d = worst_score v /\
               worst_axis v = name_of d) /\
    (t = [] -> i = [] ->
     worst_score v = 25 /\ worst_src v = SRC_TEXT /\
     worst_axis v = PStr [] /\ level v = L_VERY_SAFE).
Proof.
  intros Ht Hi.
  destruct (min_dim_least t Ht) as (ta & ts & tl & Et & Tle & Tnil & Tne).
  destruct (min_dim_least i Hi) as (ia & is_ & il & Ei & Ile & Inil & Ine).
  destruct (overall_shape _ _ _ _ _ _ _ _ Et Ei)
    as (v & Ev & Hsrc & Hax & Hsc & Hl).
  exists v. split; [exact Ev|].
  rewrite Hl, Hsrc, Hax, Hsc.
  destruct (Z.leb_spec ts is_) as [Hle|Hgt].
  - split; [|split].
    + intros d Hd. apply in_app_or in Hd as [Hd|Hd].
      * apply Tle, Hd.
      * specialize (Ile d Hd). lia.
    + intros Hta _. destruct (Tne Hta) as (d & Hd & Hs & Ha).
      exists d. split; [apply in_or_app; left; exact Hd|auto].
    + intros Et0 Ei0. destruct (Tnil Et0) as [-> ->].
      repeat split; reflexivity.
  - split; [|split].
    + intros d Hd. apply in_app_or in Hd as [Hd|Hd].
      * specialize (Tle d Hd). lia.
      * apply Ile, Hd.
    + intros _ Hia. destruct (Ine Hia) as (d & Hd & Hs & Ha).
      exists d. split; [apply in_or_app; right; exact Hd|auto].
    + intros Et0 Ei0. destruct (Tnil Et0) as [-> _].
      destruct (Inil Ei0) as [-> _]. lia.
Qed.

(** X4.  The worst score of the verdict is below or equal to the score of
    every assessment of both lists; with two non-empty lists it is the
    score of one of them, whose name is the worst axis; with two empty
    lists the verdict is the sentinel's score 25 under the source "text",
    with an empty axis name and the level "very safe". *)
Theorem overall_worst_is_least (t i : list pyval)
        (Ht : forallb axis_ok t = true) (Hi : forallb axis_ok i = true) :
  exists v,
    overall_from_text_image t i = Ok v /\
    (forall d, In d (t ++ i) -> worst_score v <= score_of d) /\
    (t <> [] -> i <> [] ->
     exists d, In d (t ++ i) /\ score_of d = worst_score v /\
               worst_axis v = name_of d) /\
    (t = [] -> i = [] ->
     worst_score v = 25 /\ worst_src v = SRC_TEXT /\
     worst_axis v = PStr [] /\ level v = L_VERY_SAFE).
Proof. exact (overall_least t i Ht Hi). Qed.

Lemma overall_banner (t i : list pyval) (v : verdict) :
  overall_from_text_image t i = Ok v ->
  bg v = level_color (worst_score v) /\
  level v = level_of (worst_score v).
Proof.
  intros Hv. unfold overall_from_text_image in Hv.
  destruct (min_dim t) as [[[ta ts] tl]|]; [|discriminate Hv].
  destruct (min_dim i) as [[[ia is_] il]|]; [|discriminate Hv].
  cbn [bind] in Hv.
  set (sc := if ts <=? is_ then ts else is_).
  assert (Hsc : forall (A : Type) (f : pystr * pyval * Z -> A),
            f (if ts <=? is_ then (SRC_TEXT, ta, ts)
               else (SRC_IMAGE, ia, is_))
            = f (if ts <=? is_ then SRC_TEXT else SRC_IMAGE,
                 if ts <=? is_ then ta else ia, sc)).
  { intros A f. unfold sc. destruct (ts <=? is_); reflexivity. }
  pose proof (level_of_five sc) as Hin.
  unfold level_color.
  destruct (ts <=? is_); fold sc in Hv; cbv zeta iota beta in Hv;
    simpl in Hin;
    repeat (destruct Hin as [Hin|Hin];
            [rewrite <- Hin in Hv; apply Ok_inj in Hv; subst v;
             cbn [bg level worst_score]; rewrite <- Hin;
             split; reflexivity|]);
    destruct Hin.
Qed.

(** X5.  The banner of a verdict has the colour [level_color] gives its
    worst score, and the level [level_of] gives it: banner and status chip
    agree. *)
Theorem overall_banner_colour (t i : list pyval) (v : verdict)
        (Hv : overall_from_text_image t i = Ok v) :
  bg v = level_color (worst_score v) /\
  level v = level_of (worst_score v).
Proof. exact (overall_banner t i v Hv). Qed.

(** X6.  In the verdict an assessment without a [score] counts as score 0:
    one such assessment in either list brings the worst score to 0 or below
    and the level to "very risky". *)
Theorem overall_unscored (t i : list pyval) (d : dict)
        (Ht : forallb axis_ok t = true) (Hi : forallb axis_ok i = true)
        (Hd : In (PDict d) (t ++ i))
        (Hnone : dict_get d (u "score") = None) :
  exists v,
    overall_from_text_image t i = Ok v /\
    worst_score v <= 0 /\ level v = L_VERY_RISKY.
Proof.
  destruct (overall_least t i Ht Hi) as (v & Ev & Hle & _).
  exists v. split; [exact Ev|].
  assert (H0 : score_of (PDict d) = 0).
  { unfold score_of, score_key, get_or. cbn [as_dict bind].
    rewrite Hnone. reflexivity. }
  specialize (Hle _ Hd). rewrite H0 in Hle.
  split; [exact Hle|].
  rewrite (proj2 (overall_banner t i v Ev)).
  apply level_of_bands. lia.
Qed.

End AggregatorMore.

Lemma overall_banner_colour_witness :
  exists v,
    overall_from_text_image (R := ascii_runtime)
      sample_text_axes sample_image_axes = Ok v /\
    bg v = level_color (worst_score v).
Proof.
  destruct (overall_from_text_image (R := ascii_runtime)
              sample_text_axes sample_image_axes) as [v|e] eqn:E;
    [|vm_compute in E; discriminate E].
  exists v. split; [reflexivity|].
  exact (proj1 (overall_banner_colour (R := ascii_runtime) _ _ v E)).
Defined.

Lemma overall_worst_is_least_witness :
  exists v,
    overall_from_text_image (R := ascii_runtime) [] high_axes = Ok v /\
    worst_score v <= 30.
Proof.
  destruct (overall_worst_is_least (R := ascii_runtime) [] high_axes
              eq_refl eq_refl) as (v & Ev & Hle & _).
  exists v. split; [exact Ev|].
  apply (Hle (PDict [(u "name", PStr (u "Social")); (u "score", PInt 30)])).
  left. reflexivity.
Defined.

Lemma overall_unscored_witness :
  exists v,
    overall_from_text_image (R := ascii_runtime) unscored_axes [] = Ok v /\
    worst_score v <= 0 /\ level v = L_VERY_RISKY.
Proof.
  exact (overall_unscored (R := ascii_runtime) unscored_axes []
           [(u "name", PStr (u "Cultural"))] eq_refl eq_refl
           (or_intror (or_introl eq_refl)) eq_refl).
Defined.

(** ** Text normaliser and policy filter: the shape of the output *)

Lemma strip_ends (t : pystr) :
  starts_ok (strip t) = true /\ starts_ok (rev (strip t)) = true.
Proof.
  unfold strip.
  set (a := lstrip t). set (b := lstrip (rev a)).
  assert (Ha : starts_ok a = true) by apply lstrip_starts_ok.
  assert (Hb : starts_ok b = true) by apply lstrip_starts_ok.
  rewrite rev_involutive. split; [|exact Hb].
  destruct (lstrip_split (rev a)) as (w & E & _). fold b in E.
  apply (f_equal (@rev _)) in E.
  rewrite rev_involutive, rev_app_distr in E.
  rewrite E in Ha. eapply starts_ok_prefix, Ha.
Qed.

Section TextMore.
Context {R : PyRuntime}.

(** X7.  Whatever it is given, [strip_circled] returns a text with no
    enumeration glyph, no two whitespace characters in a row and no
    whitespace at either end; normalising that text again changes
    nothing. *)
Theorem strip_circled_normal_form (x : pyval) :
  no_circled (strip_circled x) = true /\
  no_ws_pair (strip_circled x) = true /\
  starts_ok (strip_circled x) = true /\
  starts_ok (rev (strip_circled x)) = true /\
  strip_circled (PStr (strip_circled x)) = strip_circled x.
Proof.
  destruct (strip_circled_normal x) as [E|E]; rewrite E.
  - repeat split; reflexivity.
  - fold (normalize (to_str x)).
    assert (Hc : no_circled (normalize (to_str x)) = true).
    { apply strip_no_circled, collapse_go_no_circled; [exact I|].
      apply remove_circled_no_circled. }
    assert (Hw : no_ws_pair (normalize (to_str x)) = true).
    { apply strip_no_ws_pair, collapse_go_no_ws_pair. }
    destruct (strip_ends (collapse_ws (remove_circled (to_str x))))
      as [H1 H2].
    repeat split; try assumption.
    destruct (normalize (to_str x)) eqn:En; [reflexivity|].
    rewrite strip_circled_str by discriminate.
    rewrite <- En. apply normalize_idempotent.
Qed.

Lemma sanitize_loop_filter (lines : list pyval) :
  sanitize_loop lines = filter keeps (map strip_circled lines).
Proof.
  induction lines as [|x r IH]; [reflexivity|]. simpl.
  destruct (strip_circled x) as [|c t]; [exact IH|]. simpl.
  destruct (_looks_performance (c :: t)); simpl; rewrite IH; reflexivity.
Qed.

(** X8.  [sanitize_lines] returns either the single fallback line, when no
    line is kept, or the normalised input lines that are not empty and that
    the keyword filter does not match, in input order; every line it
    returns then is non-empty, normalised and free of banned keywords, and
    it never returns more lines than it was given (one, for the
    fallback). *)
Theorem sanitize_lines_output (lines : list pyval) :
  (filter keeps (map strip_circled lines) = [] /\
   sanitize_lines lines = [FALLBACK]
   \/
   sanitize_lines lines = filter keeps (map strip_circled lines) /\
   Forall kept_line (sanitize_lines lines)) /\
  (length (sanitize_lines lines) <= Nat.max 1 (length lines))%nat.
Proof.
  pose proof (sanitize_loop_filter lines) as Ef.
  pose proof (sanitize_loop_kept lines) as Hk.
  assert (Hlen : (length (sanitize_loop lines) <= length lines)%nat).
  { rewrite Ef. rewrite <- (length_map strip_circled lines).
    apply filter_length_le. }
  unfold sanitize_lines.
  destruct (sanitize_loop lines) as [|t r] eqn:E.
  - split; [left; split; [symmetry; exact Ef|reflexivity]|].
    change (length [FALLBACK]) with 1%nat. lia.
  - split; [right; split; [exact Ef|exact Hk]|]. lia.
Qed.

(** Sanitising twice is sanitising once. *)
Lemma sanitize_lines_twice (lines : list pyval) :
  sanitize_lines (map PStr (sanitize_lines lines)) = sanitize_lines lines.
Proof.
  pose proof (sanitize_loop_kept lines) as Hk.
  unfold sanitize_lines at 2 3.
  destruct (sanitize_loop lines) as [|t r] eqn:E.
  - apply sanitize_fallback.
  - unfold sanitize_lines. rewrite (sanitize_loop_fixed _ Hk). reflexivity.
Qed.

Lemma sanitize_lines_not_nil (lines : list pyval) :
  sanitize_lines lines <> [].
Proof.
  unfold sanitize_lines. destruct (sanitize_loop lines); discriminate.
Qed.

(** ** [esc] and [attr_esc] *)

Lemma esc_text_app (a b : pystr) :
  esc_text (a ++ b) = esc_text a ++ esc_text b.
Proof. unfold esc_text. rewrite !replace_char_app. reflexivity. Qed.

Lemma esc_text_one (c : codepoint) : esc_text [c] = esc_char3 c.
Proof.
  unfold esc_char3.
  destruct (N.eqb_spec c AMP) as [->|H1]; [reflexivity|].
  destruct (N.eqb_spec c LT) as [->|H2]; [reflexivity|].
  destruct (N.eqb_spec c GT) as [->|H3]; [reflexivity|].
  apply N.eqb_neq in H1, H2, H3.
  unfold esc_text, replace_char. simpl.
  rewrite H1. simpl. rewrite H2. simpl. rewrite H3. reflexivity.
Qed.

Lemma esc_text_cons (c : codepoint) (s : pystr) :
  esc_text (c :: s) = esc_char3 c ++ esc_text s.
Proof.
  change (c :: s) with ([c] ++ s).
  rewrite esc_text_app, esc_text_one. reflexivity.
Qed.

Lemma esc_text_escaped (s : pystr) : escaped (esc_text s).
Proof.
  induction s as [|c s IH]; [constructor|].
  rewrite esc_text_cons. unfold esc_char3.
  destruct (N.eqb_spec c AMP) as [->|H1];
    [apply escaped_entity; [simpl; auto|exact IH]|].
  destruct (N.eqb_spec c LT) as [->|H2];
    [apply escaped_entity; [simpl; auto|exact IH]|].
  destruct (N.eqb_spec c GT) as [->|H3];
    [apply escaped_entity; [simpl; auto|exact IH]|].
  apply escaped_char; assumption.
Qed.

Lemma attr_text_one (c : codepoint) :
  replace_char SQUOTE E_APOS (replace_char DQUOTE E_DQUOTE (esc_text [c]))
  = attr_char c.
Proof.
  unfold attr_char.
  destruct (N.eqb_spec c AMP) as [->|H1]; [reflexivity|].
  destruct (N.eqb_spec c LT) as [->|H2]; [reflexivity|].
  destruct (N.eqb_spec c GT) as [->|H3]; [reflexivity|].
  destruct (N.eqb_spec c DQUOTE) as [->|H4]; [reflexivity|].
  destruct (N.eqb_spec c SQUOTE) as [->|H5]; [reflexivity|].
  apply N.eqb_neq in H1, H2, H3, H4, H5.
  unfold esc_text, replace_char. simpl.
  rewrite H1. simpl. rewrite H2. simpl. rewrite H3. simpl.
  rewrite H4. simpl. rewrite H5. reflexivity.
Qed.

Lemma attr_text_flat (s : pystr) :
  replace_char SQUOTE E_APOS (replace_char DQUOTE E_DQUOTE (esc_text s))
  = flat_map attr_char s.
Proof.
  induction s as [|c s IH]; [reflexivity|].
  change (c :: s) with ([c] ++ s).
  rewrite esc_text_app, !replace_char_app, attr_text_one, IH. reflexivity.
Qed.

Lemma attr_char_safe (c x : codepoint) :
  In x (attr_char c) ->
  x <> LT /\ x <> GT /\ x <> DQUOTE /\ x <> SQUOTE.
Proof.
  unfold attr_char.
  destruct (N.eqb_spec c AMP) as [->|H1];
    [|destruct (N.eqb_spec c LT) as [->|H2];
      [|destruct (N.eqb_spec c GT) as [->|H3];
        [|destruct (N.eqb_spec c DQUOTE) as [->|H4];
          [|destruct (N.eqb_spec c SQUOTE) as [->|H5]]]]];
    simpl; intros H;
    repeat (destruct H as [<-|H];
            [repeat split; first [discriminate|assumption]|]);
    destruct H.
Qed.

Lemma attr_flat_escaped (s : pystr) : attr_escaped (flat_map attr_char s).
Proof.
  induction s as [|c s IH]; [constructor|].
  cbn [flat_map]. unfold attr_char.
  destruct (N.eqb_spec c AMP) as [->|H1];
    [apply attr_escaped_entity; [simpl; auto|exact IH]|].
  destruct (N.eqb_spec c LT) as [->|H2];
    [apply attr_escaped_entity; [simpl; auto|exact IH]|].
  destruct (N.eqb_spec c GT) as [->|H3];
    [apply attr_escaped_entity; [simpl; auto|exact IH]|].
  destruct (N.eqb_spec c DQUOTE) as [->|H4];
    [apply attr_escaped_entity; [simpl; auto 6|exact IH]|].
  destruct (N.eqb_spec c SQUOTE) as [->|H5];
    [apply attr_escaped_entity; [simpl; auto 6|exact IH]|].
  apply attr_escaped_char; assumption.
Qed.

(** X9.  The text [esc] returns holds no [<] and no [>], and [&] only as
    the head of a character reference.  The text [attr_esc] returns is
    escaped for a quoted attribute: it holds [&] only as the head of one of
    its five character references, each of them an [&], a body free of the
    replaced characters, and a [;]; and it holds no [<], no [>], no double
    quote and no apostrophe, so that it cannot end a quoted attribute.
    Both return the empty text for [None], the empty string and every
    other value that counts as false. *)
Theorem esc_is_safe (v : pyval) :
  escaped (esc v) /\
  ~ In LT (esc v) /\ ~ In GT (esc v) /\
  attr_escaped (attr_esc v) /\
  forallb char_ref ATTR_ENTITIES = true /\
  (forall x, In x (attr_esc v) ->
             x <> LT /\ x <> GT /\ x <> DQUOTE /\ x <> SQUOTE) /\
  (truthy v = false -> esc v = [] /\ attr_esc v = []).
Proof.
  unfold attr_esc, esc.
  pose proof (esc_text_escaped (to_str (py_or v (PStr [])))) as He.
  destruct (escaped_no_angle _ He) as [H1 H2].
  split; [exact He|]. split; [exact H1|]. split; [exact H2|].
  split; [rewrite attr_text_flat; apply attr_flat_escaped|].
  split; [reflexivity|]. split.
  - intros x Hx. rewrite attr_text_flat in Hx.
    apply in_flat_map in Hx as (c & _ & Hx).
    eapply attr_char_safe, Hx.
  - intros Hf. unfold py_or. rewrite Hf. split; reflexivity.
Qed.

End TextMore.

Lemma esc_is_safe_witness :
  esc (R := ascii_runtime) PNone = [] /\
  attr_esc (R := ascii_runtime) (PInt 0) = [].
Proof.
  split.
  - exact (proj1 (proj2 (proj2 (proj2 (proj2 (proj2 (proj2
             (esc_is_safe (R := ascii_runtime) PNone)))))) eq_refl)).
  - exact (proj2 (proj2 (proj2 (proj2 (proj2 (proj2 (proj2
             (esc_is_safe (R := ascii_runtime) (PInt 0))))))) eq_refl)).
Defined.

(** ** [_sanitize_dim_items] *)

Lemma dict_set_same (d : dict) (k : pystr) (v : pyval) :
  dict_get d k = Some v -> dict_set d k v = d.
Proof.
  induction d as [|[k0 v0] r IH]; simpl; [discriminate|].
  destruct (str_eqb k0 k).
  - intros [= ->]. reflexivity.
  - intros H. rewrite (IH H). reflexivity.
Qed.

Lemma mapM_Forall2 {A B} (f : A -> result B) (l : list A) (l' : list B) :
  mapM f l = Ok l' -> Forall2 (fun x y => f x = Ok y) l l'.
Proof.
  revert l'. induction l as [|x l IH]; simpl; intros l' E.
  - apply Ok_inj in E. subst. constructor.
  - destruct (f x) as [y|] eqn:Ex; [|discriminate]. cbn [bind] in E.
    destruct (mapM f l) as [ys|]; [|discriminate]. cbn [bind] in E.
    apply Ok_inj in E. subst. constructor; auto.
Qed.

Lemma mapM_fixed {A} (f : A -> result A) (l : list A) :
  Forall (fun x => f x = Ok x) l -> mapM f l = Ok l.
Proof.
  induction 1 as [|x l Hx _ IH]; [reflexivity|].
  simpl. rewrite Hx. cbn [bind]. rewrite IH. reflexivity.
Qed.

Section SanitizeDims.
Context {R : PyRuntime}.

Lemma same_axis_key (x y : pyval) :
  same_axis x y -> score_key y = score_key x.
Proof.
  intros (d & dd & -> & -> & Hs & _).
  unfold score_key, get_or. cbn [as_dict bind]. rewrite Hs. reflexivity.
Qed.

Lemma min_go_same (r r' : list pyval) :
  Forall2 same_axis r r' ->
  forall b b' k,
    same_axis b b' ->
    (exists m m', min_go b k r = Ok m /\ min_go b' k r' = Ok m' /\
                  same_axis m m') \/
    (exists e, min_go b k r = Raise e /\ min_go b' k r' = Raise e).
Proof.
  induction 1 as [|x y r r' Hxy _ IH]; intros b b' k Hb; simpl.
  - left. exists b, b'. auto.
  - rewrite (same_axis_key _ _ Hxy).
    destruct (score_key x) as [kx|e]; cbn [bind].
    + destruct (kx <? k); apply IH; assumption.
    + right. exists e. auto.
Qed.

Lemma min_dim_same (l l' : list pyval) :
  Forall2 same_axis l l' -> min_dim l' = min_dim l.
Proof.
  intros H. destruct H as [|x y r r' Hxy Hr]; [reflexivity|].
  unfold min_dim. rewrite (same_axis_key _ _ Hxy).
  destruct (score_key x) as [k|e]; cbn [bind]; [|reflexivity].
  destruct (min_go_same r r' Hr x y k Hxy)
    as [(m & m' & -> & -> & Hm)|(e & -> & ->)]; [|reflexivity].
  cbn [bind]. destruct Hm as (d & dd & -> & -> & Hs & Hn).
  cbn [as_dict bind]. unfold get_or. rewrite Hs, Hn. reflexivity.
Qed.

Lemma sanitize_dim_gets (d dd : dict) :
  sanitize_dim d = Ok dd ->
  exists why edits checks,
    sanitize_field d (u "why") = Ok why /\
    sanitize_field d (u "edits") = Ok edits /\
    sanitize_field d (u "checks") = Ok checks /\
    forall k,
      dict_get dd k
      = if str_eqb (u "checks") k then Some checks
        else if str_eqb (u "edits") k then Some edits
        else if str_eqb (u "why") k then Some why
        else dict_get d k.
Proof.
  unfold sanitize_dim. intros E.
  destruct (sanitize_field d (u "why")) as [why|]; [|discriminate E].
  cbn [bind] in E.
  destruct (sanitize_field d (u "edits")) as [edits|]; [|discriminate E].
  cbn [bind] in E.
  destruct (sanitize_field d (u "checks")) as [checks|]; [|discriminate E].
  cbn [bind] in E. apply Ok_inj in E. subst dd.
  exists why, edits, checks. repeat split.
  intros k. rewrite !dict_get_set. reflexivity.
Qed.

Lemma sanitize_dim_same_axis (d dd : dict) :
  sanitize_dim d = Ok dd -> same_axis (PDict d) (PDict dd).
Proof.
  intros E. destruct (sanitize_dim_gets d dd E) as (w & e & c & _ & _ & _ & G).
  exists d, dd. repeat split; rewrite G; reflexivity.
Qed.

Lemma sanitize_dims_same_axis (dims dims' : list dict) :
  _sanitize_dim_items dims = Ok dims' ->
  Forall2 same_axis (map PDict dims) (map PDict dims').
Proof.
  intros E. apply mapM_Forall2 in E.
  induction E as [|d dd r r' Hd _ IH]; simpl; constructor; auto.
  apply sanitize_dim_same_axis, Hd.
Qed.

(** X10.  Sanitising the assessments never changes the verdict: it
    rewrites [why], [edits] and [checks] and leaves [score] and [name] as
    they are, so [overall_from_text_image] returns the same verdict, or
    raises the same exception, on the sanitised list as on the list it
    was made from, on either side. *)
Theorem sanitize_keeps_verdict (dims dims' : list dict) (other : list pyval)
        (Hs : _sanitize_dim_items dims = Ok dims') :
  overall_from_text_image (map PDict dims') other
  = overall_from_text_image (map PDict dims) other /\
  overall_from_text_image other (map PDict dims')
  = overall_from_text_image other (map PDict dims).
Proof.
  pose proof (min_dim_same _ _ (sanitize_dims_same_axis _ _ Hs)) as E.
  unfold overall_from_text_image. rewrite E. split; reflexivity.
Qed.

Lemma sanitize_field_shape (d : dict) (key : pystr) (v : pyval) :
  sanitize_field d key = Ok v ->
  exists ls, v = PList (map PStr ls) /\ ls <> [] /\
             sanitize_lines (map PStr ls) = ls.
Proof.
  unfold sanitize_field. intros E.
  destruct (py_iter _) as [lines|]; [|discriminate E]. cbn [bind] in E.
  apply Ok_inj in E. subst v.
  exists (sanitize_lines lines). split; [reflexivity|].
  split; [apply sanitize_lines_not_nil|apply sanitize_lines_twice].
Qed.

Lemma sanitize_field_again (dd : dict) (key : pystr) (ls : list pystr) :
  dict_get dd key = Some (PList (map PStr ls)) ->
  ls <> [] -> sanitize_lines (map PStr ls) = ls ->
  sanitize_field dd key = Ok (PList (map PStr ls)).
Proof.
  intros G Hne Hfix. unfold sanitize_field, get_or. rewrite G.
  destruct ls as [|t r]; [congruence|].
  change (py_or (PList (map PStr (t :: r))) (PList []))
    with (PList (map PStr (t :: r))).
  cbn [py_iter bind]. rewrite Hfix. reflexivity.
Qed.

Lemma sanitize_dim_fixed (d dd : dict) :
  sanitize_dim d = Ok dd -> sanitize_dim dd = Ok dd.
Proof.
  intros E.
  destruct (sanitize_dim_gets d dd E) as (w & e & c & Ew & Ee & Ec & G).
  destruct (sanitize_field_shape _ _ _ Ew) as (lw & -> & Hw1 & Hw2).
  destruct (sanitize_field_shape _ _ _ Ee) as (le & -> & He1 & He2).
  destruct (sanitize_field_shape _ _ _ Ec) as (lc & -> & Hc1 & Hc2).
  assert (Gw : dict_get dd (u "why") = Some (PList (map PStr lw)))
    by (rewrite G; reflexivity).
  assert (Ge : dict_get dd (u "edits") = Some (PList (map PStr le)))
    by (rewrite G; reflexivity).
  assert (Gc : dict_get dd (u "checks") = Some (PList (map PStr lc)))
    by (rewrite G; reflexivity).
  unfold sanitize_dim.
  rewrite (sanitize_field_again dd _ lw Gw Hw1 Hw2). cbn [bind].
  rewrite (sanitize_field_again dd _ le Ge He1 He2). cbn [bind].
  rewrite (sanitize_field_again dd _ lc Gc Hc1 Hc2). cbn [bind].
  rewrite (dict_set_same dd _ _ Gw), (dict_set_same dd _ _ Ge),
    (dict_set_same dd _ _ Gc). reflexivity.
Qed.

(** X11.  [_sanitize_dim_items] is idempotent, and in every assessment it
    returns [why], [edits] and [checks] are present and are non-empty
    lists of strings that [sanitize_lines] leaves as they are. *)
Theorem sanitize_dims_idempotent (dims dims' : list dict)
        (Hs : _sanitize_dim_items dims = Ok dims') :
  _sanitize_dim_items dims' = Ok dims' /\
  forall dd key,
    In dd dims' -> In key SANITIZED_KEYS ->
    exists ls,
      dict_get dd key = Some (PList (map PStr ls)) /\
      ls <> [] /\ sanitize_lines (map PStr ls) = ls.
Proof.
  pose proof (mapM_Forall2 _ _ _ Hs) as H2.
  split.
  - apply mapM_fixed. clear Hs.
    induction H2 as [|d dd r r' Hd _ IH]; constructor; [|exact IH].
    eapply sanitize_dim_fixed, Hd.
  - intros dd key Hdd Hkey.
    assert (Hsrc : exists d, sanitize_dim d = Ok dd).
    { clear Hs. induction H2 as [|d dd0 r r' Hd _ IH]; [destruct Hdd|].
      destruct Hdd as [<-|Hdd]; [exists d; exact Hd|apply IH, Hdd]. }
    destruct Hsrc as (d & Ed).
    destruct (sanitize_dim_gets d dd Ed) as (w & e & c & Ew & Ee & Ec & G).
    destruct (sanitize_field_shape _ _ _ Ew) as (lw & -> & Hw1 & Hw2).
    destruct (sanitize_field_shape _ _ _ Ee) as (le & -> & He1 & He2).
    destruct (sanitize_field_shape _ _ _ Ec) as (lc & -> & Hc1 & Hc2).
    simpl in Hkey. destruct Hkey as [<-|[<-|[<-|[]]]].
    + exists lw. rewrite G. auto.
    + exists le. rewrite G. auto.
    + exists lc. rewrite G. auto.
Qed.

End SanitizeDims.

Lemma sanitize_keeps_verdict_witness :
  exists dims',
    _sanitize_dim_items (R := ascii_runtime) [noisy_dim] = Ok dims' /\
    overall_from_text_image (R := ascii_runtime) (map PDict dims') []
    = overall_from_text_image (R := ascii_runtime) [PDict noisy_dim] [].
Proof.
  destruct (_sanitize_dim_items (R := ascii_runtime) [noisy_dim])
    as [dims'|e] eqn:E; [|vm_compute in E; discriminate E].
  exists dims'. split; [reflexivity|].
  exact (proj1 (sanitize_keeps_verdict (R := ascii_runtime)
                  [noisy_dim] dims' [] E)).
Defined.

Lemma sanitize_dims_idempotent_witness :
  exists dims',
    _sanitize_dim_items (R := ascii_runtime) [noisy_dim] = Ok dims' /\
    _sanitize_dim_items (R := ascii_runtime) dims' = Ok dims'.
Proof.
  destruct (_sanitize_dim_items (R := ascii_runtime) [noisy_dim])
    as [dims'|e] eqn:E; [|vm_compute in E; discriminate E].
  exists dims'. split; [reflexivity|].
  exact (proj1 (sanitize_dims_idempotent (R := ascii_runtime)
                  [noisy_dim] dims' E)).
Defined.

(** ** [_find_all_ranges] *)

Lemma ranges_chain_weaken (n last last' : nat) (rs : list (nat * nat)) :
  (last' <= last)%nat -> ranges_chain n last rs -> ranges_chain n last' rs.
Proof.
  destruct rs as [|[s e] r]; simpl; [auto|]. intros H (H1 & H2 & H3).
  repeat split; try assumption; lia.
Qed.

Lemma skipn_tail {A} (full : list A) (pos : nat) (c : A) (r : list A) :
  skipn pos full = c :: r -> skipn (S pos) full = r.
Proof.
  revert full. induction pos as [|pos IH]; intros [|x full]; simpl;
    try discriminate.
  - intros [= _ ->]. reflexivity.
  - intros H. apply (IH full H).
Qed.

Lemma skipn_nil_later {A} (full : list A) (pos p : nat) :
  skipn pos full = [] -> (pos <= p)%nat -> skipn p full = [].
Proof.
  intros H Hp. apply skipn_all2.
  assert (length (skipn pos full) = 0%nat) by (rewrite H; reflexivity).
  rewrite length_skipn in H0. lia.
Qed.

Section FindFacts.
Context {R : PyRuntime}.

Lemma finditer_go_chain (needle text : pystr) :
  needle <> [] ->
  forall pos skip n,
    (pos + length text)%nat = n ->
    ranges_chain n (pos + skip) (finditer_go needle pos skip text).
Proof.
  intros Hne. induction text as [|c text IH]; intros pos skip n Hn;
    [exact I|].
  simpl in Hn. simpl finditer_go.
  destruct skip as [|k].
  - destruct (ci_prefix needle (c :: text)) eqn:Hp.
    + apply ci_prefix_length in Hp. simpl in Hp.
      assert (Hl : (1 <= length needle)%nat)
        by (destruct needle; [congruence|simpl; lia]).
      simpl. split; [lia|]. split; [lia|].
      replace (pos + length needle)%nat
        with (S pos + (length needle - 1))%nat by lia.
      apply IH. lia.
    + apply ranges_chain_weaken with (S pos + 0)%nat; [lia|].
      apply IH. lia.
  - replace (pos + S k)%nat with (S pos + k)%nat by lia.
    apply IH. lia.
Qed.

Lemma finditer_go_matches (needle full text : pystr) :
  forall pos skip,
    skipn pos full = text ->
    Forall (fun r => snd r = (fst r + length needle)%nat /\
                     ci_prefix needle (skipn (fst r) full) = true)
           (finditer_go needle pos skip text).
Proof.
  induction text as [|c text IH]; intros pos skip Hs; [constructor|].
  pose proof (skipn_tail full pos c text Hs) as Hs'.
  simpl. destruct skip as [|k]; [|apply IH, Hs'].
  destruct (ci_prefix needle (c :: text)) eqn:Hp; [|apply IH, Hs'].
  constructor; [|apply IH, Hs'].
  simpl. rewrite Hs. auto.
Qed.

Lemma finditer_go_complete (needle full text : pystr) :
  needle <> [] ->
  forall pos skip p,
    skipn pos full = text ->
    (pos + skip <= p)%nat ->
    ci_prefix needle (skipn p full) = true ->
    covered p (finditer_go needle pos skip text).
Proof.
  intros Hne. induction text as [|c text IH]; intros pos skip p Hs Hp Hm.
  - rewrite (skipn_nil_later full pos p Hs) in Hm by lia.
    destruct needle; [congruence|discriminate Hm].
  - pose proof (skipn_tail full pos c text Hs) as Hs'.
    simpl. destruct skip as [|k].
    + destruct (ci_prefix needle (c :: text)) eqn:Hpre.
      * destruct (Nat.lt_ge_cases p (pos + length needle)) as [Hin|Hout].
        -- exists (pos, (pos + length needle)%nat).
           split; [left; reflexivity|]. simpl. lia.
        -- assert (Hl : (1 <= length needle)%nat)
             by (destruct needle; [congruence|simpl; lia]).
           destruct (IH (S pos) (length needle - 1)%nat p Hs')
             as (r & Hr & Hc); [lia|exact Hm|].
           exists r. split; [right; exact Hr|exact Hc].
      * assert (p <> pos).
        { intros ->. rewrite Hs in Hm. congruence. }
        apply (IH (S pos) 0%nat p Hs'); [lia|exact Hm].
    + apply (IH (S pos) k p Hs'); [lia|exact Hm].
Qed.

(** X12.  The ranges [_find_all_ranges] returns are matches of the needle,
    case ignored: each is as long as the needle, lies inside the text and
    begins where the needle matches; they come in increasing order and do
    not overlap.  An empty needle has no ranges. *)
Theorem find_all_ranges_sound (text needle : pystr) :
  ranges_chain (length text) 0 (_find_all_ranges text needle) /\
  Forall (fun r => snd r = (fst r + length needle)%nat /\
                   (fst r < snd r)%nat /\
                   ci_prefix needle (skipn (fst r) text) = true)
         (_find_all_ranges text needle) /\
  _find_all_ranges text [] = [].
Proof.
  split; [|split; [|reflexivity]].
  - unfold _find_all_ranges. destruct needle as [|a needle]; [exact I|].
    apply (finditer_go_chain (a :: needle) text ltac:(discriminate)
             0%nat 0%nat (length text) eq_refl).
  - unfold _find_all_ranges. destruct needle as [|a needle]; [constructor|].
    pose proof (finditer_go_matches (a :: needle) text text 0 0 eq_refl)
      as H.
    eapply Forall_impl; [|exact H].
    intros [s e] [H1 H2]. simpl in *. repeat split; auto. lia.
Qed.

(** X13.  [_find_all_ranges] misses no occurrence but those that overlap
    one it has taken: every index at which the needle matches, case
    ignored, lies inside one of the ranges returned. *)
Theorem find_all_ranges_complete (text needle : pystr) (p : nat)
        (Hne : needle <> [])
        (Hm : ci_prefix needle (skipn p text) = true) :
  covered p (_find_all_ranges text needle).
Proof.
  unfold _find_all_ranges. destruct needle as [|a needle]; [congruence|].
  apply (finditer_go_complete (a :: needle) text text Hne 0 0 p eq_refl);
    [lia|exact Hm].
Qed.

End FindFacts.

Lemma find_all_ranges_complete_witness :
  covered 3 (_find_all_ranges (R := ascii_runtime) (u "an ANANAS") (u "ana")).
Proof.
  apply (find_all_ranges_complete (R := ascii_runtime)
           (u "an ANANAS") (u "ana") 3); [discriminate|reflexivity].
Defined.

(** ** [_merge_ranges] *)

Lemma insert_asc_In {A} (lt : A -> A -> bool) (x y : A) (l : list A) :
  In y (insert_asc lt x l) <-> y = x \/ In y l.
Proof.
  induction l as [|z l IH]; simpl; [intuition|].
  destruct (lt z x); simpl; rewrite ?IH; intuition.
Qed.

Lemma sorted_asc_In {A} (lt : A -> A -> bool) (y : A) (l : list A) :
  In y (sorted_asc lt l) <-> In y l.
Proof.
  induction l as [|x l IH]; simpl; [tauto|].
  rewrite insert_asc_In, IH. intuition.
Qed.

Lemma range_lt_false (a b : nat * nat) :
  range_lt a b = false -> (fst b <= fst a)%nat.
Proof.
  unfold range_lt. intros H. apply orb_false_iff in H as [H _].
  apply Nat.ltb_ge in H. exact H.
Qed.

Lemma range_lt_true (a b : nat * nat) :
  range_lt a b = true -> (fst a <= fst b)%nat.
Proof.
  unfold range_lt. intros H. apply orb_true_iff in H as [H|H].
  - apply Nat.ltb_lt in H. lia.
  - apply andb_true_iff in H as [H _]. apply Nat.eqb_eq in H. lia.
Qed.

(** After [ranges.sort()] the starts do not decrease. *)
Lemma insert_asc_starts (x : nat * nat) (l : list (nat * nat)) :
  StronglySorted (fun a b => (fst a <= fst b)%nat) l ->
  StronglySorted (fun a b => (fst a <= fst b)%nat) (insert_asc range_lt x l).
Proof.
  induction 1 as [|y r Hr IH Hy]; simpl.
  - constructor; constructor.
  - destruct (range_lt y x) eqn:E.
    + constructor; [exact IH|].
      apply Forall_forall. intros z Hz. apply insert_asc_In in Hz.
      destruct Hz as [->|Hz]; [apply range_lt_true, E|].
      rewrite Forall_forall in Hy. apply Hy, Hz.
    + apply range_lt_false in E.
      constructor; [constructor; assumption|].
      constructor; [exact E|].
      apply Forall_forall. intros z Hz. rewrite Forall_forall in Hy.
      specialize (Hy z Hz). lia.
Qed.

Lemma sorted_asc_starts (l : list (nat * nat)) :
  StronglySorted (fun a b => (fst a <= fst b)%nat) (sorted_asc range_lt l).
Proof.
  induction l as [|x r IH]; simpl; [constructor|].
  apply insert_asc_starts, IH.
Qed.

Lemma covered_cons (p : nat) (r : nat * nat) (rs : list (nat * nat)) :
  covered p (r :: rs) <-> (fst r <= p < snd r)%nat \/ covered p rs.
Proof.
  unfold covered. split.
  - intros (x & [<-|Hx] & Hc); [left; exact Hc|right; exists x; auto].
  - intros [Hc|(x & Hx & Hc)]; [exists r|exists x]; simpl; auto.
Qed.

Lemma merge_go_covered (p : nat) (rest : list (nat * nat)) :
  forall cur,
    Forall (fun r => (fst cur <= fst r)%nat) rest ->
    StronglySorted (fun a b => (fst a <= fst b)%nat) rest ->
    (covered p (merge_go cur rest) <-> covered p (cur :: rest)).
Proof.
  induction rest as [|[s e] r IH]; intros [ls le] Hge Hs; simpl;
    [reflexivity|].
  inversion Hge as [|? ? Hs1 Hge']; subst. simpl in Hs1.
  inversion Hs as [|? ? Hs' Hall]; subst.
  destruct (Nat.leb_spec s le).
  - rewrite IH; [|apply Forall_forall; intros x Hx;
                   rewrite Forall_forall in Hge'; apply Hge', Hx
                 |exact Hs'].
    rewrite !covered_cons. simpl. intuition lia.
  - rewrite covered_cons, IH; [|exact Hall|exact Hs'].
    rewrite !covered_cons. simpl. tauto.
Qed.

Lemma merge_go_gapped (rest : list (nat * nat)) :
  forall cur,
    exists e' tail,
      merge_go cur rest = (fst cur, e') :: tail /\
      (snd cur <= e')%nat /\ gapped ((fst cur, e') :: tail).
Proof.
  induction rest as [|[s e] r IH]; intros [ls le]; simpl.
  - exists le, []. auto.
  - destruct (Nat.leb_spec s le).
    + destruct (IH (ls, Nat.max le e)) as (e' & tail & E & Hle & Hg).
      exists e', tail. simpl in *. split; [exact E|]. split; [lia|exact Hg].
    + destruct (IH (s, e)) as (e' & tail & E & Hle & Hg).
      exists le, ((s, e') :: tail). simpl in *. rewrite E.
      split; [reflexivity|]. split; [lia|]. split; [exact H|exact Hg].
Qed.

Lemma merge_ranges_covered (ranges : list (nat * nat)) (p : nat) :
  covered p (_merge_ranges ranges) <-> covered p ranges.
Proof.
  unfold _merge_ranges.
  pose proof (sorted_asc_starts ranges) as Hs.
  assert (Hin : covered p (sorted_asc range_lt ranges) <-> covered p ranges).
  { unfold covered. split; intros (r & Hr & Hc); exists r;
      (split; [apply (sorted_asc_In range_lt r ranges), Hr|exact Hc]). }
  destruct (sorted_asc range_lt ranges) as [|first rest]; [exact Hin|].
  inversion Hs as [|? ? Hs' Hall]; subst.
  rewrite <- Hin. apply merge_go_covered; assumption.
Qed.

Lemma merge_ranges_gapped (ranges : list (nat * nat)) :
  gapped (_merge_ranges ranges).
Proof.
  unfold _merge_ranges.
  destruct (sorted_asc range_lt ranges) as [|first rest]; [exact I|].
  destruct (merge_go_gapped rest first) as (e' & tail & -> & _ & Hg).
  exact Hg.
Qed.

(** X14.  [_merge_ranges] returns ranges that cover exactly the indices
    its input covers, and of which each ends before the next begins: what
    overlapped or touched has become one range. *)
Theorem merge_ranges_covers (ranges : list (nat * nat)) :
  (forall p, covered p (_merge_ranges ranges) <-> covered p ranges) /\
  gapped (_merge_ranges ranges).
Proof.
  split; [intros p; apply merge_ranges_covered|apply merge_ranges_gapped].
Qed.

Lemma merge_go_valid (rest : list (nat * nat)) :
  forall cur,
    (fst cur <= snd cur)%nat ->
    Forall (fun r => (fst r <= snd r)%nat) rest ->
    Forall (fun r => (fst r <= snd r)%nat) (merge_go cur rest).
Proof.
  induction rest as [|[s e] r IH]; intros [ls le] Hc Hr; simpl in *.
  - constructor; auto.
  - inversion Hr; subst. simpl in *.
    destruct (s <=? le)%nat.
    + apply IH; simpl; auto. lia.
    + constructor; auto.
Qed.

Lemma sorted_asc_fixed (l : list (nat * nat)) :
  StronglySorted (fun a b => (fst a < fst b)%nat) l ->
  sorted_asc range_lt l = l.
Proof.
  induction 1 as [|x r Hr IH Hx]; [reflexivity|].
  simpl. rewrite IH. destruct r as [|y r']; [reflexivity|].
  simpl. inversion Hx as [|? ? Hxy _]; subst.
  unfold range_lt.
  destruct (Nat.ltb_spec (fst y) (fst x)); [lia|].
  destruct (Nat.eqb_spec (fst y) (fst x)); [lia|]. reflexivity.
Qed.

Lemma merge_go_fixed (rest : list (nat * nat)) :
  forall cur, gapped (cur :: rest) -> merge_go cur rest = cur :: rest.
Proof.
  induction rest as [|[s e] r IH]; intros [ls le] Hg; [reflexivity|].
  simpl in Hg. destruct Hg as [Hlt Hg]. simpl.
  destruct (Nat.leb_spec s le); [lia|].
  rewrite (IH (s, e) Hg). reflexivity.
Qed.

Lemma gapped_starts (l : list (nat * nat)) :
  gapped l -> Forall (fun r => (fst r <= snd r)%nat) l ->
  StronglySorted (fun a b => (fst a < fst b)%nat) l.
Proof.
  induction l as [|x r IH]; intros Hg Hv; [constructor|].
  inversion Hv as [|? ? Hx Hr]; subst.
  destruct r as [|y r']; [constructor; constructor|].
  simpl in Hg. destruct Hg as [Hlt Hg].
  specialize (IH Hg Hr).
  constructor; [exact IH|].
  inversion IH as [|? ? _ Hy]; subst.
  constructor; [lia|].
  apply Forall_forall. intros z Hz. rewrite Forall_forall in Hy.
  specialize (Hy z Hz). lia.
Qed.

(** X15.  On ranges that do not end before they begin, merging what
    [_merge_ranges] has returned changes nothing. *)
Theorem merge_ranges_idempotent (ranges : list (nat * nat))
        (Hv : Forall (fun r => (fst r <= snd r)%nat) ranges) :
  _merge_ranges (_merge_ranges ranges) = _merge_ranges ranges.
Proof.
  pose proof (merge_ranges_gapped ranges) as Hg.
  assert (Hvalid : Forall (fun r => (fst r <= snd r)%nat)
                          (_merge_ranges ranges)).
  { unfold _merge_ranges.
    pose proof (sorted_asc_Forall range_lt _ _ Hv) as Hs.
    destruct (sorted_asc range_lt ranges) as [|c r]; [constructor|].
    inversion Hs; subst. apply merge_go_valid; assumption. }
  set (out := _merge_ranges ranges) in *.
  unfold _merge_ranges at 1.
  rewrite (sorted_asc_fixed out (gapped_starts out Hg Hvalid)).
  destruct out as [|c r]; [reflexivity|].
  apply merge_go_fixed, Hg.
Qed.

Lemma merge_ranges_idempotent_witness :
  _merge_ranges (_merge_ranges sample_ranges) = _merge_ranges sample_ranges.
Proof.
  apply merge_ranges_idempotent.
  repeat (constructor; [simpl; lia|]). constructor.
Defined.

(** ** [_extract_spans_from_flags] and [highlight_caption] *)

Lemma strs_of_NoDup (l : list pyval) : NoDup l -> NoDup (strs_of l).
Proof.
  induction 1 as [|v l Hv Hl IH]; [constructor|].
  destruct v; simpl; try exact IH.
  constructor; [|exact IH]. rewrite strs_of_In. exact Hv.
Qed.

Lemma insert_desc_by_length (x : pystr) (l : list pystr) :
  StronglySorted (fun a b => (length b <= length a)%nat) l ->
  StronglySorted (fun a b => (length b <= length a)%nat)
    (insert_desc (fun a b => (length a <? length b)%nat) x l).
Proof.
  induction 1 as [|y r Hr IH Hy]; simpl.
  - constructor; constructor.
  - destruct (Nat.ltb_spec (length x) (length y)).
    + constructor; [exact IH|].
      apply Forall_forall. intros z Hz. apply insert_desc_In in Hz.
      destruct Hz as [->|Hz]; [lia|].
      rewrite Forall_forall in Hy. apply Hy, Hz.
    + constructor; [constructor; assumption|].
      constructor; [exact H|].
      apply Forall_forall. intros z Hz. rewrite Forall_forall in Hy.
      specialize (Hy z Hz). lia.
Qed.

Lemma sorted_desc_by_length (l : list pystr) :
  StronglySorted (fun a b => (length b <= length a)%nat)
    (sorted_desc (fun a b => (length a <? length b)%nat) l).
Proof.
  induction l as [|x r IH]; simpl; [constructor|].
  apply insert_desc_by_length, IH.
Qed.

Lemma highlight_parts_flagged (text : pystr) (rs : list (nat * nat)) :
  forall last,
    exists ps,
      highlight_parts text last rs = map render_piece ps /\
      flagged_of ps = map (fun r => slice text (fst r) (snd r)) rs.
Proof.
  induction rs as [|[s e] r IH]; intros last.
  - simpl. destruct (last <? length text)%nat.
    + exists [Plain (skipn last text)]. auto.
    + exists []. auto.
  - destruct (IH e) as (ps & Eps & Ef).
    simpl highlight_parts. rewrite Eps.
    destruct (last <? s)%nat.
    + exists (Plain (slice text last s) :: Flagged (slice text s e) :: ps).
      split; [reflexivity|]. simpl. rewrite Ef. reflexivity.
    + exists (Flagged (slice text s e) :: ps).
      split; [reflexivity|]. simpl. rewrite Ef. reflexivity.
Qed.

Section SpanFacts.
Context {R : PyRuntime}.
Hypothesis set_law : set_list_law R.

(** X16.  The candidates [_extract_spans_from_flags] returns are distinct,
    none comes before a longer one, and each has two characters or more
    and no whitespace at either end. *)
Theorem extract_spans_distinct (flags : list pyval) (out : list pystr)
        (Hout : _extract_spans_from_flags flags = Ok out) :
  NoDup out /\
  StronglySorted (fun a b => (length b <= length a)%nat) out /\
  Forall (fun s => (2 <= length s)%nat /\ trimmed s) out.
Proof.
  split; [|split].
  - unfold _extract_spans_from_flags in Hout.
    destruct (mapM flag_spans flags) as [per_flag|]; [|discriminate].
    cbn [bind] in Hout. apply Ok_inj in Hout. subst out.
    eapply Permutation_NoDup;
      [apply Permutation_sym, sorted_desc_perm|].
    apply NoDup_filter, strs_of_NoDup.
    apply (proj1 (set_law _ (all_str_map _))).
  - unfold _extract_spans_from_flags in Hout.
    destruct (mapM flag_spans flags) as [per_flag|]; [|discriminate].
    cbn [bind] in Hout. apply Ok_inj in Hout. subst out.
    apply sorted_desc_by_length.
  - apply Forall_forall. intros s Hs.
    destruct (extract_spans_origin set_law flags out s Hout Hs)
      as (Hlen & d & _ & [[_ ->]|(iss & m & _ & _ & ->)]);
      (split; [exact Hlen|apply strip_ends]).
Qed.

End SpanFacts.

Lemma extract_spans_distinct_witness :
  exists out,
    _extract_spans_from_flags (R := ascii_runtime) sample_span_flags = Ok out /\
    NoDup out /\
    StronglySorted (fun a b => (length b <= length a)%nat) out /\
    Forall (fun s => (2 <= length s)%nat /\ trimmed s) out.
Proof.
  destruct (_extract_spans_from_flags (R := ascii_runtime) sample_span_flags)
    as [out|e] eqn:E; [|vm_compute in E; discriminate E].
  exists out. split; [reflexivity|].
  apply (extract_spans_distinct (R := ascii_runtime) ascii_set_list_law
           sample_span_flags out E).
Defined.

Section HighlightFacts.
Context {R : PyRuntime}.

Lemma covered_flat_map (text : pystr) (spans : list pystr) (p : nat) :
  covered p (flat_map (_find_all_ranges text) spans) <->
  exists sp, In sp spans /\ covered p (_find_all_ranges text sp).
Proof.
  unfold covered. split.
  - intros (r & Hr & Hc). apply in_flat_map in Hr as (sp & Hsp & Hr).
    exists sp. split; [exact Hsp|]. exists r. auto.
  - intros (sp & Hsp & r & Hr & Hc). exists r. split; [|exact Hc].
    apply in_flat_map. exists sp. auto.
Qed.

(** X17.  What [highlight_caption] flags: the flagged pieces of its markup
    are the stretches of the caption at the merged ranges, in order, and
    an index of the caption lies in one of these ranges exactly when it
    lies in an occurrence found of one of the candidates.  When no
    candidate occurs, the markup is the escaped caption in its div. *)
Theorem highlight_flags_occurrences (text : pystr) (flags : list pyval)
        (spans : list pystr) (out : pystr)
        (Hs : _extract_spans_from_flags flags = Ok spans)
        (Hout : highlight_caption text flags = Ok out) :
  let ranges := _merge_ranges (flat_map (_find_all_ranges text) spans) in
  (exists ps,
     out = DIV_OPEN ++ concat (map render_piece ps) ++ DIV_CLOSE /\
     flagged_of ps = map (fun r => slice text (fst r) (snd r)) ranges) /\
  (forall p,
     covered p ranges <->
     exists sp, In sp spans /\ covered p (_find_all_ranges text sp)) /\
  ((forall sp, In sp spans -> _find_all_ranges text sp = []) ->
   out = DIV_OPEN ++ html_escape text ++ DIV_CLOSE).
Proof.
  intros ranges. unfold highlight_caption in Hout. rewrite Hs in Hout.
  cbn [bind] in Hout. fold ranges in Hout.
  split; [|split].
  - destruct ranges as [|r rs].
    + apply Ok_inj in Hout. subst out. exists [Plain text]. simpl.
      rewrite !app_nil_r. auto.
    + destruct (highlight_parts_flagged text (r :: rs) 0) as (ps & Eps & Ef).
      rewrite Eps in Hout. apply Ok_inj in Hout. subst out.
      exists ps. auto.
  - intros p. unfold ranges.
    rewrite merge_ranges_covered. apply covered_flat_map.
  - intros Hnone.
    assert (E : flat_map (_find_all_ranges text) spans = []).
    { clear - Hnone. induction spans as [|sp spans IH]; [reflexivity|].
      simpl. rewrite (Hnone sp) by (left; reflexivity).
      apply IH. intros x Hx. apply Hnone. right. exact Hx. }
    unfold ranges in Hout. rewrite E in Hout.
    apply Ok_inj in Hout. auto.
Qed.

End HighlightFacts.

Lemma highlight_flags_occurrences_witness :
  exists spans out ps,
    _extract_spans_from_flags (R := ascii_runtime) sample_flags = Ok spans /\
    highlight_caption (R := ascii_runtime) sample_caption sample_flags
      = Ok out /\
    out = DIV_OPEN ++ concat (map render_piece ps) ++ DIV_CLOSE /\
    flagged_of ps
    = map (fun r => slice sample_caption (fst r) (snd r))
          (_merge_ranges
             (flat_map (_find_all_ranges (R := ascii_runtime) sample_caption)
                       spans)).
Proof.
  destruct (_extract_spans_from_flags (R := ascii_runtime) sample_flags)
    as [spans|e] eqn:Es; [|vm_compute in Es; discriminate Es].
  destruct (highlight_caption (R := ascii_runtime) sample_caption sample_flags)
    as [out|e] eqn:E; [|vm_compute in E; discriminate E].
  destruct (highlight_flags_occurrences (R := ascii_runtime)
              sample_caption sample_flags spans out Es E)
    as ((ps & E1 & E2) & _).
  exists spans, out, ps. auto.
Defined.

(** ** [_merge] *)

Lemma get_or_set_other (d : dict) (k k' : pystr) (v dflt : pyval) :
  str_eqb k k' = false -> get_or (dict_set d k v) k' dflt = get_or d k' dflt.
Proof.
  intros H. unfold get_or. rewrite dict_get_set_other by exact H.
  reflexivity.
Qed.

Lemma str_eqb_neq (a b : pystr) : a <> b -> str_eqb a b = false.
Proof.
  intros H. destruct (str_eqb a b) eqn:E; [|reflexivity].
  apply str_eqb_eq in E. contradiction.
Qed.

Section MergeFacts.
Context {R : PyRuntime}.
Hypothesis set_law : set_list_law R.

Lemma py_set_law (l s : list pyval) :
  forallb is_str l = true -> py_set l = Ok s ->
  NoDup s /\ forall x, In x s <-> In x l.
Proof.
  unfold py_set. intros Hl E.
  destruct (forallb hashable l); [|discriminate E].
  apply Ok_inj in E. subst s. apply set_law, Hl.
Qed.

(** What [_merge] returns, written out. *)
Lemma merge_inv (a b m : dict) :
  _merge a b = Ok m ->
  exists risks edits,
    py_set (tags_of a (u "risks") ++ tags_of b (u "risks")) = Ok risks /\
    py_set (tags_of a (u "suggested_edits")) = Ok edits /\
    let out2 :=
      dict_set (dict_set a (u "risks") (PList risks)) (u "suggested_edits")
               (PList (edits ++ tags_of b (u "suggested_edits"))) in
    let out3 :=
      if negb (truthy (get_or a (u "label") PNone))
         && truthy (get_or b (u "label") PNone)
      then dict_set out2 (u "label") (get_or b (u "label") PNone)
      else out2 in
    m = if negb (truthy (get_or a (u "severity") PNone))
           && truthy (get_or b (u "severity") PNone)
        then dict_set out3 (u "severity") (get_or b (u "severity") PNone)
        else out3.
Proof.
  unfold _merge, tags_of. intros E. cbv zeta in E.
  destruct (py_iter (py_or (get_or a (u "risks") PNone) (PList [])))
    as [ra|]; [|discriminate E]. cbn [bind] in E.
  destruct (py_iter (py_or (get_or b (u "risks") PNone) (PList [])))
    as [rb|]; [|discriminate E]. cbn [bind] in E.
  destruct (py_set (ra ++ rb)) as [risks|]; [|discriminate E].
  cbn [bind] in E.
  rewrite (get_or_set_other a (u "risks") (u "suggested_edits"))
    in E by reflexivity.
  destruct (py_iter (py_or (get_or a (u "suggested_edits") PNone)
                           (PList [])))
    as [ea|]; [|discriminate E]. cbn [bind] in E.
  destruct (py_set ea) as [edits|]; [|discriminate E]. cbn [bind] in E.
  destruct (py_iter (py_or (get_or b (u "suggested_edits") PNone)
                           (PList [])))
    as [eb|]; [|discriminate E]. cbn [bind] in E.
  apply Ok_inj in E. exists risks, edits.
  split; [reflexivity|]. split; [reflexivity|].
  cbv zeta. rewrite <- E.
  rewrite !(get_or_set_other _ (u "suggested_edits") (u "label"))
    by reflexivity.
  rewrite !(get_or_set_other _ (u "risks") (u "label")) by reflexivity.
  destruct (negb (truthy (get_or a (u "label") PNone))
            && truthy (get_or b (u "label") PNone));
    rewrite ?(get_or_set_other _ (u "label") (u "severity")) by reflexivity;
    rewrite !(get_or_set_other _ (u "suggested_edits") (u "severity"))
      by reflexivity;
    rewrite !(get_or_set_other _ (u "risks") (u "severity")) by reflexivity;
    reflexivity.
Qed.

(** A merge touches four keys only. *)
Lemma merge_other_keys (a b m : dict) (key : pystr) :
  _merge a b = Ok m -> ~ In key MERGED_KEYS ->
  dict_get m key = dict_get a key.
Proof.
  intros E Hk. destruct (merge_inv a b m E) as (risks & edits & _ & _ & ->).
  assert (N1 : str_eqb (u "risks") key = false)
    by (apply str_eqb_neq; intros <-; apply Hk; simpl; auto).
  assert (N2 : str_eqb (u "suggested_edits") key = false)
    by (apply str_eqb_neq; intros <-; apply Hk; simpl; auto).
  assert (N3 : str_eqb (u "label") key = false)
    by (apply str_eqb_neq; intros <-; apply Hk; simpl; auto).
  assert (N4 : str_eqb (u "severity") key = false)
    by (apply str_eqb_neq; intros <-; apply Hk; simpl; auto 6).
  cbv zeta.
  repeat match goal with
  | |- context [if ?c then _ else _] => destruct c
  end;
    repeat (rewrite dict_get_set_other by assumption); reflexivity.
Qed.

(** X18.  What a merge keeps, for tag lists of strings.  The risks of the
    merged hotspot are the risks of both, each once.  Its suggested edits
    are those of the kept hotspot, each once, followed by all those of the
    incoming one: none is lost.  Label and severity are the kept
    hotspot's, or the incoming one's where the kept hotspot has none.
    Every other key is the kept hotspot's. *)
Theorem merge_keeps_both (a b m : dict)
        (Hm : _merge a b = Ok m)
        (Hr : forallb is_str (tags_of a (u "risks") ++ tags_of b (u "risks"))
              = true)
        (He : forallb is_str (tags_of a (u "suggested_edits")) = true) :
  (exists rs,
     dict_get m (u "risks") = Some (PList rs) /\ NoDup rs /\
     forall x, In x rs <->
               In x (tags_of a (u "risks")) \/ In x (tags_of b (u "risks"))) /\
  (exists es,
     dict_get m (u "suggested_edits")
     = Some (PList (es ++ tags_of b (u "suggested_edits"))) /\
     NoDup es /\
     forall x, In x es <-> In x (tags_of a (u "suggested_edits"))) /\
  get_or m (u "label") PNone = first_true a b (u "label") /\
  get_or m (u "severity") PNone = first_true a b (u "severity") /\
  (forall key, ~ In key MERGED_KEYS -> dict_get m key = dict_get a key).
Proof.
  destruct (merge_inv a b m Hm) as (risks & edits & Er & Ee & Em).
  destruct (py_set_law _ _ Hr Er) as [Nr Ir].
  destruct (py_set_law _ _ He Ee) as [Ne Ie].
  cbv zeta in Em.
  split; [|split; [|split; [|split]]].
  - exists risks. split; [|split; [exact Nr|]].
    + subst m.
      repeat match goal with
      | |- context [if ?c then _ else _] => destruct c
      end;
        repeat (rewrite dict_get_set_other by reflexivity);
        rewrite dict_get_set; reflexivity.
    + intros x. rewrite Ir. apply in_app_iff.
  - exists edits. split; [|split; [exact Ne|exact Ie]].
    subst m.
    repeat match goal with
    | |- context [if ?c then _ else _] => destruct c
    end;
      repeat (rewrite dict_get_set_other by reflexivity);
      rewrite dict_get_set; reflexivity.
  - subst m. unfold first_true.
    destruct (truthy (get_or a (u "label") PNone)) eqn:Ta;
      destruct (truthy (get_or b (u "label") PNone)) eqn:Tb;
      cbn [negb andb];
      repeat match goal with
      | |- context [if ?c then _ else _] => destruct c
      end;
      rewrite ?(get_or_set_other _ (u "severity") (u "label")) by reflexivity;
      try (unfold get_or at 1; rewrite dict_get_set; reflexivity);
      rewrite !(get_or_set_other _ (u "suggested_edits") (u "label"))
        by reflexivity;
      rewrite !(get_or_set_other _ (u "risks") (u "label")) by reflexivity;
      reflexivity.
  - subst m. unfold first_true.
    destruct (truthy (get_or a (u "severity") PNone)) eqn:Ta;
      destruct (truthy (get_or b (u "severity") PNone)) eqn:Tb;
      cbn [negb andb];
      try (unfold get_or at 1; rewrite dict_get_set; reflexivity);
      repeat match goal with
      | |- context [if ?c then _ else _] => destruct c
      end;
      rewrite ?(get_or_set_other _ (u "label") (u "severity")) by reflexivity;
      rewrite !(get_or_set_other _ (u "suggested_edits") (u "severity"))
        by reflexivity;
      rewrite !(get_or_set_other _ (u "risks") (u "severity")) by reflexivity;
      reflexivity.
  - intros key Hk. apply (merge_other_keys a b m key Hm Hk).
Qed.

End MergeFacts.

Lemma merge_keeps_both_witness :
  exists m,
    _merge (R := ascii_runtime) kept_spot incoming_spot = Ok m /\
    get_or m (u "label") PNone = first_true kept_spot incoming_spot (u "label").
Proof.
  destruct (_merge (R := ascii_runtime) kept_spot incoming_spot)
    as [m|e] eqn:E; [|vm_compute in E; discriminate E].
  exists m. split; [reflexivity|].
  apply (merge_keeps_both (R := ascii_runtime) ascii_set_list_law
           kept_spot incoming_spot m E eq_refl eq_refl).
Defined.

(** ** The clamping loop of [dedupe_hotspots] *)

Lemma clamp_twice (f : float) :
  fmax 0 (fmin 1 (fmax 0 (fmin 1 f))) = fmax 0 (fmin 1 f).
Proof.
  unfold fmax, fmin.
  destruct (PrimFloat.ltb f 1) eqn:E1; [|reflexivity].
  destruct (PrimFloat.ltb 0 f) eqn:E2; [|reflexivity].
  rewrite E1, E2. reflexivity.
Qed.

Lemma dict_set_twice (d : dict) (k : pystr) (v w : pyval) :
  dict_set (dict_set d k v) k w = dict_set d k w.
Proof.
  induction d as [|[k0 v0] r IH]; simpl.
  - rewrite str_eqb_refl. reflexivity.
  - destruct (str_eqb k0 k) eqn:E; simpl; rewrite E; [reflexivity|].
    rewrite IH. reflexivity.
Qed.

Lemma dict_set_comm (d : dict) (k1 k2 : pystr) (v1 v2 : pyval) :
  str_eqb k1 k2 = false ->
  dict_get d k1 <> None -> dict_get d k2 <> None ->
  dict_set (dict_set d k1 v1) k2 v2 = dict_set (dict_set d k2 v2) k1 v1.
Proof.
  intros Hne. induction d as [|[k0 v0] r IH]; simpl; [congruence|].
  destruct (str_eqb k0 k1) eqn:E1, (str_eqb k0 k2) eqn:E2; intros H1 H2;
    simpl; rewrite ?E1, ?E2; try reflexivity.
  - apply str_eqb_eq in E1, E2. subst k1 k2.
    rewrite str_eqb_refl in Hne. discriminate Hne.
  - rewrite (IH H1 H2). reflexivity.
Qed.

Lemma dict_set_keys (d : dict) (k : pystr) (v : pyval) :
  dict_get d k <> None -> map fst (dict_set d k v) = map fst d.
Proof.
  induction d as [|[k0 v0] r IH]; simpl; [congruence|].
  destruct (str_eqb k0 k); intros H; simpl; [reflexivity|].
  rewrite (IH H). reflexivity.
Qed.

Lemma fold_left_stable {A B} (f : A -> B -> A) (keys : list B) :
  (forall h k, f (f h k) k = f h k) ->
  (forall h k1 k2, f (f h k1) k2 = f (f h k2) k1) ->
  forall h, fold_left f keys (fold_left f keys h) = fold_left f keys h.
Proof.
  intros Hidem Hcomm.
  assert (Hpush : forall ks x k,
             f (fold_left f ks x) k = fold_left f ks (f x k)).
  { induction ks as [|k0 ks IH]; intros x k; [reflexivity|].
    simpl. rewrite IH, Hcomm. reflexivity. }
  induction keys as [|k ks IH]; intros h; [reflexivity|].
  simpl. rewrite Hpush, Hidem. apply IH.
Qed.

Section ClampFacts.
Context {R : PyRuntime}.

Lemma clamp_field_twice (h : dict) (k : pystr) :
  clamp_field (clamp_field h k) k = clamp_field h k.
Proof.
  unfold clamp_field at 2 3.
  destruct (dict_get h k) as [v|] eqn:G.
  - destruct (to_float v) as [f|e] eqn:F.
    + unfold clamp_field. rewrite dict_get_set, str_eqb_refl.
      cbn [to_float]. rewrite dict_set_twice, clamp_twice. reflexivity.
    + unfold clamp_field. rewrite G, F. reflexivity.
  - unfold clamp_field. rewrite G. reflexivity.
Qed.

Lemma clamp_field_comm (h : dict) (k1 k2 : pystr) :
  clamp_field (clamp_field h k1) k2 = clamp_field (clamp_field h k2) k1.
Proof.
  destruct (str_eqb k1 k2) eqn:E.
  - apply str_eqb_eq in E. subst. reflexivity.
  - assert (E' : str_eqb k2 k1 = false).
    { apply str_eqb_neq. intros ->. rewrite str_eqb_refl in E.
      discriminate E. }
    unfold clamp_field at 2 4.
    destruct (dict_get h k1) as [v1|] eqn:G1;
      [destruct (to_float v1) as [f1|] eqn:F1|];
      (destruct (dict_get h k2) as [v2|] eqn:G2;
       [destruct (to_float v2) as [f2|] eqn:F2|]);
      unfold clamp_field;
      rewrite ?dict_get_set_other by assumption;
      rewrite ?G1, ?G2, ?F1, ?F2; try reflexivity.
    apply dict_set_comm; [exact E|rewrite G1|rewrite G2]; discriminate.
Qed.

Lemma clamp_field_keys (h : dict) (k : pystr) :
  map fst (clamp_field h k) = map fst h.
Proof.
  unfold clamp_field. destruct (dict_get h k) as [v|] eqn:G; [|reflexivity].
  destruct (to_float v); [|reflexivity].
  apply dict_set_keys. rewrite G. discriminate.
Qed.

Lemma clamp_geometry_twice (h : dict) :
  clamp_geometry (clamp_geometry h) = clamp_geometry h.
Proof.
  apply fold_left_stable; [apply clamp_field_twice|apply clamp_field_comm].
Qed.

(** X19.  The clamping loop of [dedupe_hotspots] is stable: run on its own
    result it changes nothing.  It keeps the keys of the hotspot and their
    order, and every value under a key that is not a geometry key. *)
Theorem clamp_geometry_stable (h : dict) :
  clamp_geometry (clamp_geometry h) = clamp_geometry h /\
  map fst (clamp_geometry h) = map fst h /\
  (forall key, ~ In key GEOMETRY_KEYS ->
               dict_get (clamp_geometry h) key = dict_get h key).
Proof.
  split; [|split].
  - apply clamp_geometry_twice.
  - unfold clamp_geometry. generalize GEOMETRY_KEYS. intros keys.
    revert h. induction keys as [|k ks IH]; intros h; [reflexivity|].
    simpl. rewrite IH. apply clamp_field_keys.
  - intros key Hk. apply clamp_fields_other.
    apply forallb_forall. intros k Hin. apply negb_true_iff.
    apply str_eqb_neq. intros ->. contradiction.
Qed.

(** X20.  A hotspot alone is returned with its geometry clamped, and what
    is returned passes through [dedupe_hotspots] unchanged. *)
Theorem dedupe_single (h : dict) (out : list dict)
        (Hout : dedupe_hotspots [PDict h] = Ok out) :
  out = [clamp_geometry h] /\
  dedupe_hotspots (map PDict out) = Ok out.
Proof.
  assert (Hone : forall x, is_ok (_bbox x) = true ->
                           dedupe_hotspots [PDict x] = Ok [clamp_geometry x]).
  { intros x Hx. unfold dedupe_hotspots, keyed. cbn [dicts_of flat_map app mapM].
    rewrite (bbox_of_ok x Hx). cbn [bind]. rewrite sorted_by_key_one.
    cbn [map snd].
    cbn [dedupe_loop]. rewrite (bbox_of_ok x Hx). reflexivity. }
  assert (Hb : is_ok (_bbox h) = true).
  { unfold dedupe_hotspots, keyed in Hout.
    cbn [dicts_of flat_map app mapM] in Hout.
    destruct (_bbox h); [reflexivity|discriminate Hout]. }
  rewrite (Hone h Hb) in Hout. apply Ok_inj in Hout. subst out.
  split; [reflexivity|]. cbn [map].
  rewrite (Hone _ (bbox_clamped_ok h Hb)).
  rewrite clamp_geometry_twice. reflexivity.
Qed.





End ClampFacts.

Lemma dedupe_single_witness :
  exists out,
    dedupe_hotspots (R := ascii_runtime) [PDict stray_spot] = Ok out /\
    out = [clamp_geometry (R := ascii_runtime) stray_spot] /\
    dedupe_hotspots (R := ascii_runtime) (map PDict out) = Ok out.
Proof.
  destruct (dedupe_hotspots (R := ascii_runtime) [PDict stray_spot])
    as [out|e] eqn:E; [|vm_compute in E; discriminate E].
  exists out. split; [reflexivity|].
  apply (dedupe_single (R := ascii_runtime) stray_spot out E).
Defined.


(** ** [_area] and [_iou] *)

Lemma round_aux_sign (m e : Z) (l : SpecFloat.location) :
  sf_pos_nan (binary_round_aux prec emax false m e l) = true.
Proof.
  unfold binary_round_aux.
  destruct (shr_fexp prec emax m e l) as [mrs' e'].
  destruct (shr_fexp prec emax _ e' loc_Exact) as [mrs'' e''].
  destruct (shr_m mrs''); [reflexivity| |reflexivity].
  destruct (_ <=? _); reflexivity.
Qed.

Lemma fmax0_pos (x : float) : sf_pos (Prim2SF (fmax 0 x)) = true.
Proof.
  unfold fmax. destruct (PrimFloat.ltb 0 x) eqn:E; [|reflexivity].
  rewrite ltb_spec in E.
  replace (Prim2SF 0) with (S754_zero false) in E by reflexivity.
  destruct (Prim2SF x) as [s|s| |s m e]; try destruct s; simpl in E;
    try discriminate E; reflexivity.
Qed.

Lemma mul_pos (x y : float) :
  sf_pos (Prim2SF x) = true -> sf_pos (Prim2SF y) = true ->
  sf_pos_nan (Prim2SF (x * y)) = true.
Proof.
  rewrite mul_spec. unfold SF64mul, SFmul.
  destruct (Prim2SF x) as [s|s| |s m e], (Prim2SF y) as [s'|s'| |s' m' e'];
    simpl; intros H1 H2; try discriminate; try reflexivity;
    apply negb_true_iff in H1, H2; subst; try reflexivity.
  apply round_aux_sign.
Qed.

Lemma mul_zero_left (y : float) :
  sf_pos (Prim2SF y) = true -> sf_zero_nan (Prim2SF (0 * y)) = true.
Proof.
  rewrite mul_spec. unfold SF64mul, SFmul.
  replace (Prim2SF 0) with (S754_zero false) by reflexivity.
  destruct (Prim2SF y) as [s|s| |s m e]; simpl; intros H;
    try discriminate; try reflexivity;
    apply negb_true_iff in H; subst; reflexivity.
Qed.

Lemma mul_zero_right (x : float) :
  sf_pos (Prim2SF x) = true -> sf_zero_nan (Prim2SF (x * 0)) = true.
Proof.
  rewrite mul_spec. unfold SF64mul, SFmul.
  replace (Prim2SF 0) with (S754_zero false) by reflexivity.
  destruct (Prim2SF x) as [s|s| |s m e]; simpl; intros H;
    try discriminate; try reflexivity;
    apply negb_true_iff in H; subst; reflexivity.
Qed.

Lemma not_below_zero (x : float) :
  sf_pos_nan (Prim2SF x) = true -> PrimFloat.ltb x 0 = false.
Proof.
  rewrite ltb_spec.
  replace (Prim2SF 0) with (S754_zero false) by reflexivity.
  destruct (Prim2SF x) as [s|s| |s m e]; try destruct s; simpl;
    intros H; try discriminate H; reflexivity.
Qed.

Lemma div_pos (x y : float) :
  sf_pos_nan (Prim2SF x) = true -> PrimFloat.ltb 0 y = true ->
  sf_pos_nan (Prim2SF (x / y)) = true.
Proof.
  rewrite div_spec, ltb_spec.
  replace (Prim2SF 0) with (S754_zero false) by reflexivity.
  unfold SF64div, SFdiv.
  destruct (Prim2SF x) as [s|s| |s m e], (Prim2SF y) as [s'|s'| |s' m' e'];
    try destruct s; try destruct s'; simpl; intros H1 H2;
    try discriminate; try reflexivity.
  destruct (SFdiv_core_binary _ _ _ _ _ _) as [[mz ez] lz].
  apply round_aux_sign.
Qed.

Lemma div_zero (x y : float) :
  sf_zero_nan (Prim2SF x) = true -> PrimFloat.ltb 0 y = true ->
  sf_zero_nan (Prim2SF (x / y)) = true.
Proof.
  rewrite div_spec, ltb_spec.
  replace (Prim2SF 0) with (S754_zero false) by reflexivity.
  unfold SF64div, SFdiv.
  destruct (Prim2SF x) as [s|s| |s m e], (Prim2SF y) as [s'|s'| |s' m' e'];
    try destruct s; try destruct s'; simpl; intros H1 H2;
    try discriminate; reflexivity.
Qed.

Lemma zero_not_above (x c : float) :
  sf_zero_nan (Prim2SF x) = true -> PrimFloat.ltb 0 c = true ->
  PrimFloat.ltb c x = false.
Proof.
  rewrite !ltb_spec.
  replace (Prim2SF 0) with (S754_zero false) by reflexivity.
  destruct (Prim2SF x) as [s|s| |s m e], (Prim2SF c) as [s'|s'| |s' m' e'];
    try destruct s; try destruct s'; simpl; intros H1 H2;
    try discriminate; reflexivity.
Qed.

(** X22.  [_area] and [_iou] never return a negative number. *)
Theorem area_iou_not_negative :
  (forall b, PrimFloat.ltb (_area b) 0 = false) /\
  (forall b1 b2, PrimFloat.ltb (_iou b1 b2) 0 = false).
Proof.
  split.
  - intros [[[x1 y1] x2] y2]. apply not_below_zero.
    unfold _area. apply mul_pos; apply fmax0_pos.
  - intros [[[a1 a2] a3] a4] [[[c1 c2] c3] c4]. unfold _iou.
    cbv zeta.
    destruct (PrimFloat.ltb 0 _) eqn:E; [|reflexivity].
    apply not_below_zero. apply div_pos; [|exact E].
    apply mul_pos; apply fmax0_pos.
Qed.

(** X23.  Two boxes whose intersection has no positive width, or no
    positive height, do not pass the overlap test of [dedupe_hotspots]:
    their [_iou] is not above 0.55, whatever their sizes. *)
Theorem iou_needs_overlap (b1 b2 : bbox)
        (H : PrimFloat.ltb 0 (overlap_width b1 b2) = false \/
             PrimFloat.ltb 0 (overlap_height b1 b2) = false) :
  PrimFloat.ltb 0.55 (_iou b1 b2) = false.
Proof.
  destruct b1 as [[[a1 a2] a3] a4], b2 as [[[c1 c2] c3] c4].
  unfold overlap_width, overlap_height in H. unfold _iou. cbv zeta.
  assert (Hi : sf_zero_nan
                 (Prim2SF (fmax 0 (fmin a3 c3 - fmax a1 c1)
                           * fmax 0 (fmin a4 c4 - fmax a2 c2))) = true).
  { destruct H as [H|H].
    - unfold fmax at 1. rewrite H. apply mul_zero_left, fmax0_pos.
    - unfold fmax at 3. rewrite H. apply mul_zero_right, fmax0_pos. }
  clear H.
  match goal with
  | |- context [if ?c then _ else _] => destruct c eqn:E
  end; [|reflexivity].
  apply zero_not_above; [|reflexivity].
  apply div_zero; [exact Hi|exact E].
Qed.

Lemma iou_needs_overlap_witness :
  PrimFloat.ltb 0.55 (_iou box_left box_right) = false.
Proof.
  apply (iou_needs_overlap box_left box_right). left. reflexivity.
Defined.

(** ** [_color_class_from_severity] *)

Lemma or_empty_str (s : pystr) : as_str (py_or (PStr s) (PStr [])) = Ok s.
Proof. destruct s; reflexivity. Qed.

Lemma get_or_set_same (d : dict) (k : pystr) (v dflt : pyval) :
  get_or (dict_set d k v) k dflt = v.
Proof.
  unfold get_or. rewrite dict_get_set, str_eqb_refl. reflexivity.
Qed.

(** X24.  [_color_class_from_severity] reads the severity with the
    whitespace around it removed, and answers [warn], [caution] or the
    empty class.  A hotspot whose severity is missing, [None] or empty gets
    the empty class; one whose severity is a number or a list raises
    [AttributeError]. *)
Theorem color_class_edges (h : dict) :
  (forall s,
     get_or h SEVERITY PNone = PStr s ->
     _color_class_from_severity h
     = _color_class_from_severity (dict_set h SEVERITY (PStr (strip s)))) /\
  (forall c, _color_class_from_severity h = Ok c ->
             In c [C_WARN; C_CAUTION; []]) /\
  (truthy (get_or h SEVERITY PNone) = false ->
   _color_class_from_severity h = Ok []) /\
  (truthy (get_or h SEVERITY PNone) = true ->
   is_str (get_or h SEVERITY PNone) = false ->
   _color_class_from_severity h = Raise AttributeError).
Proof.
  unfold _color_class_from_severity.
  change (u "severity") with SEVERITY.
  split; [|split; [|split]].
  - intros s Hs. rewrite get_or_set_same, Hs, !or_empty_str.
    cbn [bind]. rewrite strip_idempotent. reflexivity.
  - intros c.
    destruct (as_str _) as [sev|]; [|discriminate]. cbn [bind].
    repeat match goal with
    | |- context [if ?c then _ else _] => destruct c
    end; intros E; apply Ok_inj in E; subst c; simpl; auto.
  - intros H. unfold py_or. rewrite H. reflexivity.
  - intros H1 H2. unfold py_or. rewrite H1.
    destruct (get_or h SEVERITY PNone); try discriminate H2; reflexivity.
Qed.

(** X25.  Of the five level names of [LEVELS], two have a class of their
    own: a hotspot whose severity is the level of a score is drawn as
    [warn] for a score of 6 to 10, as [caution] for 11 to 15, and with the
    empty class, the default of the overlay, for every other score, the
    two safe levels included. *)
Theorem color_class_of_level (s : Z) :
  _color_class_from_severity [(SEVERITY, PStr (level_of s))]
  = Ok (if (6 <=? s) && (s <=? 10) then C_WARN
        else if (11 <=? s) && (s <=? 15) then C_CAUTION
        else []).
Proof.
  destruct (level_of_bands s) as (A1 & A2 & A3 & A4 & A5).
  destruct (Z.leb_spec 6 s), (Z.leb_spec s 10), (Z.leb_spec 11 s),
    (Z.leb_spec s 15); try lia; cbn [andb].
  - rewrite A2 by lia. reflexivity.
  - rewrite A3 by lia. reflexivity.
  - destruct (Z.le_gt_cases s 20).
    + rewrite A4 by lia. reflexivity.
    + rewrite A5 by lia. reflexivity.
  - rewrite A1 by lia. reflexivity.
Qed.

(** ** [parse_json_or_fail] *)

Lemma find_from_app (c : codepoint) (pre post : pystr) :
  ~ In c pre ->
  forall i, find_from c i (pre ++ c :: post) = Some (i + length pre)%nat.
Proof.
  induction pre as [|x pre IH]; intros Hn i; simpl.
  - rewrite N.eqb_refl. f_equal. lia.
  - destruct (N.eqb_spec x c) as [->|_]; [exfalso; apply Hn; left; reflexivity|].
    rewrite IH; [f_equal; lia|]. intros H. apply Hn. right. exact H.
Qed.

Lemma rfind_from_none (c : codepoint) (s : pystr) :
  ~ In c s -> forall i, rfind_from c i s = None.
Proof.
  induction s as [|x s IH]; intros Hn i; simpl; [reflexivity|].
  rewrite IH by (intros H; apply Hn; right; exact H).
  destruct (N.eqb_spec x c) as [->|_]; [exfalso; apply Hn; left; reflexivity|].
  reflexivity.
Qed.

Lemma rfind_from_app (c : codepoint) (pre post : pystr) :
  ~ In c post ->
  forall i, rfind_from c i (pre ++ c :: post) = Some (i + length pre)%nat.
Proof.
  intros Hn. induction pre as [|x pre IH]; intros i; simpl.
  - rewrite (rfind_from_none c post Hn), N.eqb_refl. f_equal. lia.
  - rewrite IH. f_equal. lia.
Qed.

Lemma find_from_inv (c : codepoint) (s : pystr) :
  forall i j,
    find_from c i s = Some j ->
    exists pre post,
      s = pre ++ c :: post /\ ~ In c pre /\ j = (i + length pre)%nat.
Proof.
  induction s as [|x s IH]; intros i j; simpl; [discriminate|].
  destruct (N.eqb_spec x c) as [->|Hx].
  - intros [= <-]. exists [], s. simpl. repeat split; auto.
  - intros H. destruct (IH _ _ H) as (pre & post & -> & Hn & ->).
    exists (x :: pre), post. simpl. repeat split; [|lia].
    intros [E|E]; [congruence|contradiction].
Qed.

Lemma rfind_from_inv (c : codepoint) (s : pystr) :
  forall i j,
    rfind_from c i s = Some j ->
    exists pre post,
      s = pre ++ c :: post /\ ~ In c post /\ j = (i + length pre)%nat.
Proof.
  induction s as [|x s IH]; intros i j; simpl; [discriminate|].
  destruct (rfind_from c (S i) s) as [j'|] eqn:E.
  - intros [= <-]. destruct (IH _ _ E) as (pre & post & -> & Hn & ->).
    exists (x :: pre), post. simpl. repeat split; [exact Hn|lia].
  - destruct (N.eqb_spec x c) as [->|Hx]; [|discriminate].
    intros [= <-]. exists [], s. simpl. repeat split; [|lia].
    intros Hin. clear IH.
    assert (forall k, rfind_from c k s <> None).
    { clear E. induction s as [|y s IH]; [destruct Hin|]. intros k. simpl.
      destruct (rfind_from c (S k) s) eqn:E'; [discriminate|].
      destruct Hin as [->|Hin]; [rewrite N.eqb_refl; discriminate|].
      exfalso. apply (IH Hin (S k)). exact E'. }
    apply (H (S i)). exact E.
Qed.

Lemma app_split_lt {A} (p1 q1 p2 q2 : list A) (a b : A) :
  p1 ++ a :: q1 = p2 ++ b :: q2 -> (length p1 < length p2)%nat ->
  exists mid, p2 = p1 ++ a :: mid /\ q1 = mid ++ b :: q2.
Proof.
  revert p2. induction p1 as [|y p1 IH]; intros [|x p2]; simpl;
    intros E Hl; try lia.
  - injection E as -> ->. exists p2. auto.
  - injection E as -> E. destruct (IH p2 E) as (mid & -> & ->); [lia|].
    exists mid. auto.
Qed.

Lemma slice_middle (pre body post : pystr) :
  slice (pre ++ body ++ post) (length pre) (length pre + length body) = body.
Proof.
  unfold slice. rewrite skipn_app, skipn_all, Nat.sub_diag. simpl.
  replace (length pre + length body - length pre)%nat with (length body)
    by lia.
  rewrite firstn_app, firstn_all, Nat.sub_diag. simpl. apply app_nil_r.
Qed.

Section JsonFacts.
Variable json_loads : pystr -> result pyval.

(** What [parse_json_or_fail] does with a text whose first opening brace
    comes before its last closing brace. *)
Lemma parse_json_braced (pre mid post title : pystr) :
  ~ In LBRACE pre -> ~ In RBRACE post ->
  parse_json_or_fail json_loads (pre ++ braced mid ++ post) title
  = match json_loads (braced mid) with
    | Ok d => if truthy d then Some d else None
    | Raise _ => None
    end.
Proof.
  intros Hpre Hpost.
  assert (E1 : pre ++ braced mid ++ post
               = pre ++ LBRACE :: (mid ++ RBRACE :: post)).
  { unfold braced. cbn [app]. rewrite <- app_assoc. reflexivity. }
  assert (E2 : pre ++ braced mid ++ post
               = (pre ++ LBRACE :: mid) ++ RBRACE :: post).
  { rewrite E1, <- app_assoc. reflexivity. }
  assert (Hf : str_find (pre ++ braced mid ++ post) LBRACE
               = Some (length pre)).
  { unfold str_find. rewrite E1. apply (find_from_app LBRACE pre _ Hpre). }
  assert (Hr : str_rfind (pre ++ braced mid ++ post) RBRACE
               = Some (length pre + S (length mid))%nat).
  { unfold str_rfind. rewrite E2, (rfind_from_app RBRACE _ post Hpost).
    rewrite length_app. reflexivity. }
  assert (Hs : slice (pre ++ braced mid ++ post) (length pre)
                     (length pre + S (length mid) + 1) = braced mid).
  { replace (length pre + S (length mid) + 1)%nat
      with (length pre + length (braced mid))%nat
      by (unfold braced; cbn [app length]; rewrite length_app; simpl; lia).
    apply slice_middle. }
  unfold parse_json_or_fail. rewrite Hf, Hr, Hs.
  destruct (Nat.ltb_spec (length pre) (length pre + S (length mid)));
    [|lia].
  destruct (json_loads (braced mid)) as [d|]; reflexivity.
Qed.

(** X26.  [parse_json_or_fail] ignores what the model wrote around the
    JSON object: text before the first opening brace and after the last
    closing brace does not change the result, and data the loader accepts
    and that is not empty is returned. *)
Theorem parse_json_ignores_chatter (pre mid post title : pystr)
        (Hpre : ~ In LBRACE pre) (Hpost : ~ In RBRACE post) :
  parse_json_or_fail json_loads (pre ++ braced mid ++ post) title
  = parse_json_or_fail json_loads (braced mid) title /\
  (forall d, json_loads (braced mid) = Ok d -> truthy d = true ->
             parse_json_or_fail json_loads (pre ++ braced mid ++ post) title
             = Some d).
Proof.
  split.
  - rewrite (parse_json_braced pre mid post title Hpre Hpost).
    pose proof (parse_json_braced [] mid [] title
                  (fun H => H) (fun H => H)) as E.
    cbn [app] in E. rewrite app_nil_r in E. rewrite E. reflexivity.
  - intros d Hd Ht.
    rewrite (parse_json_braced pre mid post title Hpre Hpost), Hd, Ht.
    reflexivity.
Qed.

(** X27.  What [parse_json_or_fail] returns is never empty data, and it is
    what the loader made of the text from the first opening brace to the
    last closing brace of the reply; a reply without such a stretch, or
    one the loader rejects, stops the script. *)
Theorem parse_json_returns (raw title : pystr) (d : pyval)
        (Hd : parse_json_or_fail json_loads raw title = Some d) :
  truthy d = true /\
  exists pre mid post,
    raw = pre ++ braced mid ++ post /\
    ~ In LBRACE pre /\ ~ In RBRACE post /\
    json_loads (braced mid) = Ok d.
Proof.
  assert (Hdec : exists pre mid post,
             raw = pre ++ braced mid ++ post /\
             ~ In LBRACE pre /\ ~ In RBRACE post).
  { unfold parse_json_or_fail, str_find, str_rfind in Hd.
    destruct (find_from LBRACE 0 raw) as [s|] eqn:Es; [|discriminate Hd].
    destruct (rfind_from RBRACE 0 raw) as [e|] eqn:Ee; [|discriminate Hd].
    destruct (Nat.ltb_spec s e) as [Hlt|]; [|discriminate Hd].
    destruct (find_from_inv _ _ _ _ Es) as (p1 & q1 & E1 & N1 & ->).
    destruct (rfind_from_inv _ _ _ _ Ee) as (p2 & q2 & E2 & N2 & ->).
    rewrite E1 in E2.
    destruct (app_split_lt _ _ _ _ _ _ E2) as (mid & -> & ->); [simpl in Hlt; lia|].
    exists p1, mid, q2. unfold braced. cbn [app]. rewrite <- !app_assoc.
    repeat split; auto. }
  destruct Hdec as (pre & mid & post & -> & Hpre & Hpost).
  rewrite (parse_json_braced pre mid post title Hpre Hpost) in Hd.
  destruct (json_loads (braced mid)) as [d'|] eqn:E; [|discriminate Hd].
  destruct (truthy d') eqn:Ht; [|discriminate Hd].
  injection Hd as <-. split; [exact Ht|].
  exists pre, mid, post. auto.
Qed.

End JsonFacts.

Lemma parse_json_ignores_chatter_witness :
  parse_json_or_fail sample_loads
    (u "Sure: " ++ braced (u "1: {2}") ++ u " Done.") []
  = parse_json_or_fail sample_loads (braced (u "1: {2}")) [].
Proof.
  refine (proj1 (parse_json_ignores_chatter sample_loads
                   (u "Sure: ") (u "1: {2}") (u " Done.") [] _ _)).
  - intros H. vm_compute in H.
    repeat (destruct H as [H|H]; [discriminate H|]). exact H.
  - intros H. vm_compute in H.
    repeat (destruct H as [H|H]; [discriminate H|]). exact H.
Defined.

Lemma parse_json_returns_witness :
  exists d,
    parse_json_or_fail sample_loads sample_reply [] = Some d /\
    truthy d = true.
Proof.
  destruct (parse_json_or_fail sample_loads sample_reply []) as [d|] eqn:E;
    [|vm_compute in E; discriminate E].
  exists d. split; [reflexivity|].
  apply (parse_json_returns sample_loads sample_reply [] d E).
Defined.

(** ** [_parse_env_file] *)

Lemma lstrip_spaces (w t : pystr) :
  forallb is_space w = true -> lstrip (w ++ t) = lstrip t.
Proof.
  induction w as [|c w IH]; [reflexivity|]. simpl.
  intros H. apply andb_true_iff in H as [Hc Hw]. rewrite Hc. apply IH, Hw.
Qed.

Lemma forallb_rev {A} (p : A -> bool) (l : list A) :
  forallb p (rev l) = forallb p l.
Proof.
  induction l as [|x l IH]; [reflexivity|]. simpl.
  rewrite forallb_app, IH. simpl. rewrite andb_true_r. apply andb_comm.
Qed.

Lemma strip_pad (w1 t w2 : pystr) :
  forallb is_space w1 = true -> forallb is_space w2 = true ->
  trimmed t -> strip (w1 ++ t ++ w2) = t.
Proof.
  intros H1 H2 [Ht Hr]. unfold strip.
  rewrite (lstrip_spaces w1 _ H1).
  destruct t as [|c t'].
  - simpl. rewrite <- (app_nil_r w2) at 1. rewrite (lstrip_spaces w2 [] H2).
    reflexivity.
  - rewrite (lstrip_id ((c :: t') ++ w2)) by exact Ht.
    rewrite rev_app_distr.
    rewrite (lstrip_spaces (rev w2) _) by (rewrite forallb_rev; exact H2).
    rewrite (lstrip_id _ Hr). apply rev_involutive.
Qed.

Lemma lstrip_char_run (c : codepoint) (r t : pystr) :
  forallb (N.eqb c) r = true -> lstrip_char c (r ++ t) = lstrip_char c t.
Proof.
  induction r as [|x r IH]; [reflexivity|]. simpl.
  intros H. apply andb_true_iff in H as [Hx Hr].
  rewrite N.eqb_sym, Hx. apply IH, Hr.
Qed.

Lemma lstrip_char_id (c : codepoint) (t : pystr) :
  hd_error t <> Some c -> lstrip_char c t = t.
Proof.
  destruct t as [|x t]; [reflexivity|]. simpl. intros H.
  destruct (N.eqb_spec x c) as [->|_]; [congruence|reflexivity].
Qed.

Lemma strip_char_pad (c : codepoint) (r1 t r2 : pystr) :
  forallb (N.eqb c) r1 = true -> forallb (N.eqb c) r2 = true ->
  ends_free c t -> strip_char c (r1 ++ t ++ r2) = t.
Proof.
  intros H1 H2 [Ht Hr]. unfold strip_char.
  rewrite (lstrip_char_run c r1 _ H1).
  destruct t as [|x t'].
  - simpl. rewrite <- (app_nil_r r2) at 1.
    rewrite (lstrip_char_run c r2 [] H2). reflexivity.
  - rewrite (lstrip_char_id c ((x :: t') ++ r2)) by exact Ht.
    rewrite rev_app_distr.
    rewrite (lstrip_char_run c (rev r2) _) by (rewrite forallb_rev; exact H2).
    rewrite (lstrip_char_id c _ Hr). apply rev_involutive.
Qed.

Lemma strip_char_id (c : codepoint) (t : pystr) :
  ends_free c t -> strip_char c t = t.
Proof.
  intros H. pose proof (strip_char_pad c [] t [] eq_refl eq_refl H) as E.
  simpl in E. rewrite app_nil_r in E. exact E.
Qed.

Lemma lstrip_char_head (c : codepoint) (t : pystr) :
  hd_error (lstrip_char c t) <> Some c.
Proof.
  induction t as [|x t IH]; [discriminate|]. simpl.
  destruct (N.eqb_spec x c) as [->|Hx]; [exact IH|].
  simpl. congruence.
Qed.

Lemma lstrip_char_split (c : codepoint) (t : pystr) :
  exists r, t = r ++ lstrip_char c t.
Proof.
  induction t as [|x t (r & E)]; [exists []; reflexivity|]. simpl.
  destruct (x =? c)%N; [|exists []; reflexivity].
  exists (x :: r). simpl. rewrite <- E. reflexivity.
Qed.

Lemma hd_error_prefix {A} (a b : list A) (c : A) :
  hd_error (a ++ b) <> Some c -> hd_error a <> Some c.
Proof. destruct a; simpl; [discriminate|auto]. Qed.

Lemma strip_char_ends (c : codepoint) (t : pystr) :
  ends_free c (strip_char c t).
Proof.
  unfold ends_free, strip_char.
  set (a := lstrip_char c t). set (b := lstrip_char c (rev a)).
  rewrite rev_involutive. split; [|apply lstrip_char_head].
  destruct (lstrip_char_split c (rev a)) as (r & E). fold b in E.
  apply (f_equal (@rev _)) in E.
  rewrite rev_involutive, rev_app_distr in E.
  apply (hd_error_prefix (rev b) (rev r)). rewrite <- E.
  apply lstrip_char_head.
Qed.

Lemma split_first_app (c : codepoint) (k v : pystr) :
  ~ In c k -> split_first c (k ++ c :: v) = Some (k, v).
Proof.
  induction k as [|x k IH]; intros Hn; simpl.
  - rewrite N.eqb_refl. reflexivity.
  - destruct (N.eqb_spec x c) as [->|_]; [exfalso; apply Hn; left; reflexivity|].
    rewrite IH; [reflexivity|]. intros H. apply Hn. right. exact H.
Qed.

Lemma split_first_inv (c : codepoint) (s k v : pystr) :
  split_first c s = Some (k, v) -> s = k ++ c :: v /\ ~ In c k.
Proof.
  revert k. induction s as [|x s IH]; intros k; simpl; [discriminate|].
  destruct (N.eqb_spec x c) as [->|Hx].
  - intros [= <- <-]. auto.
  - destruct (split_first c s) as [[k' v']|]; [|discriminate].
    intros [= <- <-]. destruct (IH k' eq_refl) as [-> Hn].
    split; [reflexivity|]. intros [E|E]; [congruence|contradiction].
Qed.

Lemma strip_In (x : codepoint) (t : pystr) : In x (strip t) -> In x t.
Proof.
  destruct (strip_split t) as (w1 & w2 & E). intros H. rewrite E.
  apply in_or_app. right. apply in_or_app. left. exact H.
Qed.

(** Trailing whitespace apart, a text that begins with a character that is
    not whitespace keeps its head when stripped. *)
Lemma strip_head (c : codepoint) (k : pystr) :
  is_space c = false -> hd_error (strip (c :: k)) = Some c.
Proof.
  intros Hc. unfold strip.
  rewrite (lstrip_id (c :: k)) by (simpl; rewrite Hc; reflexivity).
  destruct (lstrip_split (rev (c :: k))) as (w & E & Hw).
  apply (f_equal (@rev _)) in E.
  rewrite rev_involutive, rev_app_distr in E.
  destruct (rev (lstrip (rev (c :: k)))) as [|y r] eqn:Er.
  - simpl in E. exfalso.
    assert (Hin : In c (rev w)) by (rewrite <- E; left; reflexivity).
    apply in_rev in Hin. rewrite forallb_forall in Hw.
    rewrite (Hw c Hin) in Hc. discriminate Hc.
  - simpl in E. injection E as <- _. reflexivity.
Qed.

Lemma env_line_cases (out : dict) (line : pystr) :
  env_line out line = out \/
  exists c s k v,
    strip line = c :: s /\ c <> HASH /\
    split_first EQUALS (c :: s) = Some (k, v) /\
    env_line out line
    = dict_set out (strip k)
               (PStr (strip_char SQUOTE (strip_char DQUOTE (strip v)))).
Proof.
  unfold env_line. destruct (strip line) as [|c s] eqn:Es; [left; reflexivity|].
  destruct (N.eqb_spec c HASH) as [|Hc]; [left; reflexivity|].
  destruct (split_first EQUALS (c :: s)) as [[k v]|] eqn:E;
    [|left; reflexivity].
  right. exists c, s, k, v. auto.
Qed.

Lemma dict_set_Forall (P : pystr * pyval -> Prop) (d : dict) (k : pystr)
      (v : pyval) :
  (forall k', str_eqb k' k = true -> P (k', v)) ->
  Forall P d -> Forall P (dict_set d k v).
Proof.
  intros Hk. induction 1 as [|[k0 v0] r H0 Hr IH]; simpl.
  - constructor; [apply Hk, str_eqb_refl|constructor].
  - destruct (str_eqb k0 k) eqn:E; constructor; auto.
Qed.

Lemma env_line_ok (out : dict) (line : pystr) :
  Forall env_entry_ok out -> Forall env_entry_ok (env_line out line).
Proof.
  intros Hout.
  destruct (env_line_cases out line)
    as [->|(c & s & k & v & Es & Hc & Esp & ->)]; [exact Hout|].
  apply dict_set_Forall; [|exact Hout].
  intros k' Hk'. apply str_eqb_eq in Hk'. subst k'.
  destruct (split_first_inv _ _ _ _ Esp) as [E Hn].
  unfold env_entry_ok. cbn [fst snd].
  split; [apply strip_ends|].
  split; [intros H; apply Hn, strip_In, H|].
  split.
  - destruct k as [|x k']; [discriminate|].
    simpl in E. injection E as <- _.
    rewrite strip_head; [congruence|].
    pose proof (proj1 (strip_ends line)) as Hs. rewrite Es in Hs.
    simpl in Hs. apply negb_true_iff in Hs. exact Hs.
  - eexists. split; [reflexivity|apply strip_char_ends].
Qed.

(** X28.  Whatever the lines of the file, every key [_parse_env_file]
    returns is trimmed, holds no [=] and does not begin with [#], and every
    value is a string that neither begins nor ends with an apostrophe.  A
    file that does not exist gives the empty map. *)
Theorem env_entries (file : option (list pystr)) :
  Forall env_entry_ok (_parse_env_file file) /\
  _parse_env_file None = [].
Proof.
  split; [|reflexivity].
  destruct file as [lines|]; [|constructor]. simpl.
  assert (H : forall out, Forall env_entry_ok out ->
                          Forall env_entry_ok (fold_left env_line lines out)).
  { induction lines as [|l lines IH]; intros out Hout; [exact Hout|].
    simpl. apply IH, env_line_ok, Hout. }
  apply H. constructor.
Qed.

Lemma starts_ok_app (a b : pystr) :
  a <> [] -> starts_ok a = true -> starts_ok (a ++ b) = true.
Proof. destruct a; [congruence|auto]. Qed.

Lemma space_not_equals (w : pystr) :
  forallb is_space w = true -> ~ In EQUALS w.
Proof.
  intros H Hin. rewrite forallb_forall in H. specialize (H _ Hin).
  discriminate H.
Qed.

(** One line of the form key, whitespace, [=], value. *)
Lemma env_line_set (out : dict) (w1 k w2 VV w' V : pystr) :
  forallb is_space w1 = true -> forallb is_space w2 = true ->
  forallb is_space w' = true ->
  k <> [] -> trimmed k -> ~ In EQUALS k -> hd_error k <> Some HASH ->
  starts_ok (rev (EQUALS :: VV)) = true -> strip VV = V ->
  env_line out (w1 ++ (k ++ w2 ++ EQUALS :: VV) ++ w')
  = dict_set out k (PStr (strip_char SQUOTE (strip_char DQUOTE V))).
Proof.
  intros H1 H2 H' Hne [Hk Hkr] Hn Hh Hend HV. unfold env_line.
  rewrite (strip_pad w1 _ w' H1 H').
  2:{ split; [apply starts_ok_app; assumption|].
      replace (k ++ w2 ++ EQUALS :: VV) with ((k ++ w2) ++ EQUALS :: VV)
        by (rewrite <- app_assoc; reflexivity).
      rewrite rev_app_distr. apply starts_ok_app; [|exact Hend].
      simpl. destruct (rev VV); discriminate. }
  destruct k as [|c k']; [congruence|]. cbn [app].
  destruct (N.eqb_spec c HASH) as [->|_]; [simpl in Hh; congruence|].
  change (c :: k' ++ w2 ++ EQUALS :: VV)
    with ((c :: k') ++ w2 ++ EQUALS :: VV).
  replace ((c :: k') ++ w2 ++ EQUALS :: VV)
    with (((c :: k') ++ w2) ++ EQUALS :: VV)
    by (rewrite <- app_assoc; reflexivity).
  rewrite split_first_app.
  2:{ intros Hin. apply in_app_or in Hin as [Hin|Hin];
        [exact (Hn Hin)|exact (space_not_equals w2 H2 Hin)]. }
  pose proof (strip_pad [] (c :: k') w2 eq_refl H2 (conj Hk Hkr)) as Ek.
  cbn [app] in Ek. cbn [app]. rewrite Ek, HV. reflexivity.
Qed.

Lemma unquote (q v : pystr) :
  q = [] \/ q = [DQUOTE] \/ q = [SQUOTE] ->
  ends_free DQUOTE v -> ends_free SQUOTE v ->
  strip_char SQUOTE (strip_char DQUOTE (q ++ v ++ q)) = v.
Proof.
  intros [-> | [-> | ->]] Hd Hs.
  - cbn [app]. rewrite app_nil_r, (strip_char_id _ _ Hd).
    apply strip_char_id, Hs.
  - rewrite (strip_char_pad DQUOTE [DQUOTE] v [DQUOTE] eq_refl eq_refl Hd).
    apply strip_char_id, Hs.
  - rewrite (strip_char_id DQUOTE).
    + apply (strip_char_pad SQUOTE [SQUOTE] v [SQUOTE] eq_refl eq_refl Hs).
    + split; [discriminate|].
      change ([SQUOTE] ++ v ++ [SQUOTE]) with ((SQUOTE :: v) ++ [SQUOTE]).
      rewrite rev_app_distr. discriminate.
Qed.

Lemma quoted_trimmed (q v : pystr) :
  q = [] \/ q = [DQUOTE] \/ q = [SQUOTE] -> trimmed v ->
  trimmed (q ++ v ++ q).
Proof.
  intros [-> | [-> | ->]] Hv.
  - cbn [app]. rewrite app_nil_r. exact Hv.
  - split; [reflexivity|].
    change ([DQUOTE] ++ v ++ [DQUOTE]) with ((DQUOTE :: v) ++ [DQUOTE]).
    rewrite rev_app_distr. reflexivity.
  - split; [reflexivity|].
    change ([SQUOTE] ++ v ++ [SQUOTE]) with ((SQUOTE :: v) ++ [SQUOTE]).
    rewrite rev_app_distr. reflexivity.
Qed.

Lemma env_line_other (out : dict) (line k : pystr) :
  line_key line <> Some k ->
  dict_get (env_line out line) k = dict_get out k.
Proof.
  unfold line_key, env_line.
  destruct (strip line) as [|c s]; [reflexivity|].
  destruct (c =? HASH)%N; [reflexivity|].
  destruct (split_first EQUALS (c :: s)) as [[k' v']|]; [|reflexivity].
  intros H. apply dict_get_set_other, str_eqb_neq. congruence.
Qed.

Lemma env_lines_other (later : list pystr) (k : pystr) :
  Forall (fun l => line_key l <> Some k) later ->
  forall out, dict_get (fold_left env_line later out) k = dict_get out k.
Proof.
  induction 1 as [|l later Hl _ IH]; intros out; [reflexivity|].
  simpl. rewrite IH. apply env_line_other, Hl.
Qed.

(** X29.  The last line of the file that defines a key gives the key its
    value.  The line may have any lines before it, and after it any lines
    that do not define this key (comments, blank lines, lines without [=],
    definitions of other keys).  It is a line [KEY = VALUE], with whatever
    whitespace around the key and the value, the value bare, in double
    quotes or in apostrophes; later [=] signs are part of the value. *)
Theorem env_line_defines (before later : list pystr)
        (w1 k w2 w3 q v w4 : pystr)
        (Hw : forallb is_space (w1 ++ w2 ++ w3 ++ w4) = true)
        (Hk : k <> [] /\ trimmed k /\ ~ In EQUALS k /\
              hd_error k <> Some HASH)
        (Hq : q = [] \/ q = [DQUOTE] \/ q = [SQUOTE])
        (Hv : trimmed v /\ ends_free DQUOTE v /\ ends_free SQUOTE v)
        (Hlast : Forall (fun l => line_key l <> Some k) later) :
  line_key (env_text w1 k w2 w3 q v w4) = Some k /\
  dict_get
    (_parse_env_file
       (Some (before ++ [env_text w1 k w2 w3 q v w4] ++ later))) k
  = Some (PStr v).
Proof.
  rewrite !forallb_app in Hw.
  apply andb_true_iff in Hw as [H1 Hw].
  apply andb_true_iff in Hw as [H2 Hw].
  apply andb_true_iff in Hw as [H3 H4].
  destruct Hk as (Hne & Hk & Hn & Hh). destruct Hv as (Hv & Hd & Hs).
  pose proof (quoted_trimmed q v Hq Hv) as HV.
  pose proof (unquote q v Hq Hd Hs) as HU.
  set (V := q ++ v ++ q) in *.
  assert (E : forall out,
             env_line out (env_text w1 k w2 w3 q v w4)
             = dict_set out k (PStr v)).
  { intros out. unfold env_text. fold V. destruct V as [|c V'] eqn:EV.
    - replace (w1 ++ k ++ w2 ++ [EQUALS] ++ w3 ++ [] ++ w4)
        with (w1 ++ (k ++ w2 ++ EQUALS :: []) ++ (w3 ++ w4))
        by (cbn [app]; rewrite <- !app_assoc; reflexivity).
      rewrite (env_line_set out w1 k w2 [] (w3 ++ w4) []); auto.
      + rewrite <- HU. reflexivity.
      + rewrite forallb_app, H3, H4. reflexivity.
    - replace (w1 ++ k ++ w2 ++ [EQUALS] ++ w3 ++ (c :: V') ++ w4)
        with (w1 ++ (k ++ w2 ++ EQUALS :: (w3 ++ c :: V')) ++ w4)
        by (cbn [app]; rewrite <- !app_assoc; cbn [app];
            rewrite <- !app_assoc; reflexivity).
      rewrite (env_line_set out w1 k w2 (w3 ++ c :: V') w4 (c :: V')); auto.
      + rewrite HU. reflexivity.
      + change (EQUALS :: w3 ++ c :: V')
          with ((EQUALS :: w3) ++ c :: V').
        rewrite rev_app_distr. apply starts_ok_app; [|apply HV].
        simpl. destruct (rev V'); discriminate.
      + pose proof (strip_pad w3 (c :: V') [] H3 eq_refl HV) as E.
        rewrite app_nil_r in E. exact E. }
  split.
  - destruct (line_key (env_text w1 k w2 w3 q v w4)) as [k'|] eqn:Ek.
    + destruct (str_eqb k' k) eqn:Ekk; [apply str_eqb_eq in Ekk; congruence|].
      exfalso.
      assert (Hne' : line_key (env_text w1 k w2 w3 q v w4) <> Some k).
      { rewrite Ek. intros [= ->]. rewrite str_eqb_refl in Ekk.
        discriminate Ekk. }
      pose proof (env_line_other [] _ k Hne') as Ho.
      rewrite E, dict_get_set, str_eqb_refl in Ho. discriminate Ho.
    + exfalso.
      assert (Hne' : line_key (env_text w1 k w2 w3 q v w4) <> Some k)
        by (rewrite Ek; discriminate).
      pose proof (env_line_other [] _ k Hne') as Ho.
      rewrite E, dict_get_set, str_eqb_refl in Ho. discriminate Ho.
  - cbn [_parse_env_file]. rewrite !fold_left_app. cbn [fold_left].
    rewrite (env_lines_other later k Hlast), E, dict_get_set, str_eqb_refl.
    reflexivity.
Qed.

Lemma env_line_defines_witness :
  dict_get
    (_parse_env_file
       (Some ([u "# keys"; u "API_KEY=old"]
              ++ [env_text [SPACE] (u "API_KEY") [SPACE] [SPACE] [DQUOTE]
                           (u "a=b c") [10%N]]
              ++ [u "  "; u "# API_KEY=no"; u "OTHER = API_KEY=x";
                  u "no equals sign"])))
    (u "API_KEY")
  = Some (PStr (u "a=b c")).
Proof.
  refine (proj2 (env_line_defines [u "# keys"; u "API_KEY=old"]
           [u "  "; u "# API_KEY=no"; u "OTHER = API_KEY=x";
            u "no equals sign"]
           [SPACE] (u "API_KEY") [SPACE] [SPACE] [DQUOTE] (u "a=b c") [10%N]
           _ _ _ _ _)).
  - reflexivity.
  - split; [discriminate|]. split; [split; reflexivity|].
    split; [|discriminate].
    intros H. vm_compute in H. repeat (destruct H as [H|H]; [discriminate H|]).
    exact H.
  - right. left. reflexivity.
  - split; [split; reflexivity|]. split; split; discriminate.
  - repeat (constructor; [intros H; vm_compute in H; discriminate H|]).
    constructor.
Defined.
